(** * OpenShift workload simulator: resource accounting and placement

    A shallow embedding of the classes of [simulator.js] (WorkerNode,
    Namespace, Pod, Deployment, OpenShiftSimulator) and the proofs of the
    properties its specification states about them.

    Modelling conventions.
    - JavaScript numbers are exact rationals ([Q]); rounding of doubles is
      outside the model.  Replica counts and node counts are integers ([Z]).
    - Objects live in stores (one per class) and are referred to by their
      index, so that the aliasing of the source is kept: a pod refers to its
      node, a node lists its pods, a deployment refers to its namespace, a
      namespace lists its deployments.  A store only grows; an object that
      the program drops simply stays unreferenced.
      A reference always points into its store in the states the operations
      build ([run_poolValid] and the [Structured] invariants); where a
      function has to read through a reference, the branch for a missing
      object leaves the state as it is.
    - [this.namespaces] is a finite map from names to namespace references
      (own properties only).
    - [Math.random] is an argument: the stream of its successive results.
    - [simulator.js] holds the classes twice, once for the browser and once
      for the server.  The two copies agree on every method modelled here but
      [setTotalWorkerNodes], where the server copy also marks the pods of the
      removed nodes Pending before it calls [reallocateAllPods], which marks
      every pod Pending anyway.  The model follows the first copy. *)

From Stdlib Require Import QArith Qround Qminmax Lqa ZArith Sorted.
From stdpp Require Import gmap strings list pretty.

Open Scope Q_scope.

(** ** Numbers *)

Definition RESERVED_CPU : Q := 2.
Definition RESERVED_MEMORY : Q := 4.

(** [x < y] on numbers, as a boolean. *)
Definition Qltb (x y : Q) : bool := negb (Qle_bool y x).

(** The clamp [if (x < 0) x = 0] of the two [deallocateResources]. *)
Definition clampNeg (x : Q) : Q := if Qltb x 0 then 0 else x.

(** ** Pod *)

Inductive PodStatus := Pending | Running.

Module Pod.
Record t := mk {
  name : string;
  cpuRequest : Q;
  memoryRequest : Q;
  status : PodStatus;
  node : option nat
}.

Definition new (nm : string) (cpu mem : Q) : t := mk nm cpu mem Pending None.

(** [pod.status = "Running"; pod.node = node] *)
Definition bind (n : nat) (p : t) : t :=
  mk (name p) (cpuRequest p) (memoryRequest p) Running (Some n).

(** [pod.status = "Pending"; pod.node = null] *)
Definition unbind (p : t) : t :=
  mk (name p) (cpuRequest p) (memoryRequest p) Pending None.

Definition isPending (p : t) : bool :=
  match status p with Pending => true | Running => false end.

(** What never changes in a pod. *)
Definition template (p : t) : string * Q * Q :=
  (name p, cpuRequest p, memoryRequest p).
End Pod.

(** ** WorkerNode *)

Module WorkerNode.
Record t := mk {
  name : string;
  cpuCapacity : Q;
  memoryCapacity : Q;
  cpuAllocated : Q;
  memoryAllocated : Q;
  pods : list nat
}.

Definition new (nm : string) (cpu mem : Q) : t := mk nm cpu mem 0 0 [].

Definition allocatableCpu (n : t) : Q := Qmax 0 (cpuCapacity n - RESERVED_CPU).
Definition allocatableMemory (n : t) : Q := Qmax 0 (memoryCapacity n - RESERVED_MEMORY).

Definition allocateResources (cpu mem : Q) (n : t) : bool * t :=
  (true, mk (name n) (cpuCapacity n) (memoryCapacity n)
            (cpuAllocated n + cpu) (memoryAllocated n + mem) (pods n)).

Definition deallocateResources (cpu mem : Q) (n : t) : t :=
  mk (name n) (cpuCapacity n) (memoryCapacity n)
     (clampNeg (cpuAllocated n - cpu)) (clampNeg (memoryAllocated n - mem)) (pods n).

Definition addPod (p : nat) (n : t) : t :=
  mk (name n) (cpuCapacity n) (memoryCapacity n)
     (cpuAllocated n) (memoryAllocated n) (pods n ++ [p]).

(** [indexOf] then [splice(index, 1)]: the first occurrence goes. *)
Fixpoint removeFirst (p : nat) (l : list nat) : list nat :=
  match l with
  | [] => []
  | q :: r => if decide (q = p) then r else q :: removeFirst p r
  end.

Definition removePod (p : nat) (n : t) : t :=
  mk (name n) (cpuCapacity n) (memoryCapacity n)
     (cpuAllocated n) (memoryAllocated n) (removeFirst p (pods n)).

(** The reset of [reallocateAllPods] and [setSimulatedWorkloadFactor]. *)
Definition clear (n : t) : t :=
  mk (name n) (cpuCapacity n) (memoryCapacity n) 0 0 [].

(** What never changes in a node. *)
Definition identity (n : t) : string * Q * Q :=
  (name n, cpuCapacity n, memoryCapacity n).
End WorkerNode.

(** ** Namespace *)

Module Namespace.
Record t := mk {
  name : string;
  cpuQuota : Q;
  memoryQuota : Q;
  deployments : list nat;
  cpuAllocated : Q;
  memoryAllocated : Q
}.

Definition new (nm : string) (cq mq : Q) : t := mk nm cq mq [] 0 0.

Definition fits (cpu mem : Q) (ns : t) : bool :=
  Qle_bool (cpuAllocated ns + cpu) (cpuQuota ns)
  && Qle_bool (memoryAllocated ns + mem) (memoryQuota ns).

Definition allocateResources (cpu mem : Q) (ns : t) : bool * t :=
  if fits cpu mem ns
  then (true, mk (name ns) (cpuQuota ns) (memoryQuota ns) (deployments ns)
                 (cpuAllocated ns + cpu) (memoryAllocated ns + mem))
  else (false, ns).

Definition deallocateResources (cpu mem : Q) (ns : t) : t :=
  mk (name ns) (cpuQuota ns) (memoryQuota ns) (deployments ns)
     (clampNeg (cpuAllocated ns - cpu)) (clampNeg (memoryAllocated ns - mem)).

(** [namespace.deployments.push(deployment)] *)
Definition addDeployment (d : nat) (ns : t) : t :=
  mk (name ns) (cpuQuota ns) (memoryQuota ns) (deployments ns ++ [d])
     (cpuAllocated ns) (memoryAllocated ns).

(** [indexOf] then [splice(index, 1)] on [namespace.deployments]. *)
Definition removeDeployment (d : nat) (ns : t) : t :=
  mk (name ns) (cpuQuota ns) (memoryQuota ns)
     (WorkerNode.removeFirst d (deployments ns))
     (cpuAllocated ns) (memoryAllocated ns).
End Namespace.

(** ** Deployment *)

Module Deployment.
Record t := mk {
  name : string;
  namespace : nat;
  replicaCount : Z;
  cpuRequestPerReplica : Q;
  memoryRequestPerReplica : Q;
  pods : list nat
}.

(** The pods that [createPods] builds: [replicaCount] of them, named
    [name-i], all Pending and unbound. *)
Definition freshPods (d : t) : list Pod.t :=
  map (fun i : nat =>
         Pod.new (name d +:+ "-" +:+ pretty i)
                 (cpuRequestPerReplica d) (memoryRequestPerReplica d))
      (seq 0 (Z.to_nat (replicaCount d))).

(** [createPods]: the new pods are put in the pod store and the
    deployment's list is replaced by the references to them. *)
Definition createPods (d : t) (store : list Pod.t) : t * list Pod.t :=
  (mk (name d) (namespace d) (replicaCount d)
      (cpuRequestPerReplica d) (memoryRequestPerReplica d)
      (seq (length store) (Z.to_nat (replicaCount d))),
   store ++ freshPods d).

Definition setReplicaCount (n : Z) (d : t) : t :=
  mk (name d) (namespace d) n
     (cpuRequestPerReplica d) (memoryRequestPerReplica d) (pods d).

Definition totalCpu (d : t) : Q := inject_Z (replicaCount d) * cpuRequestPerReplica d.
Definition totalMemory (d : t) : Q := inject_Z (replicaCount d) * memoryRequestPerReplica d.
End Deployment.

(** ** OpenShiftSimulator *)

Record OpenShiftSimulator := mkSim {
  nodeStore : list WorkerNode.t;
  namespaceStore : list Namespace.t;
  deploymentStore : list Deployment.t;
  podStore : list Pod.t;
  workerNodes : list nat;
  namespaces : gmap string nat;
  deployments : list nat;
  simulatedWorkloadFactor : Q;
  nodeCounter : nat
}.

Definition withNodeStore (v : list WorkerNode.t) (s : OpenShiftSimulator) :=
  mkSim v (namespaceStore s) (deploymentStore s) (podStore s)
        (workerNodes s) (namespaces s) (deployments s)
        (simulatedWorkloadFactor s) (nodeCounter s).
Definition withNamespaceStore (v : list Namespace.t) (s : OpenShiftSimulator) :=
  mkSim (nodeStore s) v (deploymentStore s) (podStore s)
        (workerNodes s) (namespaces s) (deployments s)
        (simulatedWorkloadFactor s) (nodeCounter s).
Definition withDeploymentStore (v : list Deployment.t) (s : OpenShiftSimulator) :=
  mkSim (nodeStore s) (namespaceStore s) v (podStore s)
        (workerNodes s) (namespaces s) (deployments s)
        (simulatedWorkloadFactor s) (nodeCounter s).
Definition withPodStore (v : list Pod.t) (s : OpenShiftSimulator) :=
  mkSim (nodeStore s) (namespaceStore s) (deploymentStore s) v
        (workerNodes s) (namespaces s) (deployments s)
        (simulatedWorkloadFactor s) (nodeCounter s).
Definition withWorkerNodes (v : list nat) (s : OpenShiftSimulator) :=
  mkSim (nodeStore s) (namespaceStore s) (deploymentStore s) (podStore s)
        v (namespaces s) (deployments s)
        (simulatedWorkloadFactor s) (nodeCounter s).
Definition withNamespaces (v : gmap string nat) (s : OpenShiftSimulator) :=
  mkSim (nodeStore s) (namespaceStore s) (deploymentStore s) (podStore s)
        (workerNodes s) v (deployments s)
        (simulatedWorkloadFactor s) (nodeCounter s).
Definition withDeployments (v : list nat) (s : OpenShiftSimulator) :=
  mkSim (nodeStore s) (namespaceStore s) (deploymentStore s) (podStore s)
        (workerNodes s) (namespaces s) v
        (simulatedWorkloadFactor s) (nodeCounter s).
Definition withFactor (v : Q) (s : OpenShiftSimulator) :=
  mkSim (nodeStore s) (namespaceStore s) (deploymentStore s) (podStore s)
        (workerNodes s) (namespaces s) (deployments s)
        v (nodeCounter s).
Definition withNodeCounter (v : nat) (s : OpenShiftSimulator) :=
  mkSim (nodeStore s) (namespaceStore s) (deploymentStore s) (podStore s)
        (workerNodes s) (namespaces s) (deployments s)
        (simulatedWorkloadFactor s) v.

(** In-place updates of one object. *)
Definition updNode (n : nat) (f : WorkerNode.t -> WorkerNode.t) (s : OpenShiftSimulator) :=
  withNodeStore (alter f n (nodeStore s)) s.
Definition updNamespace (n : nat) (f : Namespace.t -> Namespace.t) (s : OpenShiftSimulator) :=
  withNamespaceStore (alter f n (namespaceStore s)) s.
Definition updDeployment (d : nat) (f : Deployment.t -> Deployment.t) (s : OpenShiftSimulator) :=
  withDeploymentStore (alter f d (deploymentStore s)) s.
Definition updPod (p : nat) (f : Pod.t -> Pod.t) (s : OpenShiftSimulator) :=
  withPodStore (alter f p (podStore s)) s.

(** [deployment.pods] for a deployment reference. *)
Definition podsOf (s : OpenShiftSimulator) (d : nat) : list nat :=
  match deploymentStore s !! d with
  | Some dep => Deployment.pods dep
  | None => []
  end.

(** *** Node pool *)

Definition emptySimulator : OpenShiftSimulator :=
  mkSim [] [] [] [] [] ∅ [] 0 0.

(** [!name]: a missing or empty name takes the default. *)
Definition nameGiven (name : option string) : option string :=
  match name with
  | Some "" => None
  | other => other
  end.

Definition addWorkerNode (name : option string) (cpu memory : option Q)
    (s : OpenShiftSimulator) : nat * OpenShiftSimulator :=
  let counter := S (nodeCounter s) in
  let nm := default ("worker-node-" +:+ pretty counter) (nameGiven name) in
  let node := WorkerNode.new nm (default 128 cpu) (default 1500 memory) in
  let id := length (nodeStore s) in
  (id, withWorkerNodes (workerNodes s ++ [id])
         (withNodeStore (nodeStore s ++ [node])
            (withNodeCounter counter s))).

(** A loop that calls [addWorkerNode] [k] times with the same arguments. *)
Fixpoint addWorkerNodes (k : nat) (name : option string) (cpu memory : option Q)
    (s : OpenShiftSimulator) : OpenShiftSimulator :=
  match k with
  | O => s
  | S k' => addWorkerNodes k' name cpu memory (snd (addWorkerNode name cpu memory s))
  end.

Definition constructor : OpenShiftSimulator :=
  addWorkerNodes 3 None (Some 128) (Some 1500) emptySimulator.

(** *** Placement *)

Definition cpuOf (store : list WorkerNode.t) (n : nat) : Q :=
  match store !! n with
  | Some nd => WorkerNode.cpuAllocated nd
  | None => 0
  end.

(** The comparator [(a, b) => a.cpuAllocated - b.cpuAllocated]. *)
Definition compareNodes (store : list WorkerNode.t) (a b : nat) : Q :=
  cpuOf store a - cpuOf store b.

(** [Array.prototype.sort] is a stable sort; insertion from the right is
    one: an element goes before the first later element it does not exceed. *)
Fixpoint insertSorted {A} (cmp : A -> A -> Q) (a : A) (l : list A) : list A :=
  match l with
  | [] => [a]
  | b :: r => if Qle_bool (cmp a b) 0 then a :: b :: r else b :: insertSorted cmp a r
  end.

Definition stableSort {A} (cmp : A -> A -> Q) (l : list A) : list A :=
  foldr (insertSorted cmp) [] l.

(** The [for (const node of sortedNodes)] loop for one pod. *)
Fixpoint placePod (candidates : list nat) (p : nat) (pod : Pod.t)
    (s : OpenShiftSimulator) : OpenShiftSimulator :=
  match candidates with
  | [] => s
  | n :: rest =>
      match nodeStore s !! n with
      | Some nd =>
          let '(ok, nd') :=
            WorkerNode.allocateResources (Pod.cpuRequest pod) (Pod.memoryRequest pod) nd in
          let s1 := updNode n (fun _ => nd') s in
          if ok
          then updNode n (WorkerNode.addPod p) (updPod p (Pod.bind n) s1)
          else placePod rest p pod s1
      | None => s
      end
  end.

Definition placeIfPending (candidates : list nat) (s : OpenShiftSimulator) (p : nat)
    : OpenShiftSimulator :=
  match podStore s !! p with
  | Some pod => if Pod.isPending pod then placePod candidates p pod s else s
  | None => s
  end.

Definition allocateDeploymentPods (d : nat) (s : OpenShiftSimulator) : OpenShiftSimulator :=
  let sortedNodes := stableSort (compareNodes (nodeStore s)) (workerNodes s) in
  foldl (placeIfPending sortedNodes) s (podsOf s d).

Definition reallocateAllPods (s : OpenShiftSimulator) : OpenShiftSimulator :=
  let s1 := foldl (fun s n => updNode n WorkerNode.clear s) s (workerNodes s) in
  let s2 := foldl (fun s d => foldl (fun s p => updPod p Pod.unbind s) s (podsOf s d))
                  s1 (deployments s1) in
  foldl (fun s d => allocateDeploymentPods d s) s2 (deployments s2).

(** [this.workerNodes.splice(targetCount)]: what stays in the array. *)
Definition spliceFrom {A} (start : Z) (l : list A) : list A :=
  let len := Z.of_nat (length l) in
  let from := if (start <? 0)%Z then Z.max (len + start) 0 else Z.min start len in
  take (Z.to_nat from) l.

Definition setTotalWorkerNodes (targetCount : Z) (s : OpenShiftSimulator)
    : bool * OpenShiftSimulator :=
  let currentCount := Z.of_nat (length (workerNodes s)) in
  if (targetCount <? currentCount)%Z then
    (true, reallocateAllPods (withWorkerNodes (spliceFrom targetCount (workerNodes s)) s))
  else if (targetCount >? currentCount)%Z then
    (true, reallocateAllPods
             (addWorkerNodes (Z.to_nat (targetCount - currentCount)) None None None s))
  else (true, s).

(** *** Namespaces and deployments *)

Definition createNamespace (name : string) (cpuQuota memoryQuota : Q)
    (s : OpenShiftSimulator) : option nat * OpenShiftSimulator :=
  match namespaces s !! name with
  | Some _ => (None, s)
  | None =>
      let id := length (namespaceStore s) in
      (Some id,
       withNamespaces (<[name := id]> (namespaces s))
         (withNamespaceStore
            (namespaceStore s ++ [Namespace.new name cpuQuota memoryQuota]) s))
  end.

(** [new Deployment(...)]: the object is built, its pods are created, and
    both go to their stores; the result is the reference to it. *)
Definition newDeployment (name : string) (nsId : nat) (replicaCount : Z) (cpu mem : Q)
    (s : OpenShiftSimulator) : nat * OpenShiftSimulator :=
  let '(dep, store) :=
    Deployment.createPods (Deployment.mk name nsId replicaCount cpu mem []) (podStore s) in
  (length (deploymentStore s),
   withPodStore store (withDeploymentStore (deploymentStore s ++ [dep]) s)).

Definition addDeployment (name namespaceName : string) (replicaCount : Z)
    (cpuRequestPerReplica memoryRequestPerReplica : Q)
    (s : OpenShiftSimulator) : option nat * OpenShiftSimulator :=
  match namespaces s !! namespaceName with
  | None => (None, s)
  | Some nsId =>
      match namespaceStore s !! nsId with
      | None => (None, s)
      | Some ns =>
          let totalCpuNeeded := inject_Z replicaCount * cpuRequestPerReplica in
          let totalMemoryNeeded := inject_Z replicaCount * memoryRequestPerReplica in
          let '(ok, ns') := Namespace.allocateResources totalCpuNeeded totalMemoryNeeded ns in
          if negb ok then (None, s)
          else
            let s1 := updNamespace nsId (fun _ => ns') s in
            let '(d, s2) :=
              newDeployment name nsId replicaCount
                            cpuRequestPerReplica memoryRequestPerReplica s1 in
            let s3 := withDeployments (deployments s2 ++ [d]) s2 in
            let s4 := updNamespace nsId (Namespace.addDeployment d) s3 in
            (Some d, allocateDeploymentPods d s4)
      end
  end.

Definition nameOf (s : OpenShiftSimulator) (d : nat) : option string :=
  Deployment.name <$> deploymentStore s !! d.

(** [find] and [findIndex] with [dep => dep.name === name]. *)
Definition findDeployment (name : string) (s : OpenShiftSimulator) : option (nat * nat) :=
  list_find (fun d => nameOf s d = Some name) (deployments s).

(** The body of the two [deployment.pods.forEach(pod => { if (pod.node) ... })]. *)
Definition unbindPod (s : OpenShiftSimulator) (p : nat) : OpenShiftSimulator :=
  match podStore s !! p with
  | Some pod =>
      match Pod.node pod with
      | Some n =>
          updNode n (WorkerNode.removePod p)
            (updNode n (WorkerNode.deallocateResources
                          (Pod.cpuRequest pod) (Pod.memoryRequest pod)) s)
      | None => s
      end
  | None => s
  end.

(** [deployment.replicaCount = n; deployment.createPods()] *)
Definition regeneratePods (d : nat) (n : Z) (s : OpenShiftSimulator) : OpenShiftSimulator :=
  match deploymentStore s !! d with
  | Some dep =>
      let '(dep', store) :=
        Deployment.createPods (Deployment.setReplicaCount n dep) (podStore s) in
      withPodStore store (updDeployment d (fun _ => dep') s)
  | None => s
  end.

Definition scaleDeployment (name : string) (newReplicaCount : Z)
    (s : OpenShiftSimulator) : bool * OpenShiftSimulator :=
  match findDeployment name s with
  | None => (false, s)
  | Some (_, d) =>
      match deploymentStore s !! d with
      | None => (false, s)
      | Some dep =>
          let nsId := Deployment.namespace dep in
          let oldTotalCpu := Deployment.totalCpu dep in
          let oldTotalMemory := Deployment.totalMemory dep in
          let newTotalCpu := inject_Z newReplicaCount * Deployment.cpuRequestPerReplica dep in
          let newTotalMemory :=
            inject_Z newReplicaCount * Deployment.memoryRequestPerReplica dep in
          let s1 := updNamespace nsId
                      (Namespace.deallocateResources oldTotalCpu oldTotalMemory) s in
          let s2 := foldl unbindPod s1 (Deployment.pods dep) in
          let s3 := regeneratePods d newReplicaCount s2 in
          match namespaceStore s3 !! nsId with
          | None => (false, s3)
          | Some ns =>
              let '(ok, ns') := Namespace.allocateResources newTotalCpu newTotalMemory ns in
              if negb ok then
                let '(_, ns'') :=
                  Namespace.allocateResources oldTotalCpu oldTotalMemory ns' in
                (false, updNamespace nsId (fun _ => ns'') s3)
              else
                (true, allocateDeploymentPods d (updNamespace nsId (fun _ => ns') s3))
          end
      end
  end.

Definition deleteDeployment (name : string) (s : OpenShiftSimulator)
    : bool * OpenShiftSimulator :=
  match findDeployment name s with
  | None => (false, s)
  | Some (deploymentIndex, d) =>
      match deploymentStore s !! d with
      | None => (false, s)
      | Some dep =>
          let nsId := Deployment.namespace dep in
          let s1 := updNamespace nsId
                      (Namespace.deallocateResources (Deployment.totalCpu dep)
                                                     (Deployment.totalMemory dep)) s in
          let s2 := updNamespace nsId (Namespace.removeDeployment d) s1 in
          let s3 := foldl unbindPod s2 (Deployment.pods dep) in
          (true, withDeployments (delete deploymentIndex (deployments s3)) s3)
      end
  end.

(** *** Simulated workload *)

(** [this.workerNodes.reduce((sum, node) => sum + f(node), 0)] *)
Definition sumNodes (f : WorkerNode.t -> Q) (s : OpenShiftSimulator) : Q :=
  foldl (fun sum n => match nodeStore s !! n with
                      | Some nd => sum + f nd
                      | None => sum
                      end) 0 (workerNodes s).

(** The first statements of a successful [setSimulatedWorkloadFactor]: the
    factor is stored, every node of the pool is cleared, and the namespace
    table and the deployment list are replaced by empty ones. *)
Definition wipe (factor : Q) (s : OpenShiftSimulator) : OpenShiftSimulator :=
  let s1 := withFactor factor s in
  let s2 := foldl (fun s n => updNode n WorkerNode.clear s) s1 (workerNodes s1) in
  withDeployments [] (withNamespaces ∅ s2).

(** The body of the [if (factor > 0)]; [random k] is the result of the
    [k]-th call of [Math.random] (one call per generated deployment). *)
Definition populate (factor : Q) (random : nat -> Q) (s : OpenShiftSimulator)
    : OpenShiftSimulator :=
  let totalAllocatableCpu := sumNodes WorkerNode.allocatableCpu s in
  let totalAllocatableMemory := sumNodes WorkerNode.allocatableMemory s in
  let numNamespaces := Z.max 1 (Z.min 10 (Qceiling (factor * 10))) in
  let numDeploymentsPerNs := Z.max 1 (Z.min 10 (Qceiling (factor * 10))) in
  let avgCpuPerNs := totalAllocatableCpu / inject_Z numNamespaces in
  let avgMemoryPerNs := totalAllocatableMemory / inject_Z numNamespaces in
  foldl (fun s (i : nat) =>
    let nsName := "sim-ns-" +:+ pretty i in
    let s := snd (createNamespace nsName (avgCpuPerNs * 1.2) (avgMemoryPerNs * 1.2) s) in
    let targetCpuForNs := (totalAllocatableCpu * factor) / inject_Z numNamespaces in
    let targetMemoryForNs := (totalAllocatableMemory * factor) / inject_Z numNamespaces in
    let cpuPerDeployment := targetCpuForNs / inject_Z numDeploymentsPerNs in
    let memoryPerDeployment := targetMemoryForNs / inject_Z numDeploymentsPerNs in
    foldl (fun s (j : nat) =>
      let depName := "sim-dep-" +:+ pretty i +:+ "-" +:+ pretty j in
      let replicaCount :=
        (Qfloor (random (i * Z.to_nat numDeploymentsPerNs + j)%nat * 3) + 1)%Z in
      let cpuPerReplica := Qmax 0.01 (cpuPerDeployment / inject_Z replicaCount) in
      let memoryPerReplica := Qmax 0.01 (memoryPerDeployment / inject_Z replicaCount) in
      snd (addDeployment depName nsName replicaCount cpuPerReplica memoryPerReplica s))
      s (seq 0 (Z.to_nat numDeploymentsPerNs)))
    s (seq 0 (Z.to_nat numNamespaces)).

Definition setSimulatedWorkloadFactor (factor : Q) (random : nat -> Q)
    (s : OpenShiftSimulator) : bool * OpenShiftSimulator :=
  if Qltb factor 0 || Qltb 1 factor then (false, s)
  else
    let s1 := wipe factor s in
    if Qltb 0 factor then (true, populate factor random s1) else (true, s1).

(** ** Commands *)

(** The mutating operations of the simulator, as data, so that sequences of
    operations can be quantified over. *)
Inductive Command :=
| AddWorkerNode (name : option string) (cpu memory : option Q)
| SetTotalWorkerNodes (targetCount : Z)
| CreateNamespace (name : string) (cpuQuota memoryQuota : Q)
| AddDeployment (name namespaceName : string) (replicaCount : Z) (cpu memory : Q)
| ScaleDeployment (name : string) (newReplicaCount : Z)
| DeleteDeployment (name : string)
| SetSimulatedWorkloadFactor (factor : Q) (random : nat -> Q).

Definition exec (c : Command) (s : OpenShiftSimulator) : OpenShiftSimulator :=
  match c with
  | AddWorkerNode name cpu memory => snd (addWorkerNode name cpu memory s)
  | SetTotalWorkerNodes n => snd (setTotalWorkerNodes n s)
  | CreateNamespace name cq mq => snd (createNamespace name cq mq s)
  | AddDeployment name ns rc cpu memory => snd (addDeployment name ns rc cpu memory s)
  | ScaleDeployment name rc => snd (scaleDeployment name rc s)
  | DeleteDeployment name => snd (deleteDeployment name s)
  | SetSimulatedWorkloadFactor factor random =>
      snd (setSimulatedWorkloadFactor factor random s)
  end.

Definition run (cmds : list Command) (s : OpenShiftSimulator) : OpenShiftSimulator :=
  foldl (fun s c => exec c s) s cmds.

(** The contracts of the interface on the numeric arguments: no negative
    replica count or request, and [Math.random] yields a number of [0,1). *)
Definition validArgs (c : Command) : Prop :=
  match c with
  | AddDeployment _ _ rc cpu memory => (0 <= rc)%Z /\ 0 <= cpu /\ 0 <= memory
  | ScaleDeployment _ rc => (0 <= rc)%Z
  | SetSimulatedWorkloadFactor _ random => forall k, 0 <= random k /\ random k < 1
  | _ => True
  end.

(** ** Frames *)

(** What placement on node [h] does to a pod: a Pending pod is bound to
    [h], a Running one is left alone. *)
Definition placed (h : nat) (pod : Pod.t) : Pod.t :=
  if Pod.isPending pod then Pod.bind h pod else pod.

(** Every reference of the node pool points into the node store. *)
Definition poolValid (s : OpenShiftSimulator) : Prop :=
  forall n, n ∈ workerNodes s -> (n < length (nodeStore s))%nat.

(** [s'] differs from [s] at most in the allocation state of nodes and in
    the binding state of pods: the same objects exist, with the same
    identities and templates, and everything else is as in [s]. *)
Definition placementOnly (s s' : OpenShiftSimulator) : Prop :=
  s' = withPodStore (podStore s') (withNodeStore (nodeStore s') s) /\
  map WorkerNode.identity (nodeStore s') = map WorkerNode.identity (nodeStore s) /\
  map Pod.template (podStore s') = map Pod.template (podStore s).

(** [s'] has the pool of [s]: the same references, as many nodes in the
    store, and the same naming counter. *)
Definition keepsPool (s s' : OpenShiftSimulator) : Prop :=
  workerNodes s' = workerNodes s /\
  length (nodeStore s') = length (nodeStore s) /\
  nodeCounter s' = nodeCounter s.

(** Every namespace of the table and every deployment of the list is an
    object created after the stores had [N] namespaces and [D] deployments. *)
Definition createdSince (N D : nat) (s : OpenShiftSimulator) : Prop :=
  (forall name n, namespaces s !! name = Some n -> (N <= n)%nat) /\
  (forall d, d ∈ deployments s -> (D <= d)%nat) /\
  (N <= length (namespaceStore s))%nat /\
  (D <= length (deploymentStore s))%nat.

(** ** What the sort guarantees *)

(** Ascending by key. *)
Definition ascending {A} (key : A -> Q) : list A -> Prop :=
  StronglySorted (fun x y => key x <= key y).

(** The elements of key [k]; a sort is stable when it keeps, for every [k],
    this sublist as it was. *)
Definition hasKey {A} (key : A -> Q) (k : Q) (x : A) : Prop := key x == k.

#[global] Instance hasKey_dec {A} (key : A -> Q) (k : Q) (x : A) :
  Decision (hasKey key k x) := Qeq_dec (key x) k.

(** [h] is at index [i] of [l], no element has a smaller key, and every
    element before it has a strictly larger one. *)
Definition leftmostLeast {A} (key : A -> Q) (l : list A) (i : nat) (h : A) : Prop :=
  l !! i = Some h /\
  (forall x, x ∈ l -> key h <= key x) /\
  (forall j x, (j < i)%nat -> l !! j = Some x -> key h < key x).

(** ** The scenario of the specification *)

(** A fresh cluster (three nodes) with namespace "a" of quota (10, 100). *)
Definition scenarioNamespace : OpenShiftSimulator :=
  snd (createNamespace "a" 10 100 constructor).

(** ... after [addDeployment("d1", "a", 2, 3, 40)]. *)
Definition scenarioDeployed : OpenShiftSimulator :=
  snd (addDeployment "d1" "a" 2 3 40 scenarioNamespace).

(** ... then [scaleDeployment("d1", 4)], which the quota rejects. *)
Definition scenarioRejected : OpenShiftSimulator :=
  snd (scaleDeployment "d1" 4 scenarioDeployed).

(** ** Resource sums *)

Definition sumOver (f : nat -> Q) (l : list nat) : Q :=
  foldr (fun x acc => f x + acc) 0 l.

Definition podCpu (store : list Pod.t) (p : nat) : Q :=
  match store !! p with Some pod => Pod.cpuRequest pod | None => 0 end.
Definition podMemory (store : list Pod.t) (p : nat) : Q :=
  match store !! p with Some pod => Pod.memoryRequest pod | None => 0 end.


(** A node's counters are the sums of the requests of the pods it lists. *)
Definition nodeAccounted (s : OpenShiftSimulator) (nd : WorkerNode.t) : Prop :=
  WorkerNode.cpuAllocated nd == sumOver (podCpu (podStore s)) (WorkerNode.pods nd) /\
  WorkerNode.memoryAllocated nd == sumOver (podMemory (podStore s)) (WorkerNode.pods nd).



(** ** Invariants of the node accounting *)

(** A pod is live when a deployment of the deployment list owns it. *)
Definition livePod (s : OpenShiftSimulator) (p : nat) : Prop :=
  exists d, d ∈ deployments s /\ p ∈ podsOf s d.

(** The shape of the stores: references point to existing objects, a
    deployment lists each of its pods once, two deployments share no pod, the
    deployment list has no repetition, and no request is negative. *)
Record Structured (s : OpenShiftSimulator) : Prop := {
  st_nodePods : forall n nd p,
    nodeStore s !! n = Some nd -> p ∈ WorkerNode.pods nd ->
    (p < length (podStore s))%nat;
  st_depPods : forall d dep p,
    deploymentStore s !! d = Some dep -> p ∈ Deployment.pods dep ->
    (p < length (podStore s))%nat;
  st_nodup : forall d dep,
    deploymentStore s !! d = Some dep -> NoDup (Deployment.pods dep);
  st_disjoint : forall d1 d2 dep1 dep2 p,
    deploymentStore s !! d1 = Some dep1 -> deploymentStore s !! d2 = Some dep2 ->
    p ∈ Deployment.pods dep1 -> p ∈ Deployment.pods dep2 -> d1 = d2;
  st_deps : NoDup (deployments s);
  st_depsValid : forall d,
    d ∈ deployments s -> (d < length (deploymentStore s))%nat;
  st_requests : forall p pod,
    podStore s !! p = Some pod -> 0 <= Pod.cpuRequest pod /\ 0 <= Pod.memoryRequest pod;
  st_depRequests : forall d dep,
    deploymentStore s !! d = Some dep ->
    0 <= Deployment.cpuRequestPerReplica dep /\ 0 <= Deployment.memoryRequestPerReplica dep
}.

(** Every node of the pool accounts for the pods it lists. *)
Definition accountedNodes (s : OpenShiftSimulator) : Prop :=
  forall n nd, n ∈ workerNodes s -> nodeStore s !! n = Some nd -> nodeAccounted s nd.

(** Every live pod that refers to a node is listed by that node; the pods of
    [released] are exempt (they are being unbound). *)
Definition boundExcept (released : list nat) (s : OpenShiftSimulator) : Prop :=
  forall p pod n,
    livePod s p -> p ∉ released ->
    podStore s !! p = Some pod -> Pod.node pod = Some n ->
    exists nd, nodeStore s !! n = Some nd /\ p ∈ WorkerNode.pods nd.

Definition NodeInvExcept (released : list nat) (s : OpenShiftSimulator) : Prop :=
  Structured s /\ accountedNodes s /\ boundExcept released s.

Definition NodeInv (s : OpenShiftSimulator) : Prop := NodeInvExcept [] s.

(** The converse direction: a node of the pool lists only live pods that
    refer to it (and none of the [released] ones), lists no pod twice, and a
    Pending pod refers to no node. *)
Definition hostsOnlyBound (released : list nat) (s : OpenShiftSimulator) : Prop :=
  forall n nd p,
    n ∈ workerNodes s -> nodeStore s !! n = Some nd -> p ∈ WorkerNode.pods nd ->
    livePod s p /\ (p ∉ released) /\
    exists pod, podStore s !! p = Some pod /\ Pod.node pod = Some n.

Definition hostsOnce (s : OpenShiftSimulator) : Prop :=
  forall n nd,
    n ∈ workerNodes s -> nodeStore s !! n = Some nd -> NoDup (WorkerNode.pods nd).

Definition pendingUnbound (s : OpenShiftSimulator) : Prop :=
  forall p pod,
    podStore s !! p = Some pod -> Pod.status pod = Pending -> Pod.node pod = None.

Definition HostInvExcept (released : list nat) (s : OpenShiftSimulator) : Prop :=
  hostsOnlyBound released s /\ hostsOnce s /\ pendingUnbound s.

Definition HostInv (s : OpenShiftSimulator) : Prop := HostInvExcept [] s.

(** ** Invariants of the namespace accounting *)






(** ** What never changes in an object *)

(** A namespace keeps its name and quotas; a deployment keeps its name, its
    namespace and its per-replica requests (its replica count and its pods
    change with scaling). *)
Definition namespaceIdentity (ns : Namespace.t) : string * Q * Q :=
  (Namespace.name ns, Namespace.cpuQuota ns, Namespace.memoryQuota ns).

Definition deploymentIdentity (d : Deployment.t) : string * nat * Q * Q :=
  (Deployment.name d, Deployment.namespace d,
   Deployment.cpuRequestPerReplica d, Deployment.memoryRequestPerReplica d).

(** Every object of [s] is still there in [s'], with what never changes in
    it; [s'] may hold more objects, and a deployment that is new in [s']
    refers to a namespace that exists. *)
Record Frozen (s s' : OpenShiftSimulator) : Prop := {
  fr_nodes : map WorkerNode.identity (nodeStore s)
             `prefix_of` map WorkerNode.identity (nodeStore s');
  fr_namespaces : map namespaceIdentity (namespaceStore s)
                  `prefix_of` map namespaceIdentity (namespaceStore s');
  fr_deployments : map deploymentIdentity (deploymentStore s)
                   `prefix_of` map deploymentIdentity (deploymentStore s');
  fr_pods : map Pod.template (podStore s) `prefix_of` map Pod.template (podStore s');
  fr_refs : forall d dep,
    (length (deploymentStore s) <= d)%nat -> deploymentStore s' !! d = Some dep ->
    (Deployment.namespace dep < length (namespaceStore s'))%nat
}.

(** ** Quotas *)

(** A counter of a namespace is never negative and, unless the quota itself
    is negative, never above the quota. *)
Definition withinQuota (ns : Namespace.t) : Prop :=
  0 <= Namespace.cpuAllocated ns /\
  (0 <= Namespace.cpuQuota ns -> Namespace.cpuAllocated ns <= Namespace.cpuQuota ns) /\
  0 <= Namespace.memoryAllocated ns /\
  (0 <= Namespace.memoryQuota ns -> Namespace.memoryAllocated ns <= Namespace.memoryQuota ns).

(** No deployment has a negative replica count or request. *)
Definition nonnegDeployment (dep : Deployment.t) : Prop :=
  (0 <= Deployment.replicaCount dep)%Z /\
  0 <= Deployment.cpuRequestPerReplica dep /\
  0 <= Deployment.memoryRequestPerReplica dep.

Definition QuotaInv (s : OpenShiftSimulator) : Prop :=
  (forall d dep, deploymentStore s !! d = Some dep -> nonnegDeployment dep) /\
  (forall n ns, namespaceStore s !! n = Some ns -> withinQuota ns).

(** ** Naming of nodes *)

(** An operation that leaves the naming of the nodes to the simulator:
    [addWorkerNode] called without a name (or with an empty one). *)
Definition autoNamed (c : Command) : Prop :=
  match c with
  | AddWorkerNode name _ _ => nameGiven name = None
  | _ => True
  end.

(** The counter has counted every node ever created, node number [k] is
    named after [k], and the pool lists existing nodes, each once. *)
Definition NameInv (s : OpenShiftSimulator) : Prop :=
  nodeCounter s = length (nodeStore s) /\
  (forall i nd, nodeStore s !! i = Some nd ->
                WorkerNode.name nd = "worker-node-" +:+ pretty (S i)) /\
  NoDup (workerNodes s) /\
  poolValid s.

(** ** Reachable states *)

(** The states a new simulator gets into by operations whose numeric
    arguments respect the interface. *)
Definition reachable (s : OpenShiftSimulator) : Prop :=
  exists cmds, Forall validArgs cmds /\ s = run cmds constructor.

(** ** What a successful addDeployment builds *)

(** The deployment object and the namespace record of an accepted
    [addDeployment], and the state in which its pods are then placed. *)
Definition builtDeployment (name : string) (nsId : nat) (rc : Z) (cpu mem : Q)
    (s : OpenShiftSimulator) : Deployment.t :=
  Deployment.mk name nsId rc cpu mem (seq (length (podStore s)) (Z.to_nat rc)).

Definition chargedNamespace (d : nat) (rc : Z) (cpu mem : Q) (ns : Namespace.t)
    : Namespace.t :=
  Namespace.mk (Namespace.name ns) (Namespace.cpuQuota ns) (Namespace.memoryQuota ns)
               (Namespace.deployments ns ++ [d])
               (Namespace.cpuAllocated ns + inject_Z rc * cpu)
               (Namespace.memoryAllocated ns + inject_Z rc * mem).

Definition withNewDeployment (name : string) (nsId : nat) (ns : Namespace.t)
    (rc : Z) (cpu mem : Q) (s : OpenShiftSimulator) : OpenShiftSimulator :=
  let d := length (deploymentStore s) in
  let dep := builtDeployment name nsId rc cpu mem s in
  mkSim (nodeStore s)
        (<[nsId := chargedNamespace d rc cpu mem ns]> (namespaceStore s))
        (deploymentStore s ++ [dep])
        (podStore s ++ Deployment.freshPods dep)
        (workerNodes s) (namespaces s) (deployments s ++ [d])
        (simulatedWorkloadFactor s) (nodeCounter s).

(** ** Where the pods run *)

(** Every Running pod of a listed deployment is bound to a node of the pool. *)
Definition runningInPool (s : OpenShiftSimulator) : Prop :=
  forall d p pod,
    d ∈ deployments s -> p ∈ podsOf s d -> podStore s !! p = Some pod ->
    Pod.status pod = Running ->
    exists h, Pod.node pod = Some h /\ h ∈ workerNodes s.

(** ** The server copy of setTotalWorkerNodes *)

(** [this.workerNodes.splice(targetCount)]: what the call returns, the
    elements it removes. *)
Definition spliceRemoved {A} (start : Z) (l : list A) : list A :=
  let len := Z.of_nat (length l) in
  let from := if (start <? 0)%Z then Z.max (len + start) 0 else Z.min start len in
  drop (Z.to_nat from) l.

(** [node.pods.forEach(pod => { pod.node = null; pod.status = "Pending"; ... })] *)
Definition releasePodsOf (s : OpenShiftSimulator) (n : nat) : OpenShiftSimulator :=
  match nodeStore s !! n with
  | Some nd => foldl (fun s p => updPod p Pod.unbind s) s (WorkerNode.pods nd)
  | None => s
  end.

(** The server copy: it differs from [setTotalWorkerNodes] in the loop over
    the removed nodes. *)
Definition setTotalWorkerNodesServer (targetCount : Z) (s : OpenShiftSimulator)
    : bool * OpenShiftSimulator :=
  let currentCount := Z.of_nat (length (workerNodes s)) in
  if (targetCount <? currentCount)%Z then
    let nodesToRemove := spliceRemoved targetCount (workerNodes s) in
    let s1 := withWorkerNodes (spliceFrom targetCount (workerNodes s)) s in
    (true, reallocateAllPods (foldl releasePodsOf s1 nodesToRemove))
  else if (targetCount >? currentCount)%Z then
    (true, reallocateAllPods
             (addWorkerNodes (Z.to_nat (targetCount - currentCount)) None None None s))
  else (true, s).

(** The pods a node lists. *)
Definition hostedPods (s : OpenShiftSimulator) (n : nat) : list nat :=
  match nodeStore s !! n with
  | Some nd => WorkerNode.pods nd
  | None => []
  end.

(** ** The pods of a deployment *)

(** The pods of a listed deployment are all Running or all Pending. *)
Definition uniformStatus (s : OpenShiftSimulator) : Prop :=
  forall d dep,
    d ∈ deployments s -> deploymentStore s !! d = Some dep ->
    (forall p pod, p ∈ Deployment.pods dep -> podStore s !! p = Some pod ->
                   Pod.status pod = Running) \/
    (forall p pod, p ∈ Deployment.pods dep -> podStore s !! p = Some pod ->
                   Pod.status pod = Pending).

(** A deployment has as many pods as its replica count says. *)
Definition sizedDeployments (s : OpenShiftSimulator) : Prop :=
  forall d dep,
    deploymentStore s !! d = Some dep ->
    length (Deployment.pods dep) = Z.to_nat (Deployment.replicaCount dep).

(** The pods of a deployment request what the deployment says per replica. *)
Definition requestsMatch (s : OpenShiftSimulator) : Prop :=
  forall d dep p pod,
    deploymentStore s !! d = Some dep -> p ∈ Deployment.pods dep ->
    podStore s !! p = Some pod ->
    Pod.cpuRequest pod = Deployment.cpuRequestPerReplica dep /\
    Pod.memoryRequest pod = Deployment.memoryRequestPerReplica dep.

Definition PodInv (s : OpenShiftSimulator) : Prop :=
  runningInPool s /\ uniformStatus s /\ sizedDeployments s /\ requestsMatch s.

(** The pods of two deployments are different pods, and they exist. *)
Definition ownedPods (s : OpenShiftSimulator) : Prop :=
  (forall d dep p, deploymentStore s !! d = Some dep -> p ∈ Deployment.pods dep ->
                   (p < length (podStore s))%nat) /\
  (forall d1 d2 dep1 dep2 p,
     deploymentStore s !! d1 = Some dep1 -> deploymentStore s !! d2 = Some dep2 ->
     p ∈ Deployment.pods dep1 -> p ∈ Deployment.pods dep2 -> d1 = d2).

(** ** Views: toDict and getClusterSummary *)

(** The objects that [toDict] and [getClusterSummary] return, as records.
    A view follows references ([this.node.name], [this.namespace.name], the
    pods of a list); its result is [None] when a reference points to no
    object, where the source would fail. *)

Module PodDict.
Record t := mk {
  name : string;
  cpu_request : Q;
  memory_request : Q;
  status : PodStatus;
  node : string
}.

Definition toDict (s : OpenShiftSimulator) (pod : Pod.t) : option t :=
  match Pod.node pod with
  | Some n =>
      nd ← nodeStore s !! n;
      Some (mk (Pod.name pod) (Pod.cpuRequest pod) (Pod.memoryRequest pod)
               (Pod.status pod) (WorkerNode.name nd))
  | None =>
      Some (mk (Pod.name pod) (Pod.cpuRequest pod) (Pod.memoryRequest pod)
               (Pod.status pod) "N/A")
  end.

(** [pods.map(pod => pod.toDict())] on a list of pod references. *)
Definition ofList (s : OpenShiftSimulator) (l : list nat) : option (list t) :=
  mapM (fun p => pod ← podStore s !! p; toDict s pod) l.
End PodDict.

(** [getUtilizationPercentage(current, total)] of the server copy; the other
    copy has the same expression inline in [WorkerNode.toDict]. *)
Definition getUtilizationPercentage (current total : Q) : Q :=
  if Qltb 0 total then (current / total) * 100 else 0.

Module NodeDict.
Record t := mk {
  name : string;
  cpu_capacity : Q;
  memory_capacity : Q;
  allocatable_cpu : Q;
  allocatable_memory : Q;
  cpu_allocated : Q;
  memory_allocated : Q;
  cpu_utilization_percent : Q;
  memory_utilization_percent : Q;
  pods : list PodDict.t
}.

Definition toDict (s : OpenShiftSimulator) (nd : WorkerNode.t) : option t :=
  pods ← PodDict.ofList s (WorkerNode.pods nd);
  Some (mk (WorkerNode.name nd) (WorkerNode.cpuCapacity nd) (WorkerNode.memoryCapacity nd)
           (WorkerNode.allocatableCpu nd) (WorkerNode.allocatableMemory nd)
           (WorkerNode.cpuAllocated nd) (WorkerNode.memoryAllocated nd)
           (getUtilizationPercentage (WorkerNode.cpuAllocated nd)
                                     (WorkerNode.allocatableCpu nd))
           (getUtilizationPercentage (WorkerNode.memoryAllocated nd)
                                     (WorkerNode.allocatableMemory nd))
           pods).
End NodeDict.

Module NamespaceDict.
Record t := mk {
  name : string;
  cpu_quota : Q;
  memory_quota : Q;
  cpu_allocated : Q;
  memory_allocated : Q;
  deployment_count : nat
}.

Definition toDict (ns : Namespace.t) : t :=
  mk (Namespace.name ns) (Namespace.cpuQuota ns) (Namespace.memoryQuota ns)
     (Namespace.cpuAllocated ns) (Namespace.memoryAllocated ns)
     (length (Namespace.deployments ns)).
End NamespaceDict.

(** [pod.status === "Running"] for a pod reference. *)
Definition isRunning (s : OpenShiftSimulator) (p : nat) : bool :=
  match podStore s !! p with
  | Some pod => negb (Pod.isPending pod)
  | None => false
  end.

Module DeploymentDict.
Record t := mk {
  name : string;
  namespace : string;
  replica_count : Z;
  cpu_request_per_replica : Q;
  memory_request_per_replica : Q;
  total_cpu_request : Q;
  total_memory_request : Q;
  running_pods : nat;
  pods : list PodDict.t
}.

Definition toDict (s : OpenShiftSimulator) (dep : Deployment.t) : option t :=
  ns ← namespaceStore s !! Deployment.namespace dep;
  pods ← PodDict.ofList s (Deployment.pods dep);
  Some (mk (Deployment.name dep) (Namespace.name ns) (Deployment.replicaCount dep)
           (Deployment.cpuRequestPerReplica dep) (Deployment.memoryRequestPerReplica dep)
           (inject_Z (Deployment.replicaCount dep) * Deployment.cpuRequestPerReplica dep)
           (inject_Z (Deployment.replicaCount dep) * Deployment.memoryRequestPerReplica dep)
           (length (filter (fun p => isRunning s p = true) (Deployment.pods dep)))
           pods).
End DeploymentDict.

Module ClusterSummary.
Record t := mk {
  total_nodes : nat;
  total_cpu_capacity : Q;
  total_memory_capacity : Q;
  total_allocatable_cpu : Q;
  total_allocatable_memory : Q;
  total_reserved_cpu : Q;
  total_reserved_memory : Q;
  total_cpu_allocated : Q;
  total_memory_allocated : Q;
  total_cpu_available : Q;
  total_memory_available : Q;
  simulated_workload_factor : Q
}.
End ClusterSummary.

Definition getClusterSummary (s : OpenShiftSimulator) : ClusterSummary.t :=
  let totalCpuCapacity := sumNodes WorkerNode.cpuCapacity s in
  let totalMemoryCapacity := sumNodes WorkerNode.memoryCapacity s in
  let totalAllocatableCpu := sumNodes WorkerNode.allocatableCpu s in
  let totalAllocatableMemory := sumNodes WorkerNode.allocatableMemory s in
  let totalCpuAllocated := sumNodes WorkerNode.cpuAllocated s in
  let totalMemoryAllocated := sumNodes WorkerNode.memoryAllocated s in
  ClusterSummary.mk
    (length (workerNodes s))
    totalCpuCapacity totalMemoryCapacity
    totalAllocatableCpu totalAllocatableMemory
    (inject_Z (Z.of_nat (length (workerNodes s))) * RESERVED_CPU)
    (inject_Z (Z.of_nat (length (workerNodes s))) * RESERVED_MEMORY)
    totalCpuAllocated totalMemoryAllocated
    (totalAllocatableCpu - totalCpuAllocated)
    (totalAllocatableMemory - totalMemoryAllocated)
    (simulatedWorkloadFactor s).

(** Every deployment refers to a namespace that exists. *)
Definition namespaceRefsValid (s : OpenShiftSimulator) : Prop :=
  forall d dep, deploymentStore s !! d = Some dep ->
                (Deployment.namespace dep < length (namespaceStore s))%nat.





(** ** The generated workload *)




(** Every namespace of the table has a CPU quota of zero and a CPU counter
    that is not negative. *)
Definition zeroQuota (x : OpenShiftSimulator) : Prop :=
  forall name n ns,
    namespaces x !! name = Some n -> namespaceStore x !! n = Some ns ->
    Namespace.cpuQuota ns == 0 /\ 0 <= Namespace.cpuAllocated ns.


(** * Proofs *)

(** ** Numbers *)

Lemma Qltb_true (x y : Q) : Qltb x y = true <-> x < y.
Proof.
  unfold Qltb. rewrite negb_true_iff.
  destruct (Qle_bool y x) eqn:E.
  - apply Qle_bool_iff in E. split; [discriminate | intros; lra].
  - split; [intros _ | reflexivity].
    destruct (Qlt_le_dec x y) as [|Hle]; [assumption |].
    apply Qle_bool_iff in Hle. congruence.
Qed.

Lemma Qltb_false (x y : Q) : Qltb x y = false <-> y <= x.
Proof.
  pose proof (Qltb_true x y) as H.
  destruct (Qltb x y); split; intros; try reflexivity; try discriminate.
  - assert (x < y) by (apply H; reflexivity). lra.
  - destruct (Qlt_le_dec x y) as [Hlt|]; [| assumption].
    apply H in Hlt. discriminate.
Qed.

Lemma Qle_bool_false (x y : Q) : Qle_bool x y = false <-> y < x.
Proof.
  pose proof (Qle_bool_iff x y) as H.
  destruct (Qle_bool x y); split; intros; try reflexivity; try discriminate.
  - assert (x <= y) by (apply H; reflexivity). lra.
  - destruct (Qlt_le_dec y x) as [|Hle]; [assumption |].
    apply H in Hle. discriminate.
Qed.

Lemma clampNeg_id (x : Q) : 0 <= x -> clampNeg x = x.
Proof.
  intros H. unfold clampNeg.
  destruct (Qltb x 0) eqn:E; [| reflexivity].
  apply Qltb_true in E. lra.
Qed.

Lemma clampNeg_nonneg (x : Q) : 0 <= clampNeg x.
Proof.
  unfold clampNeg. destruct (Qltb x 0) eqn:E; [lra |].
  apply Qltb_false in E. assumption.
Qed.

(** ** Namespace quota *)

Lemma fits_iff (cpu mem : Q) (ns : Namespace.t) :
  Namespace.fits cpu mem ns = true <->
  Namespace.cpuAllocated ns + cpu <= Namespace.cpuQuota ns /\
  Namespace.memoryAllocated ns + mem <= Namespace.memoryQuota ns.
Proof.
  unfold Namespace.fits. rewrite andb_true_iff, !Qle_bool_iff. reflexivity.
Qed.

Lemma allocateResources_rejected (cpu mem : Q) (ns : Namespace.t) :
  Namespace.fits cpu mem ns = false ->
  Namespace.allocateResources cpu mem ns = (false, ns).
Proof. intros H. unfold Namespace.allocateResources. rewrite H. reflexivity. Qed.

Lemma addDeployment_rejected (s : OpenShiftSimulator) (name nsName : string)
    (rc : Z) (c m : Q) (nsId : nat) (ns : Namespace.t) :
  namespaces s !! nsName = Some nsId ->
  namespaceStore s !! nsId = Some ns ->
  Namespace.fits (inject_Z rc * c) (inject_Z rc * m) ns = false ->
  addDeployment name nsName rc c m s = (None, s).
Proof.
  intros Ht Hs Hfit. unfold addDeployment. rewrite Ht, Hs.
  rewrite (allocateResources_rejected _ _ _ Hfit). reflexivity.
Qed.

(** C3: [Namespace.allocateResources] succeeds exactly when both sums stay
    within quota; a success commits both counters, a failure changes nothing;
    and [addDeployment] into a namespace that rejects the aggregate request
    returns null and leaves the whole simulator, its counters included, as it
    was. *)
Theorem allocateResources_all_or_nothing (cpu mem : Q) (ns : Namespace.t) :
  let r := Namespace.allocateResources cpu mem ns in
  (fst r = true <->
   Namespace.cpuAllocated ns + cpu <= Namespace.cpuQuota ns /\
   Namespace.memoryAllocated ns + mem <= Namespace.memoryQuota ns) /\
  (fst r = true ->
   snd r = Namespace.mk (Namespace.name ns) (Namespace.cpuQuota ns)
             (Namespace.memoryQuota ns) (Namespace.deployments ns)
             (Namespace.cpuAllocated ns + cpu) (Namespace.memoryAllocated ns + mem)) /\
  (fst r = false -> snd r = ns) /\
  (forall (s : OpenShiftSimulator) (name nsName : string) (rc : Z) (c m : Q) (nsId : nat),
      namespaces s !! nsName = Some nsId ->
      namespaceStore s !! nsId = Some ns ->
      cpu = inject_Z rc * c -> mem = inject_Z rc * m ->
      fst r = false ->
      addDeployment name nsName rc c m s = (None, s)).
Proof.
  cbv zeta. pose proof (fits_iff cpu mem ns) as Hfit.
  unfold Namespace.allocateResources.
  destruct (Namespace.fits cpu mem ns) eqn:E; simpl.
  - repeat split; try tauto; try discriminate.
  - split; [split; [discriminate | intros H; apply Hfit in H; discriminate] |].
    split; [discriminate |]. split; [reflexivity |].
    intros s name nsName rc c m nsId Ht Hs -> -> _.
    eapply addDeployment_rejected; eauto.
Qed.

(** ** createNamespace *)

(** C8: [createNamespace] with a name that is already in the namespace table
    returns null and leaves the simulator exactly as it was (the table, the
    existing namespace with its quotas, counters and deployments); so does
    every second call with the same name. *)
Theorem createNamespace_existing_name (s : OpenShiftSimulator) (name : string)
    (cq mq : Q) :
  (is_Some (namespaces s !! name) -> createNamespace name cq mq s = (None, s)) /\
  (forall cq' mq' : Q,
      let s1 := snd (createNamespace name cq mq s) in
      createNamespace name cq' mq' s1 = (None, s1)).
Proof.
  split.
  - intros [id Hid]. unfold createNamespace. rewrite Hid. reflexivity.
  - intros cq' mq'. cbv zeta. unfold createNamespace at 2 3.
    destruct (namespaces s !! name) as [id|] eqn:E; simpl.
    + unfold createNamespace. rewrite E. reflexivity.
    + unfold createNamespace; simpl. rewrite lookup_insert_eq. reflexivity.
Qed.



(** ** The stable sort *)

Section StableSort.
Context {A : Type} (key : A -> Q) (cmp : A -> A -> Q).
Hypothesis cmp_key : forall a b, cmp a b == key a - key b.

Lemma cmp_le (a b : A) : Qle_bool (cmp a b) 0 = true <-> key a <= key b.
Proof. rewrite Qle_bool_iff, cmp_key. split; intros; lra. Qed.

Lemma cmp_gt (a b : A) : Qle_bool (cmp a b) 0 = false <-> key b < key a.
Proof. rewrite Qle_bool_false, cmp_key. split; intros; lra. Qed.

Lemma insertSorted_perm (a : A) (l : list A) : insertSorted cmp a l ≡ₚ a :: l.
Proof.
  induction l as [|b r IH]; simpl; [reflexivity |].
  destruct (Qle_bool (cmp a b) 0); [reflexivity |].
  rewrite IH. apply Permutation_swap.
Qed.

Lemma stableSort_perm (l : list A) : stableSort cmp l ≡ₚ l.
Proof.
  induction l as [|a r IH]; simpl; [reflexivity |].
  change (foldr (insertSorted cmp) [] r) with (stableSort cmp r).
  rewrite insertSorted_perm, IH. reflexivity.
Qed.

Lemma insertSorted_ascending (a : A) (l : list A) :
  ascending key l -> ascending key (insertSorted cmp a l).
Proof.
  unfold ascending. induction 1 as [|b r Hr IH Hb]; simpl.
  - repeat constructor.
  - destruct (Qle_bool (cmp a b) 0) eqn:E.
    + apply cmp_le in E. constructor; [constructor; assumption |].
      constructor; [assumption |].
      eapply Forall_impl; [exact Hb |]. simpl. intros x Hx. lra.
    + apply cmp_gt in E. constructor; [assumption |].
      rewrite insertSorted_perm. constructor; [lra | assumption].
Qed.

Lemma stableSort_ascending (l : list A) : ascending key (stableSort cmp l).
Proof.
  induction l as [|a r IH]; simpl; [constructor |].
  apply insertSorted_ascending. exact IH.
Qed.

(** Stability: the elements of any one key keep their order. *)
Lemma insertSorted_stable (k : Q) (a : A) (l : list A) :
  filter (hasKey key k) (insertSorted cmp a l) = filter (hasKey key k) (a :: l).
Proof.
  induction l as [|b r IH]; simpl; [reflexivity |].
  destruct (Qle_bool (cmp a b) 0) eqn:E; [reflexivity |].
  apply cmp_gt in E.
  rewrite (filter_cons _ b), IH, !(filter_cons _ a), !(filter_cons _ b).
  destruct (decide (hasKey key k a)) as [Ha|Ha];
    destruct (decide (hasKey key k b)) as [Hb|Hb]; try reflexivity.
  unfold hasKey in *. lra.
Qed.

Lemma stableSort_stable (k : Q) (l : list A) :
  filter (hasKey key k) (stableSort cmp l) = filter (hasKey key k) l.
Proof.
  induction l as [|a r IH]; simpl; [reflexivity |].
  change (foldr (insertSorted cmp) [] r) with (stableSort cmp r).
  rewrite insertSorted_stable, !(filter_cons _ a), IH. reflexivity.
Qed.

(** The first element of the sorted list is the leftmost element of least
    key. *)
Lemma stableSort_head (l : list A) :
  l <> [] -> exists i h, head (stableSort cmp l) = Some h /\ leftmostLeast key l i h.
Proof.
  induction l as [|a r IH]; [congruence |]. intros _.
  destruct r as [|b r'].
  { exists 0%nat, a. split; [reflexivity |]. split; [reflexivity |]. split.
    - intros x Hx. apply list_elem_of_singleton in Hx. subst. lra.
    - intros j x Hj. lia. }
  destruct IH as (i & h & Hhead & Hi & Hmin & Hfirst); [congruence |].
  change (stableSort cmp (a :: b :: r'))
    with (insertSorted cmp a (stableSort cmp (b :: r'))).
  destruct (stableSort cmp (b :: r')) as [|h' t] eqn:Es; [discriminate |].
  simpl in Hhead. injection Hhead as ->. simpl.
  destruct (Qle_bool (cmp a h) 0) eqn:E.
  - apply cmp_le in E. exists 0%nat, a. split; [reflexivity |].
    split; [reflexivity |]. split.
    + intros x Hx. apply elem_of_cons in Hx as [->|Hx]; [lra |].
      specialize (Hmin x Hx). lra.
    + intros j x Hj. lia.
  - apply cmp_gt in E. exists (S i), h. split; [reflexivity |].
    split; [exact Hi |]. split.
    + intros x Hx. apply elem_of_cons in Hx as [->|Hx]; [lra |].
      apply Hmin. exact Hx.
    + intros [|j] x Hj Hx.
      * simpl in Hx. injection Hx as <-. exact E.
      * simpl in Hx. apply (Hfirst j); [lia | exact Hx].
Qed.
End StableSort.

Lemma compareNodes_key (store : list WorkerNode.t) (a b : nat) :
  compareNodes store a b == cpuOf store a - cpuOf store b.
Proof. reflexivity. Qed.

(** ** Placement *)

Lemma placed_idem (h : nat) (pod : Pod.t) : placed h (placed h pod) = placed h pod.
Proof. unfold placed. destruct (Pod.isPending pod) eqn:E; [reflexivity | rewrite E; reflexivity]. Qed.

Lemma placed_running (h : nat) (pod : Pod.t) : Pod.status (placed h pod) = Running.
Proof.
  unfold placed, Pod.isPending. destruct (Pod.status pod) eqn:E; [reflexivity | exact E].
Qed.

(** With a valid first candidate, one step of the loop places the pod there. *)
Lemma placeIfPending_step (h : nat) (rest : list nat) (s : OpenShiftSimulator) (a : nat) :
  (h < length (nodeStore s))%nat ->
  let s1 := placeIfPending (h :: rest) s a in
  (forall p, podStore s1 !! p =
             if decide (p = a) then placed h <$> podStore s !! a else podStore s !! p) /\
  (forall n, n <> h -> nodeStore s1 !! n = nodeStore s !! n) /\
  length (nodeStore s1) = length (nodeStore s).
Proof.
  intros Hh. cbv zeta. unfold placeIfPending.
  destruct (podStore s !! a) as [pod|] eqn:Ea.
  2:{ split; [| auto]. intros p. destruct (decide (p = a)) as [->|]; [rewrite Ea |]; reflexivity. }
  destruct (Pod.isPending pod) eqn:Ep.
  2:{ split; [| auto]. intros p. destruct (decide (p = a)) as [->|]; [| reflexivity].
      rewrite Ea. simpl. unfold placed. rewrite Ep. reflexivity. }
  destruct (lookup_lt_is_Some_2 _ _ Hh) as [nd End].
  simpl. rewrite End. simpl. split; [| split].
  - intros p. rewrite list_lookup_alter.
    destruct (decide (p = a)) as [->|Hne];
      [rewrite decide_True by reflexivity | rewrite decide_False by congruence; reflexivity].
    rewrite Ea. simpl. unfold placed. rewrite Ep. reflexivity.
  - intros n Hn. rewrite !list_lookup_alter_ne by congruence. reflexivity.
  - rewrite !length_alter. reflexivity.
Qed.

Lemma placeIfPending_fold (h : nat) (rest l : list nat) (s : OpenShiftSimulator) :
  (h < length (nodeStore s))%nat ->
  let s' := foldl (placeIfPending (h :: rest)) s l in
  (forall p, podStore s' !! p =
             if decide (p ∈ l) then placed h <$> podStore s !! p else podStore s !! p) /\
  (forall n, n <> h -> nodeStore s' !! n = nodeStore s !! n) /\
  length (nodeStore s') = length (nodeStore s).
Proof.
  revert s. induction l as [|a l IH]; intros s Hh; cbv zeta.
  { simpl. split; [| auto]. intros p. destruct (decide (p ∈ [])) as [H|]; [| reflexivity].
    inversion H. }
  simpl. destruct (placeIfPending_step h rest s a Hh) as (Hp1 & Hn1 & Hl1).
  destruct (IH (placeIfPending (h :: rest) s a)) as (Hp & Hn & Hl); [lia |].
  split; [| split].
  - intros p. rewrite Hp, Hp1.
    destruct (decide (p ∈ l)) as [Hin|Hin]; destruct (decide (p = a)) as [->|Hne].
    + rewrite decide_True by (left). rewrite <- option_fmap_compose.
      apply option_fmap_ext. intros pod. apply placed_idem.
    + rewrite decide_True by (right; exact Hin). reflexivity.
    + rewrite decide_True by (left). reflexivity.
    + rewrite decide_False; [reflexivity |].
      intros H. apply elem_of_cons in H as [?|?]; congruence.
  - intros n Hn'. rewrite Hn, Hn1 by assumption. reflexivity.
  - lia.
Qed.

Lemma allocateDeploymentPods_empty_pool (d : nat) (s : OpenShiftSimulator) :
  workerNodes s = [] -> allocateDeploymentPods d s = s.
Proof.
  intros He. unfold allocateDeploymentPods. rewrite He. simpl.
  generalize (podsOf s d). intros l. induction l as [|a l IH]; simpl; [reflexivity |].
  replace (placeIfPending [] s a) with s; [exact IH |].
  unfold placeIfPending. destruct (podStore s !! a) as [pod|]; [| reflexivity].
  destruct (Pod.isPending pod); reflexivity.
Qed.

(** C9: with a non-empty (valid) pool, [allocateDeploymentPods] makes every
    pod of the deployment Running and binds all the pods it places to one
    node: the leftmost node of least [cpuAllocated] at the start of the call;
    no other node is touched and a pod that was Running already is not
    changed.  With an empty pool nothing changes, so Pending pods stay
    Pending.  ([poolValid] holds in every state the operations reach, see
    [run_poolValid].) *)
Theorem allocateDeploymentPods_one_node (d : nat) (s : OpenShiftSimulator) :
  poolValid s ->
  let s' := allocateDeploymentPods d s in
  (workerNodes s <> [] ->
   exists i h,
     leftmostLeast (cpuOf (nodeStore s)) (workerNodes s) i h /\
     (forall p pod,
         p ∈ podsOf s d -> podStore s !! p = Some pod ->
         exists pod',
           podStore s' !! p = Some pod' /\
           Pod.status pod' = Running /\
           (Pod.status pod = Pending -> Pod.node pod' = Some h) /\
           (Pod.status pod = Running -> pod' = pod)) /\
     (forall n, n <> h -> nodeStore s' !! n = nodeStore s !! n)) /\
  (workerNodes s = [] -> s' = s).
Proof.
  intros Hvalid. cbv zeta. split; [| apply allocateDeploymentPods_empty_pool].
  intros Hne.
  destruct (stableSort_head (cpuOf (nodeStore s)) (compareNodes (nodeStore s))
              (compareNodes_key (nodeStore s)) (workerNodes s) Hne)
    as (i & h & Hhead & Hleast).
  exists i, h. split; [exact Hleast |].
  unfold allocateDeploymentPods.
  destruct (stableSort (compareNodes (nodeStore s)) (workerNodes s)) as [|h' rest];
    [discriminate |].
  simpl in Hhead. injection Hhead as ->.
  assert (Hh : (h < length (nodeStore s))%nat).
  { apply Hvalid. destruct Hleast as (Hi & _). eapply list_elem_of_lookup_2. exact Hi. }
  destruct (placeIfPending_fold h rest (podsOf s d) s Hh) as (Hp & Hn & _).
  split; [| exact Hn].
  intros p pod Hin Hpod. exists (placed h pod). rewrite Hp.
  rewrite decide_True by exact Hin. rewrite Hpod. simpl.
  split; [reflexivity |]. split; [apply placed_running |].
  unfold placed, Pod.isPending. split; intros ->; reflexivity.
Qed.

Lemma allocateDeploymentPods_one_node_witness :
  poolValid scenarioRejected /\
  exists i h,
    leftmostLeast (cpuOf (nodeStore scenarioRejected)) (workerNodes scenarioRejected) i h /\
    forall n, n <> h ->
      nodeStore (allocateDeploymentPods 0 scenarioRejected) !! n
      = nodeStore scenarioRejected !! n.
Proof.
  assert (Hvalid : poolValid scenarioRejected).
  { intros n Hn. vm_compute in Hn. vm_compute.
    repeat (apply elem_of_cons in Hn as [->|Hn]; [lia |]). inversion Hn. }
  split; [exact Hvalid |].
  destruct (proj1 (allocateDeploymentPods_one_node 0 scenarioRejected Hvalid))
    as (i & h & Hleast & _ & Hnodes); [discriminate |].
  exists i, h. split; assumption.
Defined.

(** C4 (as the code has it): the candidates are the whole pool, sorted
    ascending by [cpuAllocated] by a stable sort, computed once per call; each
    Pending pod of the deployment is bound to the first candidate.  In the
    scenario, [addDeployment("d1","a",2,3,40)] succeeds, the namespace holds
    (6, 80), and both pods are Running on the same node, worker-node-1, the
    first of the pool; the two other nodes receive nothing. *)
Theorem placement_first_candidate :
  (forall s : OpenShiftSimulator,
      let candidates := stableSort (compareNodes (nodeStore s)) (workerNodes s) in
      candidates ≡ₚ workerNodes s /\
      ascending (cpuOf (nodeStore s)) candidates /\
      (forall k, filter (hasKey (cpuOf (nodeStore s)) k) candidates
                 = filter (hasKey (cpuOf (nodeStore s)) k) (workerNodes s))) /\
  (forall (s : OpenShiftSimulator) (d h : nat) (rest : list nat),
      poolValid s ->
      stableSort (compareNodes (nodeStore s)) (workerNodes s) = h :: rest ->
      forall p pod,
        p ∈ podsOf s d -> podStore s !! p = Some pod -> Pod.status pod = Pending ->
        podStore (allocateDeploymentPods d s) !! p = Some (Pod.bind h pod)) /\
  (let r := addDeployment "d1" "a" 2 3 40 scenarioNamespace in
   fst r = Some 0%nat /\
   namespaceStore (snd r) = [Namespace.mk "a" 10 100 [0%nat] 6 80] /\
   podStore (snd r) = [Pod.mk "d1-0" 3 40 Running (Some 0%nat);
                       Pod.mk "d1-1" 3 40 Running (Some 0%nat)] /\
   nodeStore (snd r) = [WorkerNode.mk "worker-node-1" 128 1500 6 80 [0%nat; 1%nat];
                        WorkerNode.mk "worker-node-2" 128 1500 0 0 [];
                        WorkerNode.mk "worker-node-3" 128 1500 0 0 []] /\
   workerNodes (snd r) = [0%nat; 1%nat; 2%nat]).
Proof.
  split; [| split].
  - intros s. cbv zeta. split; [| split].
    + apply stableSort_perm.
    + apply stableSort_ascending. apply compareNodes_key.
    + intros k. apply stableSort_stable. apply compareNodes_key.
  - intros s d h rest Hvalid Hsort p pod Hin Hpod Hpending.
    unfold allocateDeploymentPods. rewrite Hsort.
    assert (Hh : (h < length (nodeStore s))%nat).
    { apply Hvalid.
      rewrite <- (stableSort_perm (compareNodes (nodeStore s)) (workerNodes s)), Hsort.
      left. }
    destruct (placeIfPending_fold h rest (podsOf s d) s Hh) as (Hp & _).
    rewrite Hp, decide_True by exact Hin. rewrite Hpod. simpl.
    unfold placed, Pod.isPending. rewrite Hpending. reflexivity.
  - vm_compute. repeat split; reflexivity.
Qed.

(** C4 as stated fails: in the scenario the two pods are not on two distinct
    nodes. *)
Lemma placement_two_distinct_nodes_fails :
  ~ (exists n1 n2 : nat,
        Pod.node <$> podStore scenarioDeployed !! 0%nat = Some (Some n1) /\
        Pod.node <$> podStore scenarioDeployed !! 1%nat = Some (Some n2) /\
        n1 <> n2).
Proof.
  intros (n1 & n2 & H1 & H2 & Hne). vm_compute in H1, H2. congruence.
Qed.

(** ** Operations that only move allocations *)

Lemma foldl_preserves {S X} (P : S -> Prop) (f : S -> X -> S) (l : list X) (s : S) :
  (forall s x, P s -> P (f s x)) -> P s -> P (foldl f s l).
Proof.
  intros H. revert s. induction l as [|x l IH]; intros s Hs; [exact Hs |].
  cbn [foldl]. apply IH, H, Hs.
Qed.

Lemma map_alter_same {A B} (g : A -> B) (f : A -> A) (i : nat) (l : list A) :
  (forall x, g (f x) = g x) -> map g (alter f i l) = map g l.
Proof.
  intros H. revert i. induction l as [|a l IH]; intros [|i]; simpl; try reflexivity.
  - rewrite H. reflexivity.
  - f_equal. apply IH.
Qed.

Lemma placementOnly_refl (s : OpenShiftSimulator) : placementOnly s s.
Proof. destruct s. repeat split. Qed.

Lemma placementOnly_trans (s1 s2 s3 : OpenShiftSimulator) :
  placementOnly s1 s2 -> placementOnly s2 s3 -> placementOnly s1 s3.
Proof.
  intros (E1 & N1 & P1) (E2 & N2 & P2). split; [| split; congruence].
  rewrite E2 at 1. rewrite E1 at 1. reflexivity.
Qed.

Lemma placementOnly_updNode (n : nat) (f : WorkerNode.t -> WorkerNode.t)
    (s : OpenShiftSimulator) :
  (forall nd, WorkerNode.identity (f nd) = WorkerNode.identity nd) ->
  placementOnly s (updNode n f s).
Proof.
  intros H. destruct s. repeat split. simpl. apply map_alter_same. exact H.
Qed.

Lemma placementOnly_updPod (p : nat) (f : Pod.t -> Pod.t) (s : OpenShiftSimulator) :
  (forall pod, Pod.template (f pod) = Pod.template pod) ->
  placementOnly s (updPod p f s).
Proof.
  intros H. destruct s. repeat split. simpl. apply map_alter_same. exact H.
Qed.

Lemma placementOnly_foldl {X} (f : OpenShiftSimulator -> X -> OpenShiftSimulator)
    (l : list X) (s : OpenShiftSimulator) :
  (forall s x, placementOnly s (f s x)) -> placementOnly s (foldl f s l).
Proof.
  intros H. revert s. induction l as [|x l IH]; intros s; simpl.
  - apply placementOnly_refl.
  - eapply placementOnly_trans; [apply H | apply IH].
Qed.

Lemma placementOnly_fields (s s' : OpenShiftSimulator) :
  placementOnly s s' ->
  namespaceStore s' = namespaceStore s /\
  deploymentStore s' = deploymentStore s /\
  workerNodes s' = workerNodes s /\
  namespaces s' = namespaces s /\
  deployments s' = deployments s /\
  simulatedWorkloadFactor s' = simulatedWorkloadFactor s /\
  nodeCounter s' = nodeCounter s /\
  length (nodeStore s') = length (nodeStore s) /\
  length (podStore s') = length (podStore s).
Proof.
  intros (E & N & P). rewrite E. simpl. repeat split.
  - rewrite <- (length_map WorkerNode.identity), N. apply length_map.
  - rewrite <- (length_map Pod.template), P. apply length_map.
Qed.


Lemma placementOnly_pod (s s' : OpenShiftSimulator) (p : nat) :
  placementOnly s s' ->
  Pod.template <$> podStore s' !! p = Pod.template <$> podStore s !! p.
Proof. intros (_ & _ & P). rewrite <- !list_lookup_fmap. f_equal. exact P. Qed.

Lemma map_alter_same_at {A B} (g : A -> B) (f : A -> A) (i : nat) (l : list A) (x : A) :
  l !! i = Some x -> g (f x) = g x -> map g (alter f i l) = map g l.
Proof.
  revert i. induction l as [|a l IH]; intros [|i] Hx H; simpl in *; try reflexivity.
  - injection Hx as ->. rewrite H. reflexivity.
  - f_equal. apply IH; assumption.
Qed.

Lemma placePod_placementOnly (cands : list nat) (p : nat) (pod : Pod.t)
    (s : OpenShiftSimulator) :
  placementOnly s (placePod cands p pod s).
Proof.
  destruct cands as [|n rest]; simpl; [apply placementOnly_refl |].
  destruct (nodeStore s !! n) as [nd|] eqn:E; [| apply placementOnly_refl].
  unfold placementOnly. simpl. split; [destruct s; reflexivity |]. split.
  - rewrite map_alter_same by reflexivity.
    apply (map_alter_same_at _ _ _ _ nd); [exact E | reflexivity].
  - apply map_alter_same. reflexivity.
Qed.

Lemma placeIfPending_placementOnly (cands : list nat) (s : OpenShiftSimulator) (p : nat) :
  placementOnly s (placeIfPending cands s p).
Proof.
  unfold placeIfPending. destruct (podStore s !! p) as [pod|]; [| apply placementOnly_refl].
  destruct (Pod.isPending pod); [apply placePod_placementOnly | apply placementOnly_refl].
Qed.

Lemma allocateDeploymentPods_placementOnly (d : nat) (s : OpenShiftSimulator) :
  placementOnly s (allocateDeploymentPods d s).
Proof.
  unfold allocateDeploymentPods. apply placementOnly_foldl.
  intros. apply placeIfPending_placementOnly.
Qed.

Lemma unbindPod_placementOnly (s : OpenShiftSimulator) (p : nat) :
  placementOnly s (unbindPod s p).
Proof.
  unfold unbindPod. destruct (podStore s !! p) as [pod|]; [| apply placementOnly_refl].
  destruct (Pod.node pod) as [n|]; [| apply placementOnly_refl].
  eapply placementOnly_trans; apply placementOnly_updNode; reflexivity.
Qed.

Lemma reallocateAllPods_placementOnly (s : OpenShiftSimulator) :
  placementOnly s (reallocateAllPods s).
Proof.
  unfold reallocateAllPods.
  set (s1 := foldl (fun s n => updNode n WorkerNode.clear s) s (workerNodes s)).
  set (s2 := foldl _ s1 (deployments s1)).
  assert (H1 : placementOnly s s1).
  { apply placementOnly_foldl. intros. apply placementOnly_updNode. reflexivity. }
  assert (H2 : placementOnly s1 s2).
  { apply placementOnly_foldl. intros. apply placementOnly_foldl.
    intros. apply placementOnly_updPod. reflexivity. }
  eapply placementOnly_trans; [exact H1 |].
  eapply placementOnly_trans; [exact H2 |].
  apply placementOnly_foldl. intros. apply allocateDeploymentPods_placementOnly.
Qed.

Lemma clearNodes_lookup (l : list nat) (s : OpenShiftSimulator) (n : nat) :
  nodeStore (foldl (fun s n => updNode n WorkerNode.clear s) s l) !! n
  = if decide (n ∈ l) then WorkerNode.clear <$> nodeStore s !! n else nodeStore s !! n.
Proof.
  revert s. induction l as [|a l IH]; intros s; cbn [foldl].
  { rewrite decide_False; [reflexivity | apply not_elem_of_nil]. }
  rewrite IH. unfold updNode at 1 2. cbn [nodeStore withNodeStore].
  rewrite list_lookup_alter.
  destruct (decide (a = n)) as [->|Hne].
  - rewrite (decide_True (P := n ∈ n :: l)) by left.
    destruct (decide (n ∈ l)); [| reflexivity].
    destruct (nodeStore s !! n); reflexivity.
  - destruct (decide (n ∈ l)) as [Hin|Hin].
    + rewrite decide_True by (right; exact Hin). reflexivity.
    + rewrite decide_False; [reflexivity |].
      intros H. apply elem_of_cons in H as [?|?]; congruence.
Qed.

Lemma clearNodes_placementOnly (l : list nat) (s : OpenShiftSimulator) :
  placementOnly s (foldl (fun s n => updNode n WorkerNode.clear s) s l).
Proof. apply placementOnly_foldl. intros. apply placementOnly_updNode. reflexivity. Qed.

Lemma unbindPod_updNamespace (n : nat) (f : Namespace.t -> Namespace.t)
    (s : OpenShiftSimulator) (p : nat) :
  unbindPod (updNamespace n f s) p = updNamespace n f (unbindPod s p).
Proof.
  unfold unbindPod. cbn [podStore updNamespace withNamespaceStore].
  destruct (podStore s !! p) as [pod|]; [| reflexivity].
  destruct (Pod.node pod); reflexivity.
Qed.

Lemma foldl_unbindPod_updNamespace (n : nat) (f : Namespace.t -> Namespace.t)
    (l : list nat) (s : OpenShiftSimulator) :
  foldl unbindPod (updNamespace n f s) l = updNamespace n f (foldl unbindPod s l).
Proof.
  revert s. induction l as [|p l IH]; intros s; cbn [foldl]; [reflexivity |].
  rewrite unbindPod_updNamespace. apply IH.
Qed.

Lemma foldl_unbindPod_placementOnly (l : list nat) (s : OpenShiftSimulator) :
  placementOnly s (foldl unbindPod s l).
Proof. apply placementOnly_foldl. apply unbindPod_placementOnly. Qed.

(** The state of [scaleDeployment] just before its quota test. *)
Lemma scale_before_test (s : OpenShiftSimulator) (d : nat) (dep : Deployment.t)
    (n : Z) (f : Namespace.t -> Namespace.t) :
  deploymentStore s !! d = Some dep ->
  let u := foldl unbindPod s (Deployment.pods dep) in
  regeneratePods d n (foldl unbindPod (updNamespace (Deployment.namespace dep) f s)
                            (Deployment.pods dep))
  = withPodStore (podStore u ++ Deployment.freshPods (Deployment.setReplicaCount n dep))
      (updDeployment d
         (fun _ => fst (Deployment.createPods (Deployment.setReplicaCount n dep) (podStore u)))
         (updNamespace (Deployment.namespace dep) f u)).
Proof.
  intros Hd. cbv zeta. rewrite foldl_unbindPod_updNamespace.
  pose proof (foldl_unbindPod_placementOnly (Deployment.pods dep) s) as Hframe.
  apply placementOnly_fields in Hframe as (_ & Hds & _).
  unfold regeneratePods. cbn [deploymentStore updNamespace withNamespaceStore].
  rewrite Hds, Hd. reflexivity.
Qed.

(** ** The node pool *)

Lemma addWorkerNodes_spec (k : nat) (cpu memory : option Q) (s : OpenShiftSimulator) :
  addWorkerNodes k None cpu memory s =
  withWorkerNodes (workerNodes s ++ seq (length (nodeStore s)) k)
    (withNodeStore
       (nodeStore s ++
        map (fun i : nat =>
               WorkerNode.new ("worker-node-" +:+ pretty (nodeCounter s + S i)%nat)
                              (default 128 cpu) (default 1500 memory))
            (seq 0 k))
       (withNodeCounter (nodeCounter s + k)%nat s)).
Proof.
  revert s. induction k as [|k IH]; intros s.
  - destruct s. unfold withWorkerNodes, withNodeStore, withNodeCounter. simpl.
    rewrite !app_nil_r, Nat.add_0_r. reflexivity.
  - cbn [addWorkerNodes]. rewrite IH. destruct s.
    unfold addWorkerNode, withWorkerNodes, withNodeStore, withNodeCounter. simpl.
    rewrite length_app. simpl. rewrite <- !app_assoc. simpl.
    rewrite <- seq_shift, map_map.
    replace (length nodeStore0 + 1)%nat with (S (length nodeStore0)) by lia.
    replace (nodeCounter0 + 1)%nat with (S nodeCounter0) by lia.
    f_equal; try reflexivity; try lia.
    do 2 f_equal. apply map_ext. intros i.
    replace (S (nodeCounter0 + S i)) with (nodeCounter0 + S (S i))%nat by lia.
    reflexivity.
Qed.


Lemma keepsPool_refl (s : OpenShiftSimulator) : keepsPool s s.
Proof. repeat split. Qed.

Lemma keepsPool_trans (s1 s2 s3 : OpenShiftSimulator) :
  keepsPool s1 s2 -> keepsPool s2 s3 -> keepsPool s1 s3.
Proof. intros (A & B & C) (A' & B' & C'). repeat split; congruence. Qed.

Lemma placementOnly_keepsPool (s s' : OpenShiftSimulator) :
  placementOnly s s' -> keepsPool s s'.
Proof. intros H. apply placementOnly_fields in H. unfold keepsPool. tauto. Qed.

Lemma createNamespace_keepsPool (name : string) (cq mq : Q) (s : OpenShiftSimulator) :
  keepsPool s (snd (createNamespace name cq mq s)).
Proof. unfold createNamespace. destruct (namespaces s !! name); repeat split. Qed.

Lemma addDeployment_keepsPool (name nsName : string) (rc : Z) (cpu mem : Q)
    (s : OpenShiftSimulator) :
  keepsPool s (snd (addDeployment name nsName rc cpu mem s)).
Proof.
  unfold addDeployment.
  destruct (namespaces s !! nsName) as [nsId|]; [| apply keepsPool_refl].
  destruct (namespaceStore s !! nsId) as [ns|]; [| apply keepsPool_refl].
  destruct (Namespace.allocateResources _ _ ns) as [ok ns'].
  destruct ok; cbn [negb]; [| apply keepsPool_refl].
  unfold newDeployment, Deployment.createPods. cbn [snd].
  eapply keepsPool_trans;
    [| apply placementOnly_keepsPool, allocateDeploymentPods_placementOnly].
  repeat split.
Qed.

Lemma scaleDeployment_keepsPool (name : string) (n : Z) (s : OpenShiftSimulator) :
  keepsPool s (snd (scaleDeployment name n s)).
Proof.
  unfold scaleDeployment.
  destruct (findDeployment name s) as [[i d]|]; [| apply keepsPool_refl].
  destruct (deploymentStore s !! d) as [dep|] eqn:Hd; [| apply keepsPool_refl].
  rewrite (scale_before_test s d dep n _ Hd).
  pose proof (placementOnly_keepsPool _ _
                (foldl_unbindPod_placementOnly (Deployment.pods dep) s)) as Hu.
  match goal with |- context [namespaceStore ?x !! _] => set (s3 := x) end.
  assert (H3 : keepsPool s s3) by exact Hu.
  destruct (namespaceStore s3 !! _) as [ns|]; [| exact H3].
  destruct (Namespace.allocateResources _ _ ns) as [ok ns'].
  destruct ok; cbn [negb].
  - cbn [snd]. eapply keepsPool_trans;
      [| apply placementOnly_keepsPool, allocateDeploymentPods_placementOnly].
    exact H3.
  - destruct (Namespace.allocateResources _ _ ns'). exact H3.
Qed.

Lemma deleteDeployment_keepsPool (name : string) (s : OpenShiftSimulator) :
  keepsPool s (snd (deleteDeployment name s)).
Proof.
  unfold deleteDeployment.
  destruct (findDeployment name s) as [[i d]|]; [| apply keepsPool_refl].
  destruct (deploymentStore s !! d) as [dep|]; [| apply keepsPool_refl].
  rewrite !foldl_unbindPod_updNamespace.
  exact (placementOnly_keepsPool _ _
           (foldl_unbindPod_placementOnly (Deployment.pods dep) s)).
Qed.

Lemma populate_keepsPool (factor : Q) (random : nat -> Q) (s : OpenShiftSimulator) :
  keepsPool s (populate factor random s).
Proof.
  unfold populate.
  apply (foldl_preserves (keepsPool s)); [| apply keepsPool_refl].
  intros s0 i H0. apply (foldl_preserves (keepsPool s)).
  - intros s1 j H1. eapply keepsPool_trans; [exact H1 | apply addDeployment_keepsPool].
  - eapply keepsPool_trans; [exact H0 | apply createNamespace_keepsPool].
Qed.

Lemma setSimulatedWorkloadFactor_keepsPool (factor : Q) (random : nat -> Q)
    (s : OpenShiftSimulator) :
  keepsPool s (snd (setSimulatedWorkloadFactor factor random s)).
Proof.
  unfold setSimulatedWorkloadFactor.
  destruct (Qltb factor 0 || Qltb 1 factor); [apply keepsPool_refl |].
  assert (Hw : keepsPool s (wipe factor s)).
  { unfold wipe.
    exact (placementOnly_keepsPool _ _
             (clearNodes_placementOnly (workerNodes (withFactor factor s))
                                       (withFactor factor s))). }
  destruct (Qltb 0 factor); cbn [snd]; [| exact Hw].
  eapply keepsPool_trans; [exact Hw | apply populate_keepsPool].
Qed.


(** The references of the pool always point into the node store. *)
Lemma poolValid_keepsPool (s s' : OpenShiftSimulator) :
  keepsPool s s' -> poolValid s -> poolValid s'.
Proof. intros (Hw & Hl & _) H n. rewrite Hw, Hl. apply H. Qed.

Lemma addWorkerNode_poolValid (name : option string) (cpu memory : option Q)
    (s : OpenShiftSimulator) :
  poolValid s -> poolValid (snd (addWorkerNode name cpu memory s)).
Proof.
  intros H n Hn. unfold addWorkerNode in *.
  cbn [snd nodeStore workerNodes withWorkerNodes withNodeStore withNodeCounter] in *.
  rewrite length_app. cbn. apply elem_of_app in Hn as [Hn|Hn].
  - specialize (H n Hn). lia.
  - apply list_elem_of_singleton in Hn as ->. lia.
Qed.

Lemma addWorkerNodes_poolValid (k : nat) (name : option string) (cpu memory : option Q)
    (s : OpenShiftSimulator) :
  poolValid s -> poolValid (addWorkerNodes k name cpu memory s).
Proof.
  revert s. induction k as [|k IH]; intros s H; [exact H |].
  cbn [addWorkerNodes]. apply IH, addWorkerNode_poolValid, H.
Qed.

Lemma exec_poolValid (c : Command) (s : OpenShiftSimulator) :
  poolValid s -> poolValid (exec c s).
Proof.
  intros H. destruct c; cbn [exec].
  - apply addWorkerNode_poolValid, H.
  - unfold setTotalWorkerNodes.
    destruct (targetCount <? _)%Z; [| destruct (targetCount >? _)%Z]; cbn [snd].
    + eapply poolValid_keepsPool;
        [apply placementOnly_keepsPool, reallocateAllPods_placementOnly |].
      intros n Hn. cbn [workerNodes nodeStore withWorkerNodes] in *.
      apply H. unfold spliceFrom in Hn.
      apply elem_of_take in Hn as (i & Hi & _). eapply list_elem_of_lookup_2. exact Hi.
    + eapply poolValid_keepsPool;
        [apply placementOnly_keepsPool, reallocateAllPods_placementOnly |].
      apply addWorkerNodes_poolValid, H.
    + exact H.
  - exact (poolValid_keepsPool _ _ (createNamespace_keepsPool _ _ _ s) H).
  - exact (poolValid_keepsPool _ _ (addDeployment_keepsPool _ _ _ _ _ s) H).
  - exact (poolValid_keepsPool _ _ (scaleDeployment_keepsPool _ _ s) H).
  - exact (poolValid_keepsPool _ _ (deleteDeployment_keepsPool _ s) H).
  - exact (poolValid_keepsPool _ _ (setSimulatedWorkloadFactor_keepsPool _ _ s) H).
Qed.

Lemma run_poolValid (cmds : list Command) : poolValid (run cmds constructor).
Proof.
  assert (H : forall s, poolValid s -> poolValid (run cmds s)).
  { induction cmds as [|c cmds IH]; intros s Hs; [exact Hs |].
    cbn [run foldl]. apply (IH (exec c s)), exec_poolValid, Hs. }
  apply H. apply addWorkerNodes_poolValid. intros n Hn. inversion Hn.
Qed.



(** ** The workload factor *)

Lemma wipe_spec (factor : Q) (s : OpenShiftSimulator) :
  let w := wipe factor s in
  namespaces w = ∅ /\
  deployments w = [] /\
  workerNodes w = workerNodes s /\
  simulatedWorkloadFactor w = factor /\
  length (nodeStore w) = length (nodeStore s) /\
  (forall n nd,
      n ∈ workerNodes s -> nodeStore w !! n = Some nd ->
      WorkerNode.cpuAllocated nd = 0 /\ WorkerNode.memoryAllocated nd = 0 /\
      WorkerNode.pods nd = []).
Proof.
  cbv zeta. unfold wipe.
  set (s1 := withFactor factor s).
  pose proof (clearNodes_placementOnly (workerNodes s1) s1) as Hframe.
  apply placementOnly_fields in Hframe as (_ & _ & Hw & _ & _ & Hf & _ & Hl & _).
  cbn [namespaces deployments workerNodes simulatedWorkloadFactor nodeStore
       withDeployments withNamespaces].
  split; [reflexivity |]. split; [reflexivity |]. split; [exact Hw |].
  split; [exact Hf |]. split; [exact Hl |].
  intros n nd Hin Hlk. rewrite clearNodes_lookup in Hlk.
  rewrite decide_True in Hlk by exact Hin.
  destruct (nodeStore s1 !! n); simpl in Hlk; [| discriminate].
  injection Hlk as <-. auto.
Qed.

Lemma createNamespace_createdSince (N D : nat) (name : string) (cq mq : Q)
    (s : OpenShiftSimulator) :
  createdSince N D s -> createdSince N D (snd (createNamespace name cq mq s)).
Proof.
  intros (Ht & Hd & Hn & Hl). unfold createNamespace.
  destruct (namespaces s !! name) eqn:E; [repeat split; assumption |].
  cbn [snd]. split; [| split; [| split]];
    cbn [namespaces deployments namespaceStore deploymentStore withNamespaces
         withNamespaceStore]; try assumption.
  - intros nm n Hnm. destruct (decide (nm = name)) as [->|Hne].
    + rewrite lookup_insert_eq in Hnm. injection Hnm as <-. exact Hn.
    + rewrite lookup_insert_ne in Hnm by congruence. exact (Ht nm n Hnm).
  - rewrite length_app. lia.
Qed.

Lemma addDeployment_createdSince (N D : nat) (name nsName : string) (rc : Z) (cpu mem : Q)
    (s : OpenShiftSimulator) :
  createdSince N D s -> createdSince N D (snd (addDeployment name nsName rc cpu mem s)).
Proof.
  intros (Ht & Hd & Hn & Hl). unfold addDeployment.
  destruct (namespaces s !! nsName) as [nsId|]; [| repeat split; assumption].
  destruct (namespaceStore s !! nsId) as [ns|]; [| repeat split; assumption].
  destruct (Namespace.allocateResources _ _ ns) as [ok ns'].
  destruct ok; cbn [negb]; [| repeat split; assumption].
  unfold newDeployment, Deployment.createPods.
  cbn [snd podStore deploymentStore deployments updNamespace withNamespaceStore
       withPodStore withDeploymentStore].
  match goal with |- createdSince _ _ (allocateDeploymentPods ?d ?x) =>
    pose proof (allocateDeploymentPods_placementOnly d x) as Hf
  end.
  apply placementOnly_fields in Hf as (Hf1 & Hf2 & _ & Hf3 & Hf4 & _).
  unfold createdSince. rewrite Hf1, Hf2, Hf3, Hf4.
  cbn [namespaces deployments namespaceStore deploymentStore updNamespace
       withNamespaceStore withDeployments withPodStore withDeploymentStore].
  split; [exact Ht |]. split; [| split].
  - intros d Hin. apply elem_of_app in Hin as [Hin|Hin]; [exact (Hd d Hin) |].
    apply list_elem_of_singleton in Hin as ->. exact Hl.
  - rewrite !length_alter. exact Hn.
  - rewrite length_app. lia.
Qed.

Lemma populate_createdSince (N D : nat) (factor : Q) (random : nat -> Q)
    (s : OpenShiftSimulator) :
  createdSince N D s -> createdSince N D (populate factor random s).
Proof.
  intros H. unfold populate.
  apply (foldl_preserves (createdSince N D)); [| exact H].
  intros s0 i H0. apply (foldl_preserves (createdSince N D)).
  - intros s1 j H1. apply addDeployment_createdSince. exact H1.
  - apply createNamespace_createdSince. exact H0.
Qed.

Lemma wipe_createdSince (factor : Q) (s : OpenShiftSimulator) :
  createdSince (length (namespaceStore s)) (length (deploymentStore s)) (wipe factor s).
Proof.
  unfold wipe. set (s1 := withFactor factor s).
  pose proof (clearNodes_placementOnly (workerNodes s1) s1) as Hf.
  apply placementOnly_fields in Hf as (Hf1 & Hf2 & _).
  unfold createdSince.
  cbn [namespaces deployments namespaceStore deploymentStore withDeployments withNamespaces].
  rewrite Hf1, Hf2. split; [| split; [| split]]; try reflexivity.
  - intros nm n H. rewrite lookup_empty in H. discriminate.
  - intros d H. inversion H.
Qed.

Lemma populate_workerNodes (factor : Q) (random : nat -> Q) (s : OpenShiftSimulator) :
  workerNodes (populate factor random s) = workerNodes s.
Proof.
  unfold populate.
  apply (foldl_preserves (fun s' => workerNodes s' = workerNodes s)); [| reflexivity].
  intros s0 i H0.
  apply (foldl_preserves (fun s' => workerNodes s' = workerNodes s)).
  - intros s1 j H1. rewrite <- H1. unfold addDeployment.
    destruct (namespaces s1 !! _) as [nsId|]; [| reflexivity].
    destruct (namespaceStore s1 !! nsId) as [ns|]; [| reflexivity].
    destruct (Namespace.allocateResources _ _ ns) as [ok ns'].
    destruct ok; cbn [negb]; [| reflexivity].
    unfold newDeployment, Deployment.createPods. cbn [snd].
    match goal with |- workerNodes (allocateDeploymentPods ?d ?x) = _ =>
      pose proof (allocateDeploymentPods_placementOnly d x) as Hf
    end.
    apply placementOnly_fields in Hf as (_ & _ & Hw & _). rewrite Hw. reflexivity.
  - rewrite <- H0. unfold createNamespace.
    destruct (namespaces s0 !! _); reflexivity.
Qed.

(** C6: [setSimulatedWorkloadFactor] returns false exactly when the factor
    is below 0 or above 1, and then changes nothing.  Otherwise it returns
    true after clearing every node of the pool and replacing the namespace
    table and the deployment list by empty ones ([wipe]); the generated load,
    if any, is built on that state, so that no namespace and no deployment
    from before the call is left in the table or the list, and the pool is
    the same.  With factor 0 the result is the wiped state: no namespace, no
    deployment, every pool node at (0, 0) with no pod, and the same pool. *)
Theorem setSimulatedWorkloadFactor_range_and_reset (factor : Q) (random : nat -> Q)
    (s : OpenShiftSimulator) :
  let r := setSimulatedWorkloadFactor factor random s in
  let w := wipe factor s in
  (fst r = false <-> factor < 0 \/ 1 < factor) /\
  (fst r = false -> snd r = s) /\
  (fst r = true ->
   snd r = (if Qltb 0 factor then populate factor random w else w) /\
   workerNodes (snd r) = workerNodes s /\
   (forall name n, namespaces (snd r) !! name = Some n ->
                   (length (namespaceStore s) <= n)%nat) /\
   (forall d, d ∈ deployments (snd r) -> (length (deploymentStore s) <= d)%nat)) /\
  (namespaces w = ∅ /\ deployments w = [] /\ workerNodes w = workerNodes s /\
   forall n nd,
     n ∈ workerNodes s -> nodeStore w !! n = Some nd ->
     WorkerNode.cpuAllocated nd = 0 /\ WorkerNode.memoryAllocated nd = 0 /\
     WorkerNode.pods nd = []) /\
  (factor == 0 ->
   fst r = true /\
   namespaces (snd r) = ∅ /\ deployments (snd r) = [] /\
   workerNodes (snd r) = workerNodes s /\
   length (workerNodes (snd r)) = length (workerNodes s) /\
   forall n nd,
     n ∈ workerNodes s -> nodeStore (snd r) !! n = Some nd ->
     WorkerNode.cpuAllocated nd = 0 /\ WorkerNode.memoryAllocated nd = 0 /\
     WorkerNode.pods nd = []).
Proof.
  cbv zeta. destruct (wipe_spec factor s) as (Hn & Hd & Hw & _ & _ & Hc).
  unfold setSimulatedWorkloadFactor.
  destruct (Qltb factor 0 || Qltb 1 factor) eqn:E.
  - apply orb_true_iff in E. rewrite !Qltb_true in E. simpl.
    split; [tauto |]. split; [reflexivity |]. split; [discriminate |].
    split; [auto |]. intros H0. lra.
  - apply orb_false_iff in E. rewrite !Qltb_false in E.
    assert (Hr : fst (if Qltb 0 factor
                      then (true, populate factor random (wipe factor s))
                      else (true, wipe factor s)) = true)
      by (destruct (Qltb 0 factor); reflexivity).
    split; [| split; [| split; [| split]]].
    + rewrite Hr. split; [discriminate | intros; lra].
    + rewrite Hr. discriminate.
    + intros _. pose proof (wipe_createdSince factor s) as Hfresh.
      destruct (Qltb 0 factor); cbn [snd].
      * apply (populate_createdSince _ _ factor random) in Hfresh.
        destruct Hfresh as (Ht & Hl & _).
        split; [reflexivity |]. split; [| split; assumption].
        rewrite populate_workerNodes. exact Hw.
      * destruct Hfresh as (Ht & Hl & _). auto.
    + auto.
    + intros H0. destruct (Qltb 0 factor) eqn:E0; [apply Qltb_true in E0; lra |].
      cbn [fst snd]. split; [reflexivity |]. split; [exact Hn |]. split; [exact Hd |].
      split; [exact Hw |]. split; [rewrite Hw; reflexivity | exact Hc].
Qed.

(** ** scaleDeployment *)




(** ** Sums and removal *)

Lemma sumOver_app (f : nat -> Q) (l1 l2 : list nat) :
  sumOver f (l1 ++ l2) == sumOver f l1 + sumOver f l2.
Proof.
  induction l1 as [|a l IH]; simpl; [lra |].
  change (foldr (fun x acc => f x + acc) 0 (l ++ l2)) with (sumOver f (l ++ l2)).
  change (foldr (fun x acc => f x + acc) 0 l) with (sumOver f l). lra.
Qed.

Lemma sumOver_cons (f : nat -> Q) (a : nat) (l : list nat) :
  sumOver f (a :: l) = f a + sumOver f l.
Proof. reflexivity. Qed.

Lemma sumOver_ext (f g : nat -> Q) (l : list nat) :
  (forall x, x ∈ l -> f x == g x) -> sumOver f l == sumOver g l.
Proof.
  induction l as [|a l IH]; intros H; [reflexivity |].
  rewrite !sumOver_cons. rewrite (H a) by left. rewrite IH; [reflexivity |].
  intros x Hx. apply H. right. exact Hx.
Qed.

Lemma sumOver_nonneg (f : nat -> Q) (l : list nat) :
  (forall x, x ∈ l -> 0 <= f x) -> 0 <= sumOver f l.
Proof.
  induction l as [|a l IH]; intros H; [simpl; lra |].
  rewrite sumOver_cons. specialize (H a (list_elem_of_here a l)) as Ha.
  assert (0 <= sumOver f l) by (apply IH; intros x Hx; apply H; right; exact Hx). lra.
Qed.

Lemma sumOver_elem_le (f : nat -> Q) (l : list nat) (x : nat) :
  (forall y, y ∈ l -> 0 <= f y) -> x ∈ l -> f x <= sumOver f l.
Proof.
  induction l as [|a l IH]; intros H Hx; [inversion Hx |].
  rewrite sumOver_cons.
  assert (Hl : forall y, y ∈ l -> 0 <= f y) by (intros y Hy; apply H; right; exact Hy).
  pose proof (sumOver_nonneg f l Hl). pose proof (H a (list_elem_of_here a l)).
  apply elem_of_cons in Hx as [->|Hx]; [lra |]. specialize (IH Hl Hx). lra.
Qed.

Lemma sumOver_removeFirst (f : nat -> Q) (l : list nat) (x : nat) :
  x ∈ l -> sumOver f (WorkerNode.removeFirst x l) == sumOver f l - f x.
Proof.
  induction l as [|a l IH]; intros Hx; [inversion Hx |].
  cbn [WorkerNode.removeFirst]. rewrite sumOver_cons.
  destruct (decide (a = x)) as [->|Hne]; [lra |].
  apply elem_of_cons in Hx as [->|Hx]; [congruence |].
  rewrite sumOver_cons, IH by exact Hx. lra.
Qed.

Lemma removeFirst_subset (l : list nat) (x y : nat) :
  y ∈ WorkerNode.removeFirst x l -> y ∈ l.
Proof.
  induction l as [|a l IH]; cbn [WorkerNode.removeFirst]; [auto |].
  destruct (decide (a = x)); intros H; [right; exact H |].
  apply elem_of_cons in H as [->|H]; [left | right; auto].
Qed.

Lemma removeFirst_other (l : list nat) (x y : nat) :
  y <> x -> y ∈ l -> y ∈ WorkerNode.removeFirst x l.
Proof.
  intros Hne. induction l as [|a l IH]; cbn [WorkerNode.removeFirst]; [auto |].
  intros H. destruct (decide (a = x)) as [->|].
  - apply elem_of_cons in H as [->|H]; [congruence | exact H].
  - apply elem_of_cons in H as [->|H]; [left | right; auto].
Qed.

Lemma removeFirst_NoDup (l : list nat) (x : nat) :
  NoDup l -> NoDup (WorkerNode.removeFirst x l) /\ x ∉ WorkerNode.removeFirst x l.
Proof.
  induction 1 as [|a l Ha Hl IH]; cbn [WorkerNode.removeFirst].
  - split; [constructor | apply not_elem_of_nil].
  - destruct (decide (a = x)) as [->|Hne]; [split; assumption |].
    destruct IH as [IH1 IH2]. split.
    + constructor; [| exact IH1]. intros H. apply Ha. eapply removeFirst_subset. exact H.
    + intros H. apply elem_of_cons in H as [->|H]; [congruence | auto].
Qed.

Lemma elem_of_delete_other (l : list nat) (i d x : nat) :
  l !! i = Some d -> x ∈ l -> x <> d -> x ∈ delete i l.
Proof.
  intros Hi Hx Hne. rewrite <- (take_drop_middle l i d Hi) in Hx. rewrite delete_take_drop.
  apply elem_of_app in Hx as [Hx|Hx]; apply elem_of_app; [left; exact Hx | right].
  apply elem_of_cons in Hx as [->|Hx]; [congruence | exact Hx].
Qed.


(** ** Node accounting: frame properties *)

Lemma podCpu_template (st st' : list Pod.t) (p : nat) :
  Pod.template <$> st' !! p = Pod.template <$> st !! p ->
  podCpu st' p = podCpu st p /\ podMemory st' p = podMemory st p.
Proof.
  unfold podCpu, podMemory. intros H.
  destruct (st' !! p) as [a|], (st !! p) as [b|]; simpl in H; try discriminate; auto.
  unfold Pod.template in H. injection H as _ -> ->. auto.
Qed.

Lemma podCpu_app (st extra : list Pod.t) (p : nat) :
  (p < length st)%nat ->
  podCpu (st ++ extra) p = podCpu st p /\ podMemory (st ++ extra) p = podMemory st p.
Proof. intros H. unfold podCpu, podMemory. rewrite lookup_app_l by exact H. auto. Qed.

Lemma nodeAccounted_ext (s s' : OpenShiftSimulator) (nd : WorkerNode.t) :
  (forall q, q ∈ WorkerNode.pods nd ->
             podCpu (podStore s') q = podCpu (podStore s) q /\
             podMemory (podStore s') q = podMemory (podStore s) q) ->
  nodeAccounted s nd -> nodeAccounted s' nd.
Proof.
  intros H [Hc Hm]. split.
  - rewrite Hc. apply sumOver_ext. intros q Hq. destruct (H q Hq) as [-> _]. reflexivity.
  - rewrite Hm. apply sumOver_ext. intros q Hq. destruct (H q Hq) as [_ ->]. reflexivity.
Qed.

Lemma podCpu_nonneg (s : OpenShiftSimulator) (q : nat) :
  Structured s -> 0 <= podCpu (podStore s) q /\ 0 <= podMemory (podStore s) q.
Proof.
  intros Hst. unfold podCpu, podMemory.
  destruct (podStore s !! q) as [pod|] eqn:E; [| split; lra].
  exact (st_requests s Hst q pod E).
Qed.

Lemma NodeInvExcept_mono (X X' : list nat) (s : OpenShiftSimulator) :
  (forall q, q ∈ X -> q ∈ X') -> NodeInvExcept X s -> NodeInvExcept X' s.
Proof.
  intros Hsub (Hst & Hacc & Hb). split; [exact Hst |]. split; [exact Hacc |].
  intros p pod n Hlive HpX. apply Hb; [exact Hlive |]. intros H. apply HpX, Hsub, H.
Qed.

(** An operation that only moves allocations keeps the shape of the stores
    as long as the nodes list existing pods. *)
Lemma Structured_placementOnly (s s' : OpenShiftSimulator) :
  placementOnly s s' -> Structured s ->
  (forall n nd p, nodeStore s' !! n = Some nd -> p ∈ WorkerNode.pods nd ->
                  (p < length (podStore s))%nat) ->
  Structured s'.
Proof.
  intros Hframe Hst Hnodes.
  pose proof (placementOnly_fields _ _ Hframe) as (_ & Hds & _ & _ & Hdl & _ & _ & _ & Hpl).
  split; rewrite ?Hds, ?Hdl, ?Hpl.
  - exact Hnodes.
  - apply (st_depPods s Hst).
  - apply (st_nodup s Hst).
  - apply (st_disjoint s Hst).
  - apply (st_deps s Hst).
  - apply (st_depsValid s Hst).
  - intros p pod Hp. pose proof (placementOnly_pod s s' p Hframe) as Ht.
    rewrite Hp in Ht. destruct (podStore s !! p) as [pod0|] eqn:E; [| discriminate].
    simpl in Ht. unfold Pod.template in Ht. injection Ht as _ -> ->.
    exact (st_requests s Hst p pod0 E).
  - apply (st_depRequests s Hst).
Qed.

Lemma livePod_placementOnly (s s' : OpenShiftSimulator) (p : nat) :
  placementOnly s s' -> livePod s' p <-> livePod s p.
Proof.
  intros Hframe.
  pose proof (placementOnly_fields _ _ Hframe) as (_ & Hds & _ & _ & Hdl & _).
  unfold livePod, podsOf. rewrite Hds, Hdl. reflexivity.
Qed.

(** ** Node accounting: unbinding *)

Lemma unbindPod_inv (X : list nat) (s : OpenShiftSimulator) (p : nat) :
  NodeInvExcept X s -> livePod s p -> p ∉ X ->
  NodeInvExcept (p :: X) (unbindPod s p).
Proof.
  intros Hinv Hlive HpX.
  assert (Hweak : NodeInvExcept (p :: X) s).
  { eapply NodeInvExcept_mono; [| exact Hinv]. intros q Hq. right. exact Hq. }
  pose proof (unbindPod_placementOnly s p) as Hframe.
  unfold unbindPod in *.
  destruct (podStore s !! p) as [pod|] eqn:Ep; [| exact Hweak].
  destruct (Pod.node pod) as [n|] eqn:En; [| exact Hweak].
  destruct Hinv as (Hst & Hacc & Hb).
  destruct (Hb p pod n Hlive HpX Ep En) as (nd & Hnd & Hin).
  set (release := WorkerNode.deallocateResources (Pod.cpuRequest pod) (Pod.memoryRequest pod)) in *.
  set (s' := updNode n (WorkerNode.removePod p) (updNode n release s)) in *.
  assert (Hlk : forall m, nodeStore s' !! m
                = if decide (m = n) then Some (WorkerNode.removePod p (release nd))
                  else nodeStore s !! m).
  { intros m. unfold s', updNode. cbn [nodeStore withNodeStore].
    rewrite !list_lookup_alter.
    destruct (decide (m = n)) as [->|Hne].
    - rewrite !decide_True by reflexivity. rewrite Hnd. reflexivity.
    - rewrite !decide_False by congruence. reflexivity. }
  split; [| split].
  - apply (Structured_placementOnly s s' Hframe Hst).
    intros m ndm q Hm Hq. rewrite Hlk in Hm. destruct (decide (m = n)) as [->|].
    + injection Hm as <-. cbn [WorkerNode.pods WorkerNode.removePod] in Hq.
      apply removeFirst_subset in Hq. exact (st_nodePods s Hst n nd q Hnd Hq).
    + exact (st_nodePods s Hst m ndm q Hm Hq).
  - intros m ndm Hm Hlkm. change (workerNodes s') with (workerNodes s) in Hm.
    rewrite Hlk in Hlkm. destruct (decide (m = n)) as [->|]; [| exact (Hacc m ndm Hm Hlkm)].
    injection Hlkm as <-. destruct (Hacc n nd Hm Hnd) as [Hc Hmem].
    assert (Hnn : forall y, 0 <= podCpu (podStore s) y /\ 0 <= podMemory (podStore s) y)
      by (intros y; apply podCpu_nonneg; exact Hst).
    pose proof (sumOver_elem_le (podCpu (podStore s)) (WorkerNode.pods nd) p
                  (fun y _ => proj1 (Hnn y)) Hin) as Hle1.
    pose proof (sumOver_elem_le (podMemory (podStore s)) (WorkerNode.pods nd) p
                  (fun y _ => proj2 (Hnn y)) Hin) as Hle2.
    unfold podCpu in Hle1 at 1. unfold podMemory in Hle2 at 1. rewrite Ep in Hle1, Hle2.
    unfold nodeAccounted. change (podStore s') with (podStore s).
    cbn [WorkerNode.cpuAllocated WorkerNode.memoryAllocated WorkerNode.pods
         WorkerNode.removePod release WorkerNode.deallocateResources].
    rewrite !clampNeg_id by lra. rewrite !sumOver_removeFirst by exact Hin.
    unfold podCpu at 2. unfold podMemory at 2. rewrite Ep. split; lra.
  - intros q podq m Hliveq HqX Eq Enq.
    change (podStore s') with (podStore s) in Eq.
    apply (livePod_placementOnly s s' q Hframe) in Hliveq.
    assert (q <> p) by (intros ->; apply HqX; left).
    assert (q ∉ X) by (intros H'; apply HqX; right; exact H').
    destruct (Hb q podq m Hliveq ltac:(assumption) Eq Enq) as (ndm & Hndm & Hqin).
    rewrite Hlk. destruct (decide (m = n)) as [->|]; [| eauto].
    eexists. split; [reflexivity |].
    assert (ndm = nd) as -> by congruence.
    apply removeFirst_other; [assumption | exact Hqin].
Qed.

Lemma unbindPods_inv (l X : list nat) (s : OpenShiftSimulator) :
  NodeInvExcept X s -> NoDup l -> (forall p, p ∈ l -> livePod s p /\ p ∉ X) ->
  NodeInvExcept (l ++ X) (foldl unbindPod s l).
Proof.
  revert X s. induction l as [|a l IH]; intros X s Hinv Hnd Hl; [exact Hinv |].
  cbn [foldl]. apply NoDup_cons in Hnd as [Ha Hnd].
  destruct (Hl a (list_elem_of_here a l)) as [Hlive HaX].
  pose proof (unbindPod_inv X s a Hinv Hlive HaX) as H1.
  eapply NodeInvExcept_mono; [| apply (IH (a :: X) (unbindPod s a) H1 Hnd)].
  - intros q Hq. apply elem_of_app in Hq as [Hq|Hq].
    + apply elem_of_app. left. right. exact Hq.
    + apply elem_of_cons in Hq as [->|Hq]; [left | apply elem_of_app; right; exact Hq].
  - intros q Hq. destruct (Hl q ltac:(right; exact Hq)) as [Hlq HqX]. split.
    + apply (livePod_placementOnly s); [apply unbindPod_placementOnly | exact Hlq].
    + intros H. apply elem_of_cons in H as [->|H]; [exact (Ha Hq) | exact (HqX H)].
Qed.

(** ** Node accounting: placement *)

Lemma placePod_cons (n : nat) (rest : list nat) (p : nat) (pod : Pod.t)
    (s : OpenShiftSimulator) (nd : WorkerNode.t) :
  nodeStore s !! n = Some nd ->
  placePod (n :: rest) p pod s
  = updNode n (WorkerNode.addPod p)
      (updPod p (Pod.bind n)
         (updNode n (fun _ => snd (WorkerNode.allocateResources
                                     (Pod.cpuRequest pod) (Pod.memoryRequest pod) nd)) s)).
Proof. intros H. cbn [placePod]. rewrite H. reflexivity. Qed.

Lemma placeIfPending_inv (X cands : list nat) (s : OpenShiftSimulator) (p : nat) :
  NodeInvExcept X s -> NodeInvExcept X (placeIfPending cands s p).
Proof.
  intros Hinv. pose proof (placeIfPending_placementOnly cands s p) as Hframe.
  unfold placeIfPending in *.
  destruct (podStore s !! p) as [pod|] eqn:Ep; [| exact Hinv].
  destruct (Pod.isPending pod); [| exact Hinv].
  destruct cands as [|n rest]; [exact Hinv |].
  destruct (nodeStore s !! n) as [nd|] eqn:Hnd;
    [| cbn [placePod]; rewrite Hnd; exact Hinv].
  rewrite (placePod_cons n rest p pod s nd Hnd) in *.
  set (nd1 := snd (WorkerNode.allocateResources
                     (Pod.cpuRequest pod) (Pod.memoryRequest pod) nd)) in *.
  set (s' := updNode n (WorkerNode.addPod p) (updPod p (Pod.bind n)
               (updNode n (fun _ => nd1) s))) in *.
  destruct Hinv as (Hst & Hacc & Hb).
  assert (Hlk : forall m, nodeStore s' !! m
                = if decide (m = n) then Some (WorkerNode.addPod p nd1)
                  else nodeStore s !! m).
  { intros m. unfold s', updNode, updPod. cbn [nodeStore withNodeStore withPodStore].
    rewrite !list_lookup_alter.
    destruct (decide (m = n)) as [->|Hne].
    - rewrite !decide_True by reflexivity. rewrite Hnd. reflexivity.
    - rewrite !decide_False by congruence. reflexivity. }
  assert (Hpk : forall q, podStore s' !! q
                = if decide (q = p) then Some (Pod.bind n pod) else podStore s !! q).
  { intros q. unfold s', updNode, updPod. cbn [podStore withNodeStore withPodStore].
    rewrite list_lookup_alter.
    destruct (decide (q = p)) as [->|Hne].
    - rewrite decide_True by reflexivity. rewrite Ep. reflexivity.
    - rewrite decide_False by congruence. reflexivity. }
  assert (Hsame : forall q, podCpu (podStore s') q = podCpu (podStore s) q /\
                            podMemory (podStore s') q = podMemory (podStore s) q).
  { intros q. apply podCpu_template. apply placementOnly_pod. exact Hframe. }
  split; [| split].
  - apply (Structured_placementOnly s s' Hframe Hst).
    intros m ndm q Hm Hq. rewrite Hlk in Hm. destruct (decide (m = n)) as [->|].
    + injection Hm as <-. cbn in Hq. apply elem_of_app in Hq as [Hq|Hq].
      * exact (st_nodePods s Hst n nd q Hnd Hq).
      * apply list_elem_of_singleton in Hq as ->. eapply lookup_lt_Some. exact Ep.
    + exact (st_nodePods s Hst m ndm q Hm Hq).
  - intros m ndm Hm Hlkm. change (workerNodes s') with (workerNodes s) in Hm.
    rewrite Hlk in Hlkm. destruct (decide (m = n)) as [->|].
    + injection Hlkm as <-. destruct (Hacc n nd Hm Hnd) as [Hc Hmem].
      unfold nodeAccounted, nd1.
      cbn [WorkerNode.cpuAllocated WorkerNode.memoryAllocated WorkerNode.pods
           WorkerNode.addPod snd WorkerNode.allocateResources].
      rewrite !sumOver_app, !sumOver_cons. cbn [sumOver foldr].
      rewrite (sumOver_ext (podCpu (podStore s')) (podCpu (podStore s)))
        by (intros; rewrite (proj1 (Hsame x)); reflexivity).
      rewrite (sumOver_ext (podMemory (podStore s')) (podMemory (podStore s)))
        by (intros; rewrite (proj2 (Hsame x)); reflexivity).
      rewrite (proj1 (Hsame p)), (proj2 (Hsame p)).
      unfold podCpu at 2. unfold podMemory at 2. rewrite Ep. split; lra.
    + apply (nodeAccounted_ext s); [intros; apply Hsame | exact (Hacc m ndm Hm Hlkm)].
  - intros q podq m Hliveq HqX Eq Enq.
    apply (livePod_placementOnly s s' q Hframe) in Hliveq.
    rewrite Hpk in Eq. rewrite Hlk. destruct (decide (q = p)) as [->|Hne].
    + injection Eq as <-. cbn in Enq. injection Enq as <-.
      rewrite decide_True by reflexivity. eexists. split; [reflexivity |].
      cbn. apply elem_of_app. right. left.
    + destruct (Hb q podq m Hliveq HqX Eq Enq) as (ndm & Hndm & Hqin).
      destruct (decide (m = n)) as [->|]; [| eauto].
      eexists. split; [reflexivity |]. assert (ndm = nd) as -> by congruence.
      cbn. apply elem_of_app. left. exact Hqin.
Qed.

Lemma allocateDeploymentPods_inv (X : list nat) (d : nat) (s : OpenShiftSimulator) :
  NodeInvExcept X s -> NodeInvExcept X (allocateDeploymentPods d s).
Proof.
  intros H. unfold allocateDeploymentPods.
  apply (foldl_preserves (NodeInvExcept X)); [| exact H].
  intros. apply placeIfPending_inv. assumption.
Qed.

(** ** Node accounting: fresh pods *)

(** [s'] is [s] after deployment [d] has received freshly created pods: the
    pods were appended to the pod store and the deployment lists exactly them;
    no other deployment has changed.  The pods released before (if any) were
    those of [d]. *)
Lemma fresh_pods_inv (X : list nat) (s s' : OpenShiftSimulator) (d : nat)
    (dep' : Deployment.t) (fresh : list Pod.t) :
  NodeInvExcept X s ->
  nodeStore s' = nodeStore s -> workerNodes s' = workerNodes s ->
  podStore s' = podStore s ++ fresh ->
  Forall (fun pod => Pod.node pod = None /\
                     0 <= Pod.cpuRequest pod /\ 0 <= Pod.memoryRequest pod) fresh ->
  deploymentStore s' !! d = Some dep' ->
  Deployment.pods dep' = seq (length (podStore s)) (length fresh) ->
  0 <= Deployment.cpuRequestPerReplica dep' /\ 0 <= Deployment.memoryRequestPerReplica dep' ->
  (forall d', d' <> d -> deploymentStore s' !! d' = deploymentStore s !! d') ->
  NoDup (deployments s') ->
  (forall d', d' ∈ deployments s' -> (d' < length (deploymentStore s'))%nat) ->
  (forall d', d' ∈ deployments s' -> d' <> d -> d' ∈ deployments s) ->
  (forall p d' dep0, p ∈ X -> d' <> d -> deploymentStore s !! d' = Some dep0 ->
                     p ∉ Deployment.pods dep0) ->
  NodeInv s'.
Proof.
  intros (Hst & Hacc & Hb) Hns Hwn Hps Hfresh Hd Hpods Hreq Hother Hnodup Hvalid Hold HX.
  assert (Hlen : length (podStore s') = (length (podStore s) + length fresh)%nat)
    by (rewrite Hps; apply length_app).
  assert (Hkeep : forall p, (p < length (podStore s))%nat ->
                            podStore s' !! p = podStore s !! p)
    by (intros p Hp; rewrite Hps; apply lookup_app_l; exact Hp).
  assert (Hnew : forall p pod, (length (podStore s) <= p)%nat ->
                               podStore s' !! p = Some pod -> Pod.node pod = None /\
                               0 <= Pod.cpuRequest pod /\ 0 <= Pod.memoryRequest pod).
  { intros p pod Hp Hlk. rewrite Hps, lookup_app_r in Hlk by exact Hp.
    rewrite Forall_forall in Hfresh. apply Hfresh.
    eapply list_elem_of_lookup_2. exact Hlk. }
  split; [| split].
  - split.
    + intros n nd p Hn Hp. rewrite Hns in Hn.
      pose proof (st_nodePods s Hst n nd p Hn Hp). lia.
    + intros d' dep0 p Hd' Hp. destruct (decide (d' = d)) as [->|Hne].
      * assert (dep0 = dep') as -> by congruence. rewrite Hpods in Hp.
        apply elem_of_seq in Hp. lia.
      * rewrite Hother in Hd' by exact Hne.
        pose proof (st_depPods s Hst d' dep0 p Hd' Hp). lia.
    + intros d' dep0 Hd'. destruct (decide (d' = d)) as [->|Hne].
      * assert (dep0 = dep') as -> by congruence. rewrite Hpods. apply NoDup_seq.
      * rewrite Hother in Hd' by exact Hne. exact (st_nodup s Hst d' dep0 Hd').
    + intros d1 d2 dep1 dep2 p H1 H2 Hp1 Hp2.
      destruct (decide (d1 = d2)) as [|Hne12]; [assumption | exfalso].
      destruct (decide (d1 = d)) as [->|Hne1]; [| destruct (decide (d2 = d)) as [->|Hne2]].
      * assert (dep1 = dep') as -> by congruence. rewrite Hpods in Hp1.
        apply elem_of_seq in Hp1. rewrite Hother in H2 by congruence.
        pose proof (st_depPods s Hst d2 dep2 p H2 Hp2). lia.
      * assert (dep2 = dep') as -> by congruence. rewrite Hpods in Hp2.
        apply elem_of_seq in Hp2. rewrite Hother in H1 by congruence.
        pose proof (st_depPods s Hst d1 dep1 p H1 Hp1). lia.
      * rewrite Hother in H1, H2 by assumption.
        exact (Hne12 (st_disjoint s Hst d1 d2 dep1 dep2 p H1 H2 Hp1 Hp2)).
    + exact Hnodup.
    + exact Hvalid.
    + intros p pod Hp. destruct (decide (p < length (podStore s))%nat) as [Hlt|Hge].
      * rewrite Hkeep in Hp by exact Hlt. exact (st_requests s Hst p pod Hp).
      * apply (Hnew p pod); [lia | exact Hp].
    + intros d' dep0 Hd'. destruct (decide (d' = d)) as [->|Hne].
      * assert (dep0 = dep') as -> by congruence. exact Hreq.
      * rewrite Hother in Hd' by exact Hne. exact (st_depRequests s Hst d' dep0 Hd').
  - intros n nd Hn Hlk. rewrite Hwn in Hn. rewrite Hns in Hlk.
    apply (nodeAccounted_ext s); [| exact (Hacc n nd Hn Hlk)].
    intros q Hq. rewrite Hps. apply podCpu_app. exact (st_nodePods s Hst n nd q Hlk Hq).
  - intros p pod n (d' & Hd' & Hp) _ Hlk Hnode. unfold podsOf in Hp.
    destruct (deploymentStore s' !! d') as [dep0|] eqn:E; [| inversion Hp].
    destruct (decide (d' = d)) as [->|Hne].
    + assert (dep0 = dep') as -> by congruence. rewrite Hpods in Hp.
      apply elem_of_seq in Hp. destruct (Hnew p pod) as (Hnone & _); [lia | exact Hlk |].
      congruence.
    + rewrite Hother in E by exact Hne.
      pose proof (st_depPods s Hst d' dep0 p E Hp) as Hlt.
      rewrite Hkeep in Hlk by exact Hlt. rewrite Hns.
      apply (Hb p pod n); try assumption.
      * exists d'. split; [apply Hold; assumption |]. unfold podsOf. rewrite E. exact Hp.
      * intros HpX. exact (HX p d' dep0 HpX Hne E Hp).
Qed.

(** ** Node accounting: what the invariant reads *)

Lemma NodeInvExcept_ext (X : list nat) (s s' : OpenShiftSimulator) :
  nodeStore s' = nodeStore s -> podStore s' = podStore s ->
  deploymentStore s' = deploymentStore s ->
  workerNodes s' = workerNodes s -> deployments s' = deployments s ->
  NodeInvExcept X s -> NodeInvExcept X s'.
Proof.
  intros Hn Hp Hd Hw Hl ([H1 H2 H3 H4 H5 H6 H7 H8] & Hacc & Hb).
  split; [| split].
  - split; rewrite ?Hn, ?Hp, ?Hd, ?Hl; assumption.
  - intros n nd. rewrite Hn, Hw. unfold nodeAccounted. rewrite Hp. apply Hacc.
  - intros p pod n. unfold livePod, podsOf. rewrite Hn, Hp, Hd, Hl. apply Hb.
Qed.

Lemma updNamespace_inv (X : list nat) (n : nat) (f : Namespace.t -> Namespace.t)
    (s : OpenShiftSimulator) :
  NodeInvExcept X s -> NodeInvExcept X (updNamespace n f s).
Proof. apply NodeInvExcept_ext; reflexivity. Qed.

(** ** Node accounting: reallocation from scratch *)

Lemma resetPods_lookup (l : list nat) (s : OpenShiftSimulator) (p : nat) :
  podStore (foldl (fun s p => updPod p Pod.unbind s) s l) !! p
  = if decide (p ∈ l) then Pod.unbind <$> podStore s !! p else podStore s !! p.
Proof.
  revert s. induction l as [|a l IH]; intros s; cbn [foldl].
  { rewrite decide_False; [reflexivity | apply not_elem_of_nil]. }
  rewrite IH. unfold updPod at 1 2. cbn [podStore withPodStore].
  rewrite list_lookup_alter.
  destruct (decide (p = a)) as [->|Hne].
  - rewrite !(decide_True (P := a = a)) by reflexivity.
    rewrite (decide_True (P := a ∈ a :: l)) by left.
    destruct (decide (a ∈ l)); [| reflexivity].
    destruct (podStore s !! a); reflexivity.
  - rewrite !(decide_False (P := a = p)) by congruence.
    destruct (decide (p ∈ l)) as [Hin|Hin].
    + rewrite decide_True by (right; exact Hin). reflexivity.
    + rewrite decide_False; [reflexivity |].
      intros H. apply elem_of_cons in H as [?|?]; congruence.
Qed.

Lemma resetPods_placementOnly (l : list nat) (s : OpenShiftSimulator) :
  placementOnly s (foldl (fun s p => updPod p Pod.unbind s) s l).
Proof. apply placementOnly_foldl. intros. apply placementOnly_updPod. reflexivity. Qed.

Lemma resetPods_nodeStore (l : list nat) (s : OpenShiftSimulator) :
  nodeStore (foldl (fun s p => updPod p Pod.unbind s) s l) = nodeStore s.
Proof.
  revert s. induction l as [|a l IH]; intros s; cbn [foldl]; [reflexivity |].
  rewrite IH. reflexivity.
Qed.

Lemma podsOf_placementOnly (s s' : OpenShiftSimulator) (d : nat) :
  placementOnly s s' -> podsOf s' d = podsOf s d.
Proof.
  intros H. apply placementOnly_fields in H as (_ & Hds & _). unfold podsOf.
  rewrite Hds. reflexivity.
Qed.

(** The nested loop over deployments and their pods visits the pods of all
    listed deployments. *)
Lemma resetAll_flatten (ds : list nat) (s : OpenShiftSimulator) :
  foldl (fun s d => foldl (fun s p => updPod p Pod.unbind s) s (podsOf s d)) s ds
  = foldl (fun s p => updPod p Pod.unbind s) s (ds ≫= podsOf s).
Proof.
  revert s. induction ds as [|d ds IH]; intros s; [reflexivity |].
  cbn [foldl mbind list_bind]. rewrite foldl_app, IH.
  f_equal. clear IH. induction ds as [|d' ds IH]; [reflexivity |].
  cbn [mbind list_bind]. rewrite IH. f_equal.
  apply podsOf_placementOnly, resetPods_placementOnly.
Qed.

Lemma reallocateAllPods_inv (s : OpenShiftSimulator) :
  Structured s -> NodeInv (reallocateAllPods s).
Proof.
  intros Hst. unfold reallocateAllPods.
  set (s1 := foldl (fun s n => updNode n WorkerNode.clear s) s (workerNodes s)).
  pose proof (clearNodes_placementOnly (workerNodes s) s) as Hf1. fold s1 in Hf1.
  pose proof (placementOnly_fields _ _ Hf1) as (_ & Hds1 & Hw1 & _ & Hdl1 & _).
  rewrite resetAll_flatten.
  set (s2 := foldl (fun s p => updPod p Pod.unbind s) s1 (deployments s1 ≫= podsOf s1)).
  pose proof (resetPods_placementOnly (deployments s1 ≫= podsOf s1) s1) as Hf2.
  fold s2 in Hf2.
  pose proof (placementOnly_fields _ _ Hf2) as (_ & Hds2 & Hw2 & _ & Hdl2 & _).
  pose proof (placementOnly_trans _ _ _ Hf1 Hf2) as Hf.
  assert (Hnodes : forall n, nodeStore s2 !! n
            = if decide (n ∈ workerNodes s) then WorkerNode.clear <$> nodeStore s !! n
              else nodeStore s !! n).
  { intros n. unfold s2. rewrite resetPods_nodeStore. apply clearNodes_lookup. }
  assert (Hinv2 : NodeInv s2).
  { split; [| split].
    - apply (Structured_placementOnly s s2 Hf Hst).
      intros n nd p Hn Hp. rewrite Hnodes in Hn.
      destruct (decide (n ∈ workerNodes s)).
      + destruct (nodeStore s !! n); simpl in Hn; [| discriminate].
        injection Hn as <-. inversion Hp.
      + exact (st_nodePods s Hst n nd p Hn Hp).
    - intros n nd Hn Hlk. rewrite Hw2, Hw1 in Hn. rewrite Hnodes in Hlk.
      rewrite decide_True in Hlk by exact Hn.
      destruct (nodeStore s !! n); simpl in Hlk; [| discriminate].
      injection Hlk as <-. split; reflexivity.
    - intros p pod n (d & Hd & Hp) _ Hlk Hnode. exfalso.
      rewrite Hdl2 in Hd. rewrite (podsOf_placementOnly s1 s2 d Hf2) in Hp.
      unfold s2 in Hlk. rewrite resetPods_lookup in Hlk.
      rewrite decide_True in Hlk by (apply list_elem_of_bind; eauto).
      destruct (podStore s1 !! p); simpl in Hlk; [| discriminate].
      injection Hlk as <-. discriminate Hnode. }
  apply (foldl_preserves NodeInv); [| exact Hinv2].
  intros s0 d H0. apply allocateDeploymentPods_inv. exact H0.
Qed.

Lemma wipe_inv (factor : Q) (s : OpenShiftSimulator) : Structured s -> NodeInv (wipe factor s).
Proof.
  intros Hst. unfold wipe. set (s1 := withFactor factor s).
  pose proof (clearNodes_placementOnly (workerNodes s1) s1) as Hf.
  set (s2 := foldl (fun s n => updNode n WorkerNode.clear s) s1 (workerNodes s1)) in *.
  pose proof (placementOnly_fields _ _ Hf) as (_ & Hds & Hw & _ & _ & _ & _ & _ & Hpl).
  assert (Hnodes : forall n nd p, nodeStore s2 !! n = Some nd -> p ∈ WorkerNode.pods nd ->
                                  (p < length (podStore s))%nat).
  { intros n nd p Hn Hp. unfold s2 in Hn. rewrite clearNodes_lookup in Hn.
    change (nodeStore s1) with (nodeStore s) in Hn.
    destruct (decide (n ∈ workerNodes s1)).
    - destruct (nodeStore s !! n); simpl in Hn; [| discriminate].
      injection Hn as <-. inversion Hp.
    - exact (st_nodePods s Hst n nd p Hn Hp). }
  split; [| split].
  - split; cbn [nodeStore podStore deploymentStore deployments withDeployments withNamespaces];
      rewrite ?Hds, ?Hpl; change (deploymentStore s1) with (deploymentStore s);
      change (podStore s1) with (podStore s).
    + exact Hnodes.
    + apply (st_depPods s Hst).
    + apply (st_nodup s Hst).
    + apply (st_disjoint s Hst).
    + constructor.
    + intros d Hd. inversion Hd.
    + intros p pod Hp. pose proof (placementOnly_pod s1 s2 p Hf) as Ht.
      rewrite Hp in Ht. change (podStore s1) with (podStore s) in Ht.
      destruct (podStore s !! p) as [pod0|] eqn:E; [| discriminate].
      simpl in Ht. unfold Pod.template in Ht. injection Ht as _ -> ->.
      exact (st_requests s Hst p pod0 E).
    + apply (st_depRequests s Hst).
  - intros n nd Hn Hlk.
    cbn [workerNodes nodeStore withDeployments withNamespaces] in Hn, Hlk.
    unfold s2 in Hlk. rewrite clearNodes_lookup in Hlk. rewrite Hw in Hn.
    rewrite decide_True in Hlk by exact Hn.
    destruct (nodeStore s1 !! n); simpl in Hlk; [| discriminate].
    injection Hlk as <-. split; reflexivity.
  - intros p pod n (d & Hd & _). inversion Hd.
Qed.

(** ** Node accounting: the operations *)

Lemma addWorkerNode_structured (name : option string) (cpu memory : option Q)
    (s : OpenShiftSimulator) :
  Structured s -> Structured (snd (addWorkerNode name cpu memory s)).
Proof.
  intros [H1 H2 H3 H4 H5 H6 H7 H8]. unfold addWorkerNode.
  split; cbn [snd nodeStore podStore deploymentStore deployments withWorkerNodes
              withNodeStore withNodeCounter]; try assumption.
  intros n nd p Hn Hp. apply lookup_snoc_Some in Hn as [[_ Hn]|[_ <-]].
  - exact (H1 n nd p Hn Hp).
  - inversion Hp.
Qed.

Lemma addWorkerNodes_structured (k : nat) (name : option string) (cpu memory : option Q)
    (s : OpenShiftSimulator) :
  Structured s -> Structured (addWorkerNodes k name cpu memory s).
Proof.
  revert s. induction k as [|k IH]; intros s Hst; [exact Hst |].
  cbn [addWorkerNodes]. apply IH, addWorkerNode_structured, Hst.
Qed.

Lemma addWorkerNode_inv (name : option string) (cpu memory : option Q)
    (s : OpenShiftSimulator) :
  NodeInv s -> NodeInv (snd (addWorkerNode name cpu memory s)).
Proof.
  intros (Hst & Hacc & Hb). split; [apply addWorkerNode_structured, Hst | split].
  - unfold addWorkerNode.
    intros n nd Hn Hlk.
    cbn [snd nodeStore workerNodes withWorkerNodes withNodeStore withNodeCounter] in Hn, Hlk.
    apply lookup_snoc_Some in Hlk as [[Hlt Hlk]|[-> <-]].
    + apply (nodeAccounted_ext s); [intros; split; reflexivity |].
      apply (Hacc n nd); [| exact Hlk].
      apply elem_of_app in Hn as [Hn|Hn]; [exact Hn |].
      apply list_elem_of_singleton in Hn. lia.
    + split; reflexivity.
  - intros p pod n Hlive HpX Hlk Hnode.
    destruct (Hb p pod n Hlive HpX Hlk Hnode) as (nd & Hnd & Hin).
    exists nd. split; [| exact Hin]. unfold addWorkerNode.
    cbn [snd nodeStore withWorkerNodes withNodeStore withNodeCounter].
    rewrite lookup_app_l; [exact Hnd |]. eapply lookup_lt_Some. exact Hnd.
Qed.

Lemma setTotalWorkerNodes_inv (target : Z) (s : OpenShiftSimulator) :
  NodeInv s -> NodeInv (snd (setTotalWorkerNodes target s)).
Proof.
  intros Hinv. pose proof (proj1 Hinv) as Hst. unfold setTotalWorkerNodes.
  destruct (target <? _)%Z; [| destruct (target >? _)%Z]; cbn [snd].
  - apply reallocateAllPods_inv. destruct Hst. split; assumption.
  - apply reallocateAllPods_inv, addWorkerNodes_structured, Hst.
  - exact Hinv.
Qed.

Lemma findDeployment_Some (name : string) (s : OpenShiftSimulator) (i d : nat) :
  findDeployment name s = Some (i, d) ->
  deployments s !! i = Some d /\ d ∈ deployments s /\ nameOf s d = Some name.
Proof.
  unfold findDeployment. intros H. apply list_find_Some in H as (Hi & Hname & _).
  split; [exact Hi |]. split; [| exact Hname]. eapply list_elem_of_lookup_2. exact Hi.
Qed.

(** After the pods of a listed deployment have been unbound. *)
Lemma unbind_deployment_inv (s : OpenShiftSimulator) (d : nat) (dep : Deployment.t) :
  NodeInv s -> d ∈ deployments s -> deploymentStore s !! d = Some dep ->
  NodeInvExcept (Deployment.pods dep) (foldl unbindPod s (Deployment.pods dep)).
Proof.
  intros Hinv Hd Hdep.
  eapply NodeInvExcept_mono;
    [| apply (unbindPods_inv (Deployment.pods dep) [] s Hinv)].
  - intros q Hq. apply elem_of_app in Hq as [Hq|Hq]; [exact Hq | inversion Hq].
  - exact (st_nodup s (proj1 Hinv) d dep Hdep).
  - intros p Hp. split; [| apply not_elem_of_nil].
    exists d. split; [exact Hd |]. unfold podsOf. rewrite Hdep. exact Hp.
Qed.

Lemma freshPods_spec (dep : Deployment.t) :
  0 <= Deployment.cpuRequestPerReplica dep -> 0 <= Deployment.memoryRequestPerReplica dep ->
  length (Deployment.freshPods dep) = Z.to_nat (Deployment.replicaCount dep) /\
  Forall (fun pod => Pod.node pod = None /\
                     0 <= Pod.cpuRequest pod /\ 0 <= Pod.memoryRequest pod)
         (Deployment.freshPods dep).
Proof.
  intros Hc Hm. unfold Deployment.freshPods. split.
  - rewrite length_map, length_seq. reflexivity.
  - apply Forall_forall. intros pod Hpod. apply list_elem_of_fmap in Hpod as (i & -> & _).
    cbn. auto.
Qed.

Lemma scaleDeployment_inv (name : string) (n : Z) (s : OpenShiftSimulator) :
  NodeInv s -> NodeInv (snd (scaleDeployment name n s)).
Proof.
  intros Hinv. unfold scaleDeployment.
  destruct (findDeployment name s) as [[i d]|] eqn:Hfind; [| exact Hinv].
  destruct (deploymentStore s !! d) as [dep|] eqn:Hd; [| exact Hinv].
  apply findDeployment_Some in Hfind as (_ & Hin & _).
  rewrite (scale_before_test s d dep n _ Hd).
  pose proof (unbind_deployment_inv s d dep Hinv Hin Hd) as Hu.
  pose proof (foldl_unbindPod_placementOnly (Deployment.pods dep) s) as Hframe.
  set (u := foldl unbindPod s (Deployment.pods dep)) in *.
  pose proof (placementOnly_fields _ _ Hframe) as (_ & Hds & _ & _ & Hdl & _ & _ & _ & Hpl).
  destruct (st_depRequests s (proj1 Hinv) d dep Hd) as [Hc Hm].
  destruct (freshPods_spec (Deployment.setReplicaCount n dep) Hc Hm) as [Hlen Hfresh].
  match goal with |- context [withPodStore ?st ?s0] => set (s3 := withPodStore st s0) end.
  assert (H3 : NodeInv s3).
  { eapply (fresh_pods_inv (Deployment.pods dep) u s3 d); try exact Hu; try exact Hfresh.
    - reflexivity.
    - reflexivity.
    - reflexivity.
    - unfold s3, updDeployment.
      cbn [deploymentStore withPodStore withDeploymentStore updNamespace withNamespaceStore].
      rewrite list_lookup_alter, decide_True by reflexivity. rewrite Hds, Hd. reflexivity.
    - cbn. rewrite Hlen. reflexivity.
    - cbn. auto.
    - intros d' Hne. unfold s3, updDeployment.
      cbn [deploymentStore withPodStore withDeploymentStore updNamespace withNamespaceStore].
      apply list_lookup_alter_ne. congruence.
    - cbn. rewrite Hdl. exact (st_deps s (proj1 Hinv)).
    - intros d' Hd'.
      change (deployments s3) with (deployments u) in Hd'.
      change (deploymentStore s3) with (alter (fun _ => fst (Deployment.createPods
                (Deployment.setReplicaCount n dep) (podStore u))) d (deploymentStore u)).
      rewrite length_alter, Hds. rewrite Hdl in Hd'.
      exact (st_depsValid s (proj1 Hinv) d' Hd').
    - intros d' Hd' _. exact Hd'.
    - intros p d' dep0 Hp Hne Hd' Hp'. rewrite Hds in Hd'.
      apply Hne. exact (st_disjoint s (proj1 Hinv) d' d dep0 dep p Hd' Hd Hp' Hp). }
  destruct (namespaceStore s3 !! Deployment.namespace dep) as [ns|]; [| exact H3].
  destruct (Namespace.allocateResources _ _ ns) as [ok ns'].
  destruct ok; cbn [negb].
  - cbn [snd]. apply allocateDeploymentPods_inv, updNamespace_inv, H3.
  - destruct (Namespace.allocateResources _ _ ns') as [ok' ns''].
    cbn [snd]. apply updNamespace_inv, H3.
Qed.

Lemma NoDup_delete_lookup (l : list nat) (i d : nat) :
  NoDup l -> l !! i = Some d -> NoDup (delete i l) /\ d ∉ delete i l.
Proof.
  intros Hnd Hi. split; [eapply sublist_NoDup; [exact Hnd | apply sublist_delete] |].
  rewrite <- (take_drop_middle l i d Hi) in Hnd. rewrite delete_take_drop.
  apply NoDup_app in Hnd as (_ & Hdisj & Hr). apply NoDup_cons in Hr as [Hd _].
  intros H. apply elem_of_app in H as [H|H]; [| exact (Hd H)].
  apply (Hdisj d H). left.
Qed.

Lemma deleteDeployment_inv (name : string) (s : OpenShiftSimulator) :
  NodeInv s -> NodeInv (snd (deleteDeployment name s)).
Proof.
  intros Hinv. unfold deleteDeployment.
  destruct (findDeployment name s) as [[i d]|] eqn:Hfind; [| exact Hinv].
  destruct (deploymentStore s !! d) as [dep|] eqn:Hd; [| exact Hinv].
  apply findDeployment_Some in Hfind as (Hi & Hin & _).
  rewrite !foldl_unbindPod_updNamespace.
  pose proof (unbind_deployment_inv s d dep Hinv Hin Hd) as (Hst & Hacc & Hb).
  pose proof (foldl_unbindPod_placementOnly (Deployment.pods dep) s) as Hframe.
  set (u := foldl unbindPod s (Deployment.pods dep)) in *.
  pose proof (placementOnly_fields _ _ Hframe) as (_ & Hds & _ & _ & Hdl & _).
  rewrite <- Hdl in Hi. rewrite <- Hds in Hd.
  destruct (NoDup_delete_lookup (deployments u) i d (st_deps u Hst) Hi) as [Hnd Hnotin].
  cbn [snd]. destruct Hst as [H1 H2 H3 H4 H5 H6 H7 H8].
  split; [| split].
  - split; cbn [nodeStore podStore deploymentStore deployments withDeployments
                updNamespace withNamespaceStore]; try assumption.
    intros d' Hd'. apply H6. eapply list_elem_of_delete_inv. exact Hd'.
  - exact Hacc.
  - intros p pod n (d' & Hd' & Hp) _ Hlk Hnode.
    cbn [deployments withDeployments updNamespace withNamespaceStore] in Hd'.
    change (p ∈ podsOf u d') in Hp.
    apply (Hb p pod n); try assumption.
    + exists d'. split; [eapply list_elem_of_delete_inv; exact Hd' | exact Hp].
    + intros HpX. unfold podsOf in Hp.
      destruct (deploymentStore u !! d') as [dep'|] eqn:E; [| inversion Hp].
      assert (d' = d) as -> by exact (H4 d' d dep' dep p E Hd Hp HpX).
      exact (Hnotin Hd').
Qed.

Lemma createNamespace_inv (name : string) (cq mq : Q) (s : OpenShiftSimulator) :
  NodeInv s -> NodeInv (snd (createNamespace name cq mq s)).
Proof.
  intros Hinv. unfold createNamespace. destruct (namespaces s !! name); [exact Hinv |].
  cbn [snd]. eapply NodeInvExcept_ext; [.. | exact Hinv]; reflexivity.
Qed.

Lemma addDeployment_inv (name nsName : string) (rc : Z) (cpu mem : Q)
    (s : OpenShiftSimulator) :
  0 <= cpu -> 0 <= mem ->
  NodeInv s -> NodeInv (snd (addDeployment name nsName rc cpu mem s)).
Proof.
  intros Hc Hm Hinv. unfold addDeployment.
  destruct (namespaces s !! nsName) as [nsId|]; [| exact Hinv].
  destruct (namespaceStore s !! nsId) as [ns|]; [| exact Hinv].
  destruct (Namespace.allocateResources _ _ ns) as [ok ns'].
  destruct ok; cbn [negb]; [| exact Hinv].
  unfold newDeployment, Deployment.createPods.
  cbn [snd podStore deploymentStore deployments updNamespace withNamespaceStore
       withPodStore withDeploymentStore].
  apply allocateDeploymentPods_inv.
  set (dep0 := Deployment.mk name nsId rc cpu mem []).
  destruct (freshPods_spec dep0 Hc Hm) as [Hlen Hfresh].
  set (d := length (deploymentStore s)).
  eapply (fresh_pods_inv [] s _ d); try exact Hinv; try exact Hfresh.
  - reflexivity.
  - reflexivity.
  - reflexivity.
  - cbn [deploymentStore updNamespace withNamespaceStore withDeployments withPodStore
         withDeploymentStore].
    rewrite lookup_app_r by reflexivity. unfold d. rewrite Nat.sub_diag. reflexivity.
  - cbn. rewrite Hlen. reflexivity.
  - cbn. auto.
  - intros d' Hne.
    cbn [deploymentStore updNamespace withNamespaceStore withDeployments withPodStore
         withDeploymentStore].
    destruct (decide (d' < d)%nat) as [Hlt|Hge].
    + apply lookup_app_l. exact Hlt.
    + rewrite !lookup_ge_None_2; [reflexivity | unfold d in *; lia |].
      rewrite length_app. cbn. unfold d in *. lia.
  - cbn [deployments updNamespace withNamespaceStore withDeployments withPodStore
         withDeploymentStore].
    apply NoDup_app. split; [exact (st_deps s (proj1 Hinv)) |].
    split; [| apply NoDup_singleton].
    intros x Hx Hx'. apply list_elem_of_singleton in Hx' as ->.
    pose proof (st_depsValid s (proj1 Hinv) d Hx). unfold d in *. lia.
  - intros d' Hd'.
    cbn [deploymentStore deployments updNamespace withNamespaceStore withDeployments
         withPodStore withDeploymentStore] in *.
    rewrite length_app. cbn. apply elem_of_app in Hd' as [Hd'|Hd'].
    + pose proof (st_depsValid s (proj1 Hinv) d' Hd'). lia.
    + apply list_elem_of_singleton in Hd' as ->. unfold d. lia.
  - intros d' Hd' Hne.
    cbn [deployments updNamespace withNamespaceStore withDeployments withPodStore
         withDeploymentStore] in Hd'.
    apply elem_of_app in Hd' as [Hd'|Hd']; [exact Hd' |].
    apply list_elem_of_singleton in Hd'. congruence.
  - intros p d' dep1 Hp. inversion Hp.
Qed.

Lemma Qmax_floor_nonneg (x : Q) : 0 <= Qmax 0.01 x.
Proof. pose proof (Q.le_max_l 0.01 x). assert (0 <= 0.01) by (compute; discriminate). lra. Qed.

Lemma populate_inv (factor : Q) (random : nat -> Q) (s : OpenShiftSimulator) :
  NodeInv s -> NodeInv (populate factor random s).
Proof.
  intros Hinv. unfold populate.
  apply (foldl_preserves NodeInv); [| exact Hinv].
  intros s0 i H0. apply (foldl_preserves NodeInv).
  - intros s1 j H1. apply addDeployment_inv; try apply Qmax_floor_nonneg. exact H1.
  - apply createNamespace_inv. exact H0.
Qed.

Lemma setSimulatedWorkloadFactor_inv (factor : Q) (random : nat -> Q)
    (s : OpenShiftSimulator) :
  NodeInv s -> NodeInv (snd (setSimulatedWorkloadFactor factor random s)).
Proof.
  intros Hinv. unfold setSimulatedWorkloadFactor.
  destruct (Qltb factor 0 || Qltb 1 factor); [exact Hinv |].
  pose proof (wipe_inv factor s (proj1 Hinv)) as Hw.
  destruct (Qltb 0 factor); cbn [snd]; [apply populate_inv |]; exact Hw.
Qed.

Lemma emptySimulator_inv : NodeInv emptySimulator.
Proof.
  split; [| split].
  - split; cbn; intros; try discriminate; try constructor;
      match goal with H : _ ∈ [] |- _ => inversion H | H : [] !! _ = Some _ |- _ =>
        rewrite lookup_nil in H; discriminate end.
  - intros n nd Hn. inversion Hn.
  - intros p pod n (d & Hd & _). inversion Hd.
Qed.

Lemma addWorkerNodes_inv (k : nat) (name : option string) (cpu memory : option Q)
    (s : OpenShiftSimulator) :
  NodeInv s -> NodeInv (addWorkerNodes k name cpu memory s).
Proof.
  revert s. induction k as [|k IH]; intros s Hinv; [exact Hinv |].
  cbn [addWorkerNodes]. apply IH, addWorkerNode_inv, Hinv.
Qed.

Lemma constructor_inv : NodeInv constructor.
Proof. apply addWorkerNodes_inv, emptySimulator_inv. Qed.

Lemma exec_inv (c : Command) (s : OpenShiftSimulator) :
  validArgs c -> NodeInv s -> NodeInv (exec c s).
Proof.
  destruct c; cbn [exec validArgs]; intros Hv Hinv.
  - apply addWorkerNode_inv, Hinv.
  - apply setTotalWorkerNodes_inv, Hinv.
  - apply createNamespace_inv, Hinv.
  - apply addDeployment_inv; tauto.
  - apply scaleDeployment_inv, Hinv.
  - apply deleteDeployment_inv, Hinv.
  - apply setSimulatedWorkloadFactor_inv, Hinv.
Qed.

Lemma run_inv (cmds : list Command) (s : OpenShiftSimulator) :
  Forall validArgs cmds -> NodeInv s -> NodeInv (run cmds s).
Proof.
  revert s. induction cmds as [|c cmds IH]; intros s Hv Hinv; [exact Hinv |].
  apply Forall_cons in Hv as [Hc Hv]. cbn [run foldl].
  apply (IH (exec c s) Hv). apply exec_inv; assumption.
Qed.

(** ** Hosted pods are bound pods *)

Lemma HostInvExcept_ext (X : list nat) (s s' : OpenShiftSimulator) :
  nodeStore s' = nodeStore s -> podStore s' = podStore s ->
  deploymentStore s' = deploymentStore s ->
  workerNodes s' = workerNodes s -> deployments s' = deployments s ->
  HostInvExcept X s -> HostInvExcept X s'.
Proof.
  intros Hn Hp Hd Hw Hl (H1 & H2 & H3). split; [| split].
  - intros n nd p. unfold livePod, podsOf. rewrite Hn, Hp, Hd, Hw, Hl. apply H1.
  - intros n nd. rewrite Hn, Hw. apply H2.
  - intros p pod. rewrite Hp. apply H3.
Qed.

Lemma HostInvExcept_mono (X X' : list nat) (s : OpenShiftSimulator) :
  (forall q, q ∈ X' -> q ∈ X) -> HostInvExcept X s -> HostInvExcept X' s.
Proof.
  intros Hsub (H1 & H2 & H3). split; [| split; assumption].
  intros n nd p Hn Hnd Hp. destruct (H1 n nd p Hn Hnd Hp) as (Hl & HX & Hpod).
  split; [exact Hl |]. split; [| exact Hpod]. intros H. apply HX, Hsub, H.
Qed.

Lemma unbindPod_host (X : list nat) (s : OpenShiftSimulator) (a : nat) :
  HostInvExcept X s -> HostInvExcept (a :: X) (unbindPod s a).
Proof.
  intros (H1 & H2 & H3).
  assert (Hweak : (forall n nd, n ∈ workerNodes s -> nodeStore s !! n = Some nd ->
                                a ∉ WorkerNode.pods nd) ->
                  HostInvExcept (a :: X) s).
  { intros Hno. split; [| split; assumption].
    intros n nd p Hn Hnd Hp. destruct (H1 n nd p Hn Hnd Hp) as (Hl & HX & Hpod).
    split; [exact Hl |]. split; [| exact Hpod].
    intros H. apply elem_of_cons in H as [->|H]; [exact (Hno n nd Hn Hnd Hp) | exact (HX H)]. }
  pose proof (unbindPod_placementOnly s a) as Hframe. unfold unbindPod in *.
  destruct (podStore s !! a) as [pod|] eqn:Ea.
  2:{ apply Hweak. intros n nd Hn Hnd Hp.
      destruct (H1 n nd a Hn Hnd Hp) as (_ & _ & pod & Hpod & _). congruence. }
  destruct (Pod.node pod) as [m|] eqn:Em.
  2:{ apply Hweak. intros n nd Hn Hnd Hp.
      destruct (H1 n nd a Hn Hnd Hp) as (_ & _ & pod' & Hpod & Hnode). congruence. }
  set (release := WorkerNode.deallocateResources (Pod.cpuRequest pod) (Pod.memoryRequest pod)) in *.
  set (s' := updNode m (WorkerNode.removePod a) (updNode m release s)) in *.
  assert (Hlk : forall n, nodeStore s' !! n
                = if decide (n = m)
                  then (fun nd => WorkerNode.removePod a (release nd)) <$> nodeStore s !! m
                  else nodeStore s !! n).
  { intros n. unfold s', updNode. cbn [nodeStore withNodeStore].
    rewrite !list_lookup_alter. destruct (decide (n = m)) as [->|Hne].
    - rewrite !decide_True by reflexivity. destruct (nodeStore s !! m); reflexivity.
    - rewrite !decide_False by congruence. reflexivity. }
  split; [| split].
  - intros n nd p Hn Hnd Hp. change (workerNodes s') with (workerNodes s) in Hn.
    change (podStore s') with (podStore s).
    rewrite (livePod_placementOnly s s' p Hframe). rewrite Hlk in Hnd.
    destruct (decide (n = m)) as [->|Hne].
    + destruct (nodeStore s !! m) as [nd0|] eqn:E0; [| discriminate].
      cbn in Hnd. injection Hnd as <-. cbn in Hp.
      destruct (removeFirst_NoDup (WorkerNode.pods nd0) a (H2 m nd0 Hn E0)) as [_ Hnot].
      assert (p <> a) by (intros ->; exact (Hnot Hp)).
      apply removeFirst_subset in Hp.
      destruct (H1 m nd0 p Hn E0 Hp) as (Hl & HX & Hpod).
      split; [exact Hl |]. split; [| exact Hpod].
      intros H'. apply elem_of_cons in H' as [?|?]; [congruence | exact (HX ltac:(assumption))].
    + destruct (H1 n nd p Hn Hnd Hp) as (Hl & HX & pod' & Hpod & Hnode).
      split; [exact Hl |]. split; [| eauto].
      intros H'. apply elem_of_cons in H' as [->|H']; [| exact (HX H')].
      rewrite Ea in Hpod. injection Hpod as <-. congruence.
  - intros n nd Hn Hnd. change (workerNodes s') with (workerNodes s) in Hn.
    rewrite Hlk in Hnd. destruct (decide (n = m)) as [->|Hne]; [| exact (H2 n nd Hn Hnd)].
    destruct (nodeStore s !! m) as [nd0|] eqn:E0; [| discriminate].
    cbn in Hnd. injection Hnd as <-. cbn.
    exact (proj1 (removeFirst_NoDup (WorkerNode.pods nd0) a (H2 m nd0 Hn E0))).
  - exact H3.
Qed.

Lemma unbindPods_host (l X : list nat) (s : OpenShiftSimulator) :
  HostInvExcept X s -> HostInvExcept (l ++ X) (foldl unbindPod s l).
Proof.
  revert X s. induction l as [|a l IH]; intros X s Hinv; [exact Hinv |].
  cbn [foldl]. eapply HostInvExcept_mono; [| apply (IH (a :: X)), unbindPod_host, Hinv].
  intros q Hq. apply elem_of_app. apply elem_of_cons in Hq as [->|Hq].
  - right. left.
  - apply elem_of_app in Hq as [Hq|Hq]; [left; exact Hq | right; right; exact Hq].
Qed.

Lemma placeIfPending_host (cands : list nat) (s : OpenShiftSimulator) (p : nat) :
  livePod s p -> HostInv s -> HostInv (placeIfPending cands s p).
Proof.
  intros Hlive Hinv. pose proof (placeIfPending_placementOnly cands s p) as Hframe.
  unfold placeIfPending in *.
  destruct (podStore s !! p) as [pod|] eqn:Ep; [| exact Hinv].
  destruct (Pod.isPending pod) eqn:Epend; [| exact Hinv].
  destruct cands as [|h rest]; [exact Hinv |].
  destruct (nodeStore s !! h) as [nd|] eqn:Hnd;
    [| cbn [placePod]; rewrite Hnd; exact Hinv].
  rewrite (placePod_cons h rest p pod s nd Hnd) in *.
  set (nd1 := snd (WorkerNode.allocateResources
                     (Pod.cpuRequest pod) (Pod.memoryRequest pod) nd)) in *.
  set (s' := updNode h (WorkerNode.addPod p) (updPod p (Pod.bind h)
               (updNode h (fun _ => nd1) s))) in *.
  destruct Hinv as (H1 & H2 & H3).
  assert (Hnone : Pod.node pod = None).
  { apply (H3 p pod Ep). unfold Pod.isPending in Epend.
    destruct (Pod.status pod); [reflexivity | discriminate]. }
  assert (Hlk : forall m, nodeStore s' !! m
                = if decide (m = h) then Some (WorkerNode.addPod p nd1)
                  else nodeStore s !! m).
  { intros m. unfold s', updNode, updPod. cbn [nodeStore withNodeStore withPodStore].
    rewrite !list_lookup_alter.
    destruct (decide (m = h)) as [->|Hne].
    - rewrite !decide_True by reflexivity. rewrite Hnd. reflexivity.
    - rewrite !decide_False by congruence. reflexivity. }
  assert (Hpk : forall q, podStore s' !! q
                = if decide (q = p) then Some (Pod.bind h pod) else podStore s !! q).
  { intros q. unfold s', updNode, updPod. cbn [podStore withNodeStore withPodStore].
    rewrite list_lookup_alter.
    destruct (decide (q = p)) as [->|Hne].
    - rewrite decide_True by reflexivity. rewrite Ep. reflexivity.
    - rewrite decide_False by congruence. reflexivity. }
  assert (Hnotin : forall n ndn, n ∈ workerNodes s -> nodeStore s !! n = Some ndn ->
                                 p ∉ WorkerNode.pods ndn).
  { intros n ndn Hn Hndn Hp. destruct (H1 n ndn p Hn Hndn Hp) as (_ & _ & pod' & Hpod & Hnode).
    congruence. }
  split; [| split].
  - intros n ndn q Hn Hndn Hq. change (workerNodes s') with (workerNodes s) in Hn.
    rewrite (livePod_placementOnly s s' q Hframe). rewrite Hlk in Hndn. rewrite Hpk.
    split; [| split; [apply not_elem_of_nil |]].
    + destruct (decide (n = h)) as [->|Hne].
      * injection Hndn as <-. cbn in Hq. apply elem_of_app in Hq as [Hq|Hq].
        -- exact (proj1 (H1 h nd q Hn Hnd Hq)).
        -- apply list_elem_of_singleton in Hq as ->. exact Hlive.
      * exact (proj1 (H1 n ndn q Hn Hndn Hq)).
    + destruct (decide (n = h)) as [->|Hne].
      * injection Hndn as <-. cbn in Hq. apply elem_of_app in Hq as [Hq|Hq].
        -- rewrite decide_False by (intros ->; exact (Hnotin h nd Hn Hnd Hq)).
           exact (proj2 (proj2 (H1 h nd q Hn Hnd Hq))).
        -- apply list_elem_of_singleton in Hq as ->.
           rewrite decide_True by reflexivity. eauto.
      * rewrite decide_False by (intros ->; exact (Hnotin n ndn Hn Hndn Hq)).
        exact (proj2 (proj2 (H1 n ndn q Hn Hndn Hq))).
  - intros n ndn Hn Hndn. change (workerNodes s') with (workerNodes s) in Hn.
    rewrite Hlk in Hndn. destruct (decide (n = h)) as [->|Hne]; [| exact (H2 n ndn Hn Hndn)].
    injection Hndn as <-. cbn. apply NoDup_app. split; [exact (H2 h nd Hn Hnd) |].
    split; [| apply NoDup_singleton].
    intros x Hx Hx'. apply list_elem_of_singleton in Hx' as ->.
    exact (Hnotin h nd Hn Hnd Hx).
  - intros q podq Hq Hstatus. rewrite Hpk in Hq.
    destruct (decide (q = p)) as [->|Hne]; [| exact (H3 q podq Hq Hstatus)].
    injection Hq as <-. discriminate Hstatus.
Qed.

Lemma allocateDeploymentPods_host (d : nat) (s : OpenShiftSimulator) :
  d ∈ deployments s -> HostInv s -> HostInv (allocateDeploymentPods d s).
Proof.
  intros Hd Hinv. unfold allocateDeploymentPods.
  set (cands := stableSort _ _).
  assert (H : forall l s0, placementOnly s s0 -> (forall p, p ∈ l -> livePod s p) ->
                           HostInv s0 -> HostInv (foldl (placeIfPending cands) s0 l)).
  { induction l as [|a l IH]; intros s0 Hf Hl H0; [exact H0 |].
    cbn [foldl]. apply IH.
    - eapply placementOnly_trans; [exact Hf | apply placeIfPending_placementOnly].
    - intros p Hp. apply Hl. right. exact Hp.
    - apply placeIfPending_host; [| exact H0].
      apply (livePod_placementOnly s s0 a Hf). apply Hl. left. }
  apply H; [apply placementOnly_refl | | exact Hinv].
  intros p Hp. exists d. split; assumption.
Qed.

(** [s'] has the nodes and the pool of [s], possibly more pods, and every
    live pod of [s] that was not released is live in [s']. *)
Lemma host_transfer (X : list nat) (s s' : OpenShiftSimulator) (fresh : list Pod.t) :
  HostInvExcept X s ->
  nodeStore s' = nodeStore s -> workerNodes s' = workerNodes s ->
  podStore s' = podStore s ++ fresh ->
  Forall (fun pod => Pod.node pod = None) fresh ->
  (forall p, livePod s p -> p ∉ X -> livePod s' p) ->
  HostInv s'.
Proof.
  intros (H1 & H2 & H3) Hn Hw Hp Hfresh Hlive. split; [| split].
  - intros n nd p Hin Hnd Hpin. rewrite Hw in Hin. rewrite Hn in Hnd.
    destruct (H1 n nd p Hin Hnd Hpin) as (Hl & HX & pod & Hpod & Hnode).
    split; [exact (Hlive p Hl HX) |]. split; [apply not_elem_of_nil |].
    exists pod. split; [| exact Hnode]. rewrite Hp, lookup_app_l; [exact Hpod |].
    eapply lookup_lt_Some. exact Hpod.
  - intros n nd. rewrite Hw, Hn. apply H2.
  - intros p pod Hpod Hstatus. rewrite Hp in Hpod.
    apply lookup_app_Some in Hpod as [Hpod|[_ Hpod]]; [exact (H3 p pod Hpod Hstatus) |].
    rewrite Forall_forall in Hfresh. apply Hfresh.
    eapply list_elem_of_lookup_2. exact Hpod.
Qed.

Lemma freshPods_unbound (dep : Deployment.t) :
  Forall (fun pod => Pod.node pod = None) (Deployment.freshPods dep).
Proof.
  apply Forall_forall. intros pod Hpod. unfold Deployment.freshPods in Hpod.
  apply list_elem_of_fmap in Hpod as (k & -> & _). reflexivity.
Qed.

Lemma reallocateAllPods_host (s : OpenShiftSimulator) :
  pendingUnbound s -> HostInv (reallocateAllPods s).
Proof.
  intros H3. unfold reallocateAllPods.
  set (s1 := foldl (fun s n => updNode n WorkerNode.clear s) s (workerNodes s)).
  pose proof (clearNodes_placementOnly (workerNodes s) s) as Hf1. fold s1 in Hf1.
  pose proof (placementOnly_fields _ _ Hf1) as (_ & _ & Hw1 & _).
  rewrite resetAll_flatten.
  set (s2 := foldl (fun s p => updPod p Pod.unbind s) s1 (deployments s1 ≫= podsOf s1)).
  pose proof (resetPods_placementOnly (deployments s1 ≫= podsOf s1) s1) as Hf2.
  fold s2 in Hf2.
  pose proof (placementOnly_fields _ _ Hf2) as (_ & _ & Hw2 & _).
  assert (Hcleared : forall n nd, n ∈ workerNodes s2 -> nodeStore s2 !! n = Some nd ->
                                  WorkerNode.pods nd = []).
  { intros n nd Hn Hnd. rewrite Hw2, Hw1 in Hn. unfold s2 in Hnd.
    rewrite resetPods_nodeStore in Hnd. unfold s1 in Hnd.
    rewrite clearNodes_lookup, decide_True in Hnd by exact Hn.
    destruct (nodeStore s !! n); cbn in Hnd; [| discriminate].
    injection Hnd as <-. reflexivity. }
  assert (Hinv2 : HostInv s2).
  { split; [| split].
    - intros n nd p Hn Hnd Hp. rewrite (Hcleared n nd Hn Hnd) in Hp. inversion Hp.
    - intros n nd Hn Hnd. rewrite (Hcleared n nd Hn Hnd). constructor.
    - intros p pod Hpod Hstatus. unfold s2 in Hpod. rewrite resetPods_lookup in Hpod.
      assert (Hsame : podStore s1 !! p = podStore s !! p).
      { pose proof (placementOnly_pod s s1 p Hf1) as Ht.
        unfold s1. clear. generalize (workerNodes s). intros l. revert s.
        induction l as [|a l IH]; intros s; cbn [foldl]; [reflexivity |].
        rewrite IH. reflexivity. }
      rewrite Hsame in Hpod.
      destruct (decide (p ∈ deployments s1 ≫= podsOf s1)).
      + destruct (podStore s !! p); cbn in Hpod; [| discriminate].
        injection Hpod as <-. reflexivity.
      + exact (H3 p pod Hpod Hstatus). }
  assert (H : forall l s0, placementOnly s2 s0 -> (forall d, d ∈ l -> d ∈ deployments s2) ->
                HostInv s0 ->
                HostInv (foldl (fun s d => allocateDeploymentPods d s) s0 l)).
  { induction l as [|a l IH]; intros s0 Hf Hl H0; [exact H0 |].
    cbn [foldl]. apply IH.
    - eapply placementOnly_trans; [exact Hf | apply allocateDeploymentPods_placementOnly].
    - intros d Hd. apply Hl. right. exact Hd.
    - apply allocateDeploymentPods_host; [| exact H0].
      pose proof (placementOnly_fields _ _ Hf) as (_ & _ & _ & _ & Hdl & _).
      rewrite Hdl. apply Hl. left. }
  apply H; [apply placementOnly_refl | auto | exact Hinv2].
Qed.

Lemma wipe_host (factor : Q) (s : OpenShiftSimulator) :
  pendingUnbound s -> HostInv (wipe factor s).
Proof.
  intros H3. unfold wipe. set (s1 := withFactor factor s).
  pose proof (clearNodes_placementOnly (workerNodes s1) s1) as Hf.
  set (s2 := foldl (fun s n => updNode n WorkerNode.clear s) s1 (workerNodes s1)) in *.
  pose proof (placementOnly_fields _ _ Hf) as (_ & _ & Hw & _).
  assert (Hcleared : forall n nd, n ∈ workerNodes s2 -> nodeStore s2 !! n = Some nd ->
                                  WorkerNode.pods nd = []).
  { intros n nd Hn Hnd. rewrite Hw in Hn. unfold s2 in Hnd.
    rewrite clearNodes_lookup, decide_True in Hnd by exact Hn.
    destruct (nodeStore s1 !! n); cbn in Hnd; [| discriminate].
    injection Hnd as <-. reflexivity. }
  split; [| split].
  - intros n nd p Hn Hnd Hp. rewrite (Hcleared n nd Hn Hnd) in Hp. inversion Hp.
  - intros n nd Hn Hnd. rewrite (Hcleared n nd Hn Hnd). constructor.
  - intros p pod Hpod. cbn [podStore withDeployments withNamespaces] in Hpod.
    assert (Hsame : podStore s2 !! p = podStore s !! p).
    { unfold s2. change (podStore s) with (podStore s1).
      generalize (workerNodes s1). intros l. generalize s1. clear.
      induction l as [|a l IH]; intros s; cbn [foldl]; [reflexivity |].
      rewrite IH. reflexivity. }
    rewrite Hsame in Hpod. exact (H3 p pod Hpod).
Qed.

Lemma addWorkerNode_host (name : option string) (cpu memory : option Q)
    (s : OpenShiftSimulator) :
  HostInv s -> HostInv (snd (addWorkerNode name cpu memory s)).
Proof.
  intros (H1 & H2 & H3). unfold addWorkerNode.
  assert (Hold : forall n nd,
            n ∈ workerNodes s ++ [length (nodeStore s)] ->
            (nodeStore s ++ [WorkerNode.new
               (default ("worker-node-" +:+ pretty (S (nodeCounter s))) (nameGiven name))
               (default 128 cpu) (default 1500 memory)]) !! n = Some nd ->
            (n ∈ workerNodes s /\ nodeStore s !! n = Some nd) \/ WorkerNode.pods nd = []).
  { intros n nd Hn Hnd. apply lookup_snoc_Some in Hnd as [[Hlt Hnd]|[_ <-]]; [left | right; reflexivity].
    split; [| exact Hnd]. apply elem_of_app in Hn as [Hn|Hn]; [exact Hn |].
    apply list_elem_of_singleton in Hn. lia. }
  split; [| split]; cbn [snd nodeStore workerNodes podStore withWorkerNodes withNodeStore
                         withNodeCounter].
  - intros n nd p Hn Hnd Hp. destruct (Hold n nd Hn Hnd) as [[Hn' Hnd']|He].
    + exact (H1 n nd p Hn' Hnd' Hp).
    + rewrite He in Hp. inversion Hp.
  - intros n nd Hn Hnd. destruct (Hold n nd Hn Hnd) as [[Hn' Hnd']|He].
    + exact (H2 n nd Hn' Hnd').
    + rewrite He. constructor.
  - exact H3.
Qed.

Lemma addWorkerNodes_host (k : nat) (name : option string) (cpu memory : option Q)
    (s : OpenShiftSimulator) :
  HostInv s -> HostInv (addWorkerNodes k name cpu memory s).
Proof.
  revert s. induction k as [|k IH]; intros s Hinv; [exact Hinv |].
  cbn [addWorkerNodes]. apply IH, addWorkerNode_host, Hinv.
Qed.

Lemma setTotalWorkerNodes_host (target : Z) (s : OpenShiftSimulator) :
  HostInv s -> HostInv (snd (setTotalWorkerNodes target s)).
Proof.
  intros Hinv. unfold setTotalWorkerNodes.
  destruct (target <? _)%Z; [| destruct (target >? _)%Z]; cbn [snd].
  - apply reallocateAllPods_host. exact (proj2 (proj2 Hinv)).
  - apply reallocateAllPods_host.
    exact (proj2 (proj2 (addWorkerNodes_host _ None None None s Hinv))).
  - exact Hinv.
Qed.

Lemma scaleDeployment_host (name : string) (n : Z) (s : OpenShiftSimulator) :
  HostInv s -> HostInv (snd (scaleDeployment name n s)).
Proof.
  intros Hinv. unfold scaleDeployment.
  destruct (findDeployment name s) as [[i d]|] eqn:Hfind; [| exact Hinv].
  destruct (deploymentStore s !! d) as [dep|] eqn:Hd; [| exact Hinv].
  apply findDeployment_Some in Hfind as (_ & Hin & _).
  rewrite (scale_before_test s d dep n _ Hd).
  pose proof (unbindPods_host (Deployment.pods dep) [] s Hinv) as Hu.
  pose proof (foldl_unbindPod_placementOnly (Deployment.pods dep) s) as Hframe.
  set (u := foldl unbindPod s (Deployment.pods dep)) in *.
  pose proof (placementOnly_fields _ _ Hframe) as (_ & Hds & _ & _ & Hdl & _).
  match goal with |- context [withPodStore ?st ?s0] => set (s3 := withPodStore st s0) end.
  assert (H3 : HostInv s3).
  { eapply (host_transfer _ u s3); [exact Hu | reflexivity | reflexivity | reflexivity
                                    | apply freshPods_unbound |].
    intros p (d' & Hd' & Hp) HpX. exists d'. split; [exact Hd' |].
    unfold podsOf in *. unfold s3, updDeployment.
    cbn [deploymentStore withPodStore withDeploymentStore updNamespace withNamespaceStore].
    rewrite list_lookup_alter_ne; [exact Hp |].
    intros ->. rewrite Hds, Hd in Hp. apply HpX. apply elem_of_app. left. exact Hp. }
  assert (Hin3 : d ∈ deployments s3) by (change (d ∈ deployments u); rewrite Hdl; exact Hin).
  destruct (namespaceStore s3 !! Deployment.namespace dep) as [ns|]; [| exact H3].
  destruct (Namespace.allocateResources _ _ ns) as [ok ns'].
  destruct ok; cbn [negb].
  - cbn [snd]. apply allocateDeploymentPods_host; [exact Hin3 |].
    eapply HostInvExcept_ext; [.. | exact H3]; reflexivity.
  - destruct (Namespace.allocateResources _ _ ns') as [ok' ns''].
    cbn [snd]. eapply HostInvExcept_ext; [.. | exact H3]; reflexivity.
Qed.

Lemma deleteDeployment_host (name : string) (s : OpenShiftSimulator) :
  HostInv s -> HostInv (snd (deleteDeployment name s)).
Proof.
  intros Hinv. unfold deleteDeployment.
  destruct (findDeployment name s) as [[i d]|] eqn:Hfind; [| exact Hinv].
  destruct (deploymentStore s !! d) as [dep|] eqn:Hd; [| exact Hinv].
  apply findDeployment_Some in Hfind as (Hi & Hin & _).
  rewrite !foldl_unbindPod_updNamespace.
  pose proof (unbindPods_host (Deployment.pods dep) [] s Hinv) as Hu.
  pose proof (foldl_unbindPod_placementOnly (Deployment.pods dep) s) as Hframe.
  set (u := foldl unbindPod s (Deployment.pods dep)) in *.
  pose proof (placementOnly_fields _ _ Hframe) as (_ & Hds & _ & _ & Hdl & _).
  cbn [snd].
  eapply (host_transfer _ u _ []); [exact Hu | reflexivity | reflexivity | | constructor |].
  - cbn [podStore withDeployments updNamespace withNamespaceStore]. rewrite app_nil_r. reflexivity.
  - intros p (d' & Hd' & Hp) HpX. exists d'. split; [| exact Hp].
    cbn [deployments withDeployments updNamespace withNamespaceStore].
    apply (elem_of_delete_other _ i d); [rewrite Hdl; exact Hi | exact Hd' |].
    intros ->. unfold podsOf in Hp. rewrite Hds, Hd in Hp.
    apply HpX. apply elem_of_app. left. exact Hp.
Qed.

Lemma addDeployment_host (name nsName : string) (rc : Z) (cpu mem : Q)
    (s : OpenShiftSimulator) :
  HostInv s -> HostInv (snd (addDeployment name nsName rc cpu mem s)).
Proof.
  intros Hinv. unfold addDeployment.
  destruct (namespaces s !! nsName) as [nsId|]; [| exact Hinv].
  destruct (namespaceStore s !! nsId) as [ns|]; [| exact Hinv].
  destruct (Namespace.allocateResources _ _ ns) as [ok ns'].
  destruct ok; cbn [negb]; [| exact Hinv].
  unfold newDeployment, Deployment.createPods.
  cbn [snd podStore deploymentStore deployments updNamespace withNamespaceStore
       withPodStore withDeploymentStore].
  apply allocateDeploymentPods_host.
  { cbn [deployments updNamespace withNamespaceStore withDeployments].
    apply elem_of_app. right. left. }
  eapply (host_transfer [] s); [exact Hinv | reflexivity | reflexivity | reflexivity
                                | apply freshPods_unbound |].
  intros p (d' & Hd' & Hp) _. exists d'. split.
  - cbn [deployments updNamespace withNamespaceStore withDeployments].
    apply elem_of_app. left. exact Hd'.
  - unfold podsOf in *.
    cbn [deploymentStore updNamespace withNamespaceStore withDeployments withPodStore
         withDeploymentStore].
    destruct (deploymentStore s !! d') as [dep|] eqn:E; [| inversion Hp].
    rewrite lookup_app_l, E; [exact Hp |]. eapply lookup_lt_Some. exact E.
Qed.

Lemma createNamespace_host (name : string) (cq mq : Q) (s : OpenShiftSimulator) :
  HostInv s -> HostInv (snd (createNamespace name cq mq s)).
Proof.
  intros Hinv. unfold createNamespace. destruct (namespaces s !! name); [exact Hinv |].
  cbn [snd]. eapply HostInvExcept_ext; [.. | exact Hinv]; reflexivity.
Qed.

Lemma populate_host (factor : Q) (random : nat -> Q) (s : OpenShiftSimulator) :
  HostInv s -> HostInv (populate factor random s).
Proof.
  intros Hinv. unfold populate.
  apply (foldl_preserves HostInv); [| exact Hinv].
  intros s0 i H0. apply (foldl_preserves HostInv).
  - intros s1 j H1. apply addDeployment_host. exact H1.
  - apply createNamespace_host. exact H0.
Qed.

Lemma setSimulatedWorkloadFactor_host (factor : Q) (random : nat -> Q)
    (s : OpenShiftSimulator) :
  HostInv s -> HostInv (snd (setSimulatedWorkloadFactor factor random s)).
Proof.
  intros Hinv. unfold setSimulatedWorkloadFactor.
  destruct (Qltb factor 0 || Qltb 1 factor); [exact Hinv |].
  pose proof (wipe_host factor s (proj2 (proj2 Hinv))) as Hw.
  destruct (Qltb 0 factor); cbn [snd]; [apply populate_host |]; exact Hw.
Qed.

Lemma emptySimulator_host : HostInv emptySimulator.
Proof.
  split; [| split].
  - intros n nd p Hn. inversion Hn.
  - intros n nd Hn. inversion Hn.
  - intros p pod Hp. cbn in Hp. rewrite lookup_nil in Hp. discriminate.
Qed.

Lemma exec_host (c : Command) (s : OpenShiftSimulator) : HostInv s -> HostInv (exec c s).
Proof.
  destruct c; cbn [exec]; intros Hinv.
  - apply addWorkerNode_host, Hinv.
  - apply setTotalWorkerNodes_host, Hinv.
  - apply createNamespace_host, Hinv.
  - apply addDeployment_host, Hinv.
  - apply scaleDeployment_host, Hinv.
  - apply deleteDeployment_host, Hinv.
  - apply setSimulatedWorkloadFactor_host, Hinv.
Qed.

Lemma run_host (cmds : list Command) (s : OpenShiftSimulator) :
  HostInv s -> HostInv (run cmds s).
Proof.
  revert s. induction cmds as [|c cmds IH]; intros s Hinv; [exact Hinv |].
  cbn [run foldl]. apply (IH (exec c s)), exec_host, Hinv.
Qed.

Lemma constructor_host : HostInv constructor.
Proof. apply addWorkerNodes_host, emptySimulator_host. Qed.



(** ** Namespace accounting *)











Lemma Qfloor_nonneg (x : Q) : 0 <= x -> (0 <= Qfloor x)%Z.
Proof. intros H. change 0%Z with (Qfloor 0). apply Qfloor_resp_le. exact H. Qed.













(** * Further properties of the simulator *)

(** ** Objects keep their identity *)

(** An operation that creates no deployment. *)
Ltac no_new_deployment :=
  let d := fresh "d" in let dep := fresh "dep" in
  let Hge := fresh "Hge" in let Hlk := fresh "Hlk" in
  intros d dep Hge Hlk; apply lookup_lt_Some in Hlk;
  cbn [deploymentStore namespaceStore withDeployments withWorkerNodes withNamespaces
       withNamespaceStore withPodStore withNodeStore withNodeCounter withFactor
       withDeploymentStore updNamespace updDeployment updNode updPod] in *;
  rewrite ?length_alter in *; lia.

Lemma prefix_lookup_view {A B} (f : A -> B) (l l' : list A) (i : nat) (x : A) :
  map f l `prefix_of` map f l' -> l !! i = Some x ->
  exists x', l' !! i = Some x' /\ f x' = f x.
Proof.
  intros [k Hk] Hx.
  assert (H : map f l' !! i = Some (f x)).
  { rewrite Hk. apply lookup_app_l_Some. rewrite list_lookup_fmap, Hx. reflexivity. }
  rewrite list_lookup_fmap in H. destruct (l' !! i) as [x'|]; [| discriminate].
  exists x'. split; [reflexivity |]. cbn in H. congruence.
Qed.

Lemma Frozen_refl (s : OpenShiftSimulator) : Frozen s s.
Proof. split; try reflexivity. no_new_deployment. Qed.

Lemma Frozen_trans (s1 s2 s3 : OpenShiftSimulator) :
  Frozen s1 s2 -> Frozen s2 s3 -> Frozen s1 s3.
Proof.
  intros [A B C D E] [A' B' C' D' E']. split; try (etrans; eassumption).
  intros d dep Hge Hlk.
  destruct (decide (length (deploymentStore s2) <= d)%nat) as [Hge2|Hlt].
  { exact (E' d dep Hge2 Hlk). }
  destruct (lookup_lt_is_Some_2 (deploymentStore s2) d) as [dep2 Hdep2]; [lia |].
  destruct (prefix_lookup_view _ _ _ _ _ C' Hdep2) as (dep3 & Hdep3 & Hid).
  assert (dep3 = dep) as -> by congruence.
  pose proof (E d dep2 Hge Hdep2) as Hvalid.
  apply prefix_length in B'. rewrite !length_map in B'.
  unfold deploymentIdentity in Hid.
  assert (Deployment.namespace dep = Deployment.namespace dep2) as -> by congruence.
  lia.
Qed.

Lemma Frozen_foldl {X} (f : OpenShiftSimulator -> X -> OpenShiftSimulator)
    (l : list X) (s : OpenShiftSimulator) :
  (forall s x, Frozen s (f s x)) -> Frozen s (foldl f s l).
Proof.
  intros H. revert s. induction l as [|x l IH]; intros s; cbn [foldl].
  - apply Frozen_refl.
  - eapply Frozen_trans; [apply H | apply IH].
Qed.

Lemma placementOnly_Frozen (s s' : OpenShiftSimulator) :
  placementOnly s s' -> Frozen s s'.
Proof.
  intros H. pose proof (placementOnly_fields _ _ H) as (Hn & Hd & _).
  destruct H as (_ & HN & HP). split.
  - rewrite HN. reflexivity.
  - rewrite Hn. reflexivity.
  - rewrite Hd. reflexivity.
  - rewrite HP. reflexivity.
  - rewrite Hd. no_new_deployment.
Qed.

Lemma Frozen_withDeployments (l : list nat) (s : OpenShiftSimulator) :
  Frozen s (withDeployments l s).
Proof. split; try reflexivity. no_new_deployment. Qed.

Lemma Frozen_withWorkerNodes (l : list nat) (s : OpenShiftSimulator) :
  Frozen s (withWorkerNodes l s).
Proof. split; try reflexivity. no_new_deployment. Qed.

Lemma alter_missing {A} (f : A -> A) (i : nat) (l : list A) :
  l !! i = None -> alter f i l = l.
Proof.
  revert i. induction l as [|a l IH]; intros [|i] H; cbn in *;
    try reflexivity; try discriminate.
  f_equal. apply IH, H.
Qed.

Lemma Frozen_updNamespace (n : nat) (f : Namespace.t -> Namespace.t)
    (s : OpenShiftSimulator) :
  (forall ns, namespaceStore s !! n = Some ns -> namespaceIdentity (f ns) = namespaceIdentity ns) ->
  Frozen s (updNamespace n f s).
Proof.
  intros H. split; cbn [nodeStore namespaceStore deploymentStore podStore updNamespace
                        withNamespaceStore]; try reflexivity; [| no_new_deployment].
  destruct (namespaceStore s !! n) as [ns|] eqn:E.
  - rewrite (map_alter_same_at _ _ _ _ ns E (H ns eq_refl)). reflexivity.
  - rewrite alter_missing by exact E. reflexivity.
Qed.

Lemma Frozen_updDeployment (d : nat) (f : Deployment.t -> Deployment.t)
    (s : OpenShiftSimulator) :
  (forall dep, deploymentStore s !! d = Some dep ->
               deploymentIdentity (f dep) = deploymentIdentity dep) ->
  Frozen s (updDeployment d f s).
Proof.
  intros H. split; cbn [nodeStore namespaceStore deploymentStore podStore updDeployment
                        withDeploymentStore]; try reflexivity; [| no_new_deployment].
  destruct (deploymentStore s !! d) as [dep|] eqn:E.
  - rewrite (map_alter_same_at _ _ _ _ dep E (H dep eq_refl)). reflexivity.
  - rewrite alter_missing by exact E. reflexivity.
Qed.

Lemma allocateResources_identity (cpu mem : Q) (ns : Namespace.t) :
  namespaceIdentity (snd (Namespace.allocateResources cpu mem ns)) = namespaceIdentity ns.
Proof. unfold Namespace.allocateResources. destruct (Namespace.fits cpu mem ns); reflexivity. Qed.

Lemma createNamespace_Frozen (name : string) (cq mq : Q) (s : OpenShiftSimulator) :
  Frozen s (snd (createNamespace name cq mq s)).
Proof.
  unfold createNamespace. destruct (namespaces s !! name); [apply Frozen_refl |].
  split; cbn; try reflexivity; [| no_new_deployment].
  rewrite map_app. apply prefix_app_r. reflexivity.
Qed.

Lemma addDeployment_Frozen (name nsName : string) (rc : Z) (cpu mem : Q)
    (s : OpenShiftSimulator) :
  Frozen s (snd (addDeployment name nsName rc cpu mem s)).
Proof.
  unfold addDeployment.
  destruct (namespaces s !! nsName) as [nsId|]; [| apply Frozen_refl].
  destruct (namespaceStore s !! nsId) as [ns|] eqn:Hns; [| apply Frozen_refl].
  pose proof (allocateResources_identity (inject_Z rc * cpu) (inject_Z rc * mem) ns) as Hid.
  destruct (Namespace.allocateResources _ _ ns) as [ok ns'].
  destruct ok; cbn [negb]; [| apply Frozen_refl].
  unfold newDeployment, Deployment.createPods. cbn [snd] in *.
  eapply Frozen_trans;
    [| apply placementOnly_Frozen, allocateDeploymentPods_placementOnly].
  eapply Frozen_trans; [| apply Frozen_updNamespace; reflexivity].
  eapply Frozen_trans; [apply (Frozen_updNamespace nsId (fun _ => ns')) |].
  { intros ns0 E. congruence. }
  split; cbn; try reflexivity; try (rewrite map_app; apply prefix_app_r; reflexivity).
  intros d dep Hge Hlk. apply lookup_app_Some in Hlk as [Hlk|[_ Hlk]].
  { apply lookup_lt_Some in Hlk. lia. }
  apply list_lookup_singleton_Some in Hlk as [_ <-]. cbn.
  rewrite length_alter. apply lookup_lt_Some in Hns. exact Hns.
Qed.

Lemma regeneratePods_Frozen (d : nat) (n : Z) (s : OpenShiftSimulator) :
  Frozen s (regeneratePods d n s).
Proof.
  unfold regeneratePods. destruct (deploymentStore s !! d) as [dep|] eqn:E;
    [| apply Frozen_refl].
  unfold Deployment.createPods.
  eapply Frozen_trans; [apply (Frozen_updDeployment d) |].
  2: { split; cbn; try reflexivity; [| no_new_deployment].
       rewrite map_app. apply prefix_app_r. reflexivity. }
  intros dep0 E0. cbn. assert (dep0 = dep) as -> by congruence. reflexivity.
Qed.

Lemma scaleDeployment_Frozen (name : string) (n : Z) (s : OpenShiftSimulator) :
  Frozen s (snd (scaleDeployment name n s)).
Proof.
  unfold scaleDeployment.
  destruct (findDeployment name s) as [[i d]|]; [| apply Frozen_refl].
  destruct (deploymentStore s !! d) as [dep|] eqn:Hd; [| apply Frozen_refl].
  match goal with |- context [regeneratePods d n ?x] => set (s2 := x) end.
  assert (H2 : Frozen s s2).
  { eapply Frozen_trans;
      [| apply placementOnly_Frozen, foldl_unbindPod_placementOnly].
    apply Frozen_updNamespace. reflexivity. }
  set (s3 := regeneratePods d n s2).
  assert (H3 : Frozen s s3).
  { eapply Frozen_trans; [exact H2 | apply regeneratePods_Frozen]. }
  destruct (namespaceStore s3 !! _) as [ns|] eqn:Hns; [| exact H3].
  pose proof (allocateResources_identity
                (inject_Z n * Deployment.cpuRequestPerReplica dep)
                (inject_Z n * Deployment.memoryRequestPerReplica dep) ns) as Hid.
  destruct (Namespace.allocateResources _ _ ns) as [ok ns'].
  cbn [snd] in Hid. destruct ok; cbn [negb].
  - cbn [snd]. eapply Frozen_trans; [exact H3 |].
    eapply Frozen_trans;
      [| apply placementOnly_Frozen, allocateDeploymentPods_placementOnly].
    apply Frozen_updNamespace. intros ns0 E. congruence.
  - pose proof (allocateResources_identity (Deployment.totalCpu dep)
                  (Deployment.totalMemory dep) ns') as Hid'.
    destruct (Namespace.allocateResources _ _ ns') as [ok' ns''].
    cbn [snd] in *. eapply Frozen_trans; [exact H3 |].
    apply Frozen_updNamespace. intros ns0 E. congruence.
Qed.

Lemma deleteDeployment_Frozen (name : string) (s : OpenShiftSimulator) :
  Frozen s (snd (deleteDeployment name s)).
Proof.
  unfold deleteDeployment.
  destruct (findDeployment name s) as [[i d]|]; [| apply Frozen_refl].
  destruct (deploymentStore s !! d) as [dep|]; [| apply Frozen_refl].
  cbn [snd].
  eapply Frozen_trans; [| apply Frozen_withDeployments].
  eapply Frozen_trans;
    [| apply placementOnly_Frozen, foldl_unbindPod_placementOnly].
  eapply Frozen_trans; [| apply Frozen_updNamespace; reflexivity].
  apply Frozen_updNamespace. reflexivity.
Qed.

Lemma wipe_Frozen (factor : Q) (s : OpenShiftSimulator) : Frozen s (wipe factor s).
Proof.
  unfold wipe.
  pose proof (placementOnly_Frozen _ _
    (clearNodes_placementOnly (workerNodes (withFactor factor s)) (withFactor factor s)))
    as [A B C D E].
  split; assumption.
Qed.

Lemma populate_Frozen (factor : Q) (random : nat -> Q) (s : OpenShiftSimulator) :
  Frozen s (populate factor random s).
Proof.
  unfold populate. apply Frozen_foldl. intros s0 i.
  eapply Frozen_trans; [apply createNamespace_Frozen |].
  apply Frozen_foldl. intros s1 j. apply addDeployment_Frozen.
Qed.

Lemma addWorkerNode_Frozen (name : option string) (cpu memory : option Q)
    (s : OpenShiftSimulator) :
  Frozen s (snd (addWorkerNode name cpu memory s)).
Proof.
  split; cbn; try reflexivity; [| no_new_deployment].
  rewrite map_app. apply prefix_app_r. reflexivity.
Qed.

Lemma addWorkerNodes_Frozen (k : nat) (name : option string) (cpu memory : option Q)
    (s : OpenShiftSimulator) :
  Frozen s (addWorkerNodes k name cpu memory s).
Proof.
  revert s. induction k as [|k IH]; intros s; cbn [addWorkerNodes]; [apply Frozen_refl |].
  eapply Frozen_trans; [apply addWorkerNode_Frozen | apply IH].
Qed.

Lemma exec_Frozen (c : Command) (s : OpenShiftSimulator) : Frozen s (exec c s).
Proof.
  destruct c; cbn [exec].
  - apply addWorkerNode_Frozen.
  - unfold setTotalWorkerNodes.
    destruct (targetCount <? _)%Z; [| destruct (targetCount >? _)%Z]; cbn [snd].
    + eapply Frozen_trans;
        [| apply placementOnly_Frozen, reallocateAllPods_placementOnly].
      apply Frozen_withWorkerNodes.
    + eapply Frozen_trans;
        [| apply placementOnly_Frozen, reallocateAllPods_placementOnly].
      apply addWorkerNodes_Frozen.
    + apply Frozen_refl.
  - apply createNamespace_Frozen.
  - apply addDeployment_Frozen.
  - apply scaleDeployment_Frozen.
  - apply deleteDeployment_Frozen.
  - unfold setSimulatedWorkloadFactor.
    destruct (Qltb factor 0 || Qltb 1 factor); [apply Frozen_refl |].
    destruct (Qltb 0 factor); cbn [snd]; [| apply wipe_Frozen].
    eapply Frozen_trans; [apply wipe_Frozen | apply populate_Frozen].
Qed.

Lemma run_Frozen (cmds : list Command) (s : OpenShiftSimulator) : Frozen s (run cmds s).
Proof.
  unfold run. apply Frozen_foldl. intros. apply exec_Frozen.
Qed.

(** X1: whatever operations are run, an object that exists keeps what
    identifies it: a node its name and capacities, a namespace its name and
    quotas, a deployment its name, namespace and per-replica requests, a pod
    its name and requests. *)
Theorem identities_never_change (cmds : list Command) (s : OpenShiftSimulator) :
  let s' := run cmds s in
  (forall n nd, nodeStore s !! n = Some nd ->
     exists nd', nodeStore s' !! n = Some nd' /\
                 WorkerNode.name nd' = WorkerNode.name nd /\
                 WorkerNode.cpuCapacity nd' = WorkerNode.cpuCapacity nd /\
                 WorkerNode.memoryCapacity nd' = WorkerNode.memoryCapacity nd) /\
  (forall n ns, namespaceStore s !! n = Some ns ->
     exists ns', namespaceStore s' !! n = Some ns' /\
                 Namespace.name ns' = Namespace.name ns /\
                 Namespace.cpuQuota ns' = Namespace.cpuQuota ns /\
                 Namespace.memoryQuota ns' = Namespace.memoryQuota ns) /\
  (forall d dep, deploymentStore s !! d = Some dep ->
     exists dep', deploymentStore s' !! d = Some dep' /\
                  Deployment.name dep' = Deployment.name dep /\
                  Deployment.namespace dep' = Deployment.namespace dep /\
                  Deployment.cpuRequestPerReplica dep' = Deployment.cpuRequestPerReplica dep /\
                  Deployment.memoryRequestPerReplica dep'
                  = Deployment.memoryRequestPerReplica dep) /\
  (forall p pod, podStore s !! p = Some pod ->
     exists pod', podStore s' !! p = Some pod' /\
                  Pod.name pod' = Pod.name pod /\
                  Pod.cpuRequest pod' = Pod.cpuRequest pod /\
                  Pod.memoryRequest pod' = Pod.memoryRequest pod).
Proof.
  intros s'. destruct (run_Frozen cmds s) as [A B C D _]. fold s' in A, B, C, D.
  split; [| split; [| split]].
  - intros n nd H. destruct (prefix_lookup_view _ _ _ _ _ A H) as (nd' & H' & E).
    exists nd'. unfold WorkerNode.identity in E. split; [exact H' |].
    repeat split; congruence.
  - intros n ns H. destruct (prefix_lookup_view _ _ _ _ _ B H) as (ns' & H' & E).
    exists ns'. unfold namespaceIdentity in E. split; [exact H' |].
    repeat split; congruence.
  - intros d dep H. destruct (prefix_lookup_view _ _ _ _ _ C H) as (dep' & H' & E).
    exists dep'. unfold deploymentIdentity in E. split; [exact H' |].
    repeat split; congruence.
  - intros p pod H. destruct (prefix_lookup_view _ _ _ _ _ D H) as (pod' & H' & E).
    exists pod'. unfold Pod.template in E. split; [exact H' |].
    repeat split; congruence.
Qed.

(** ** Quotas are never exceeded *)

Lemma footprint_nonneg (rc : Z) (x : Q) : (0 <= rc)%Z -> 0 <= x -> 0 <= inject_Z rc * x.
Proof.
  intros Hrc Hx. apply Qmult_le_0_compat; [| exact Hx].
  change 0 with (inject_Z 0). rewrite <- Zle_Qle. exact Hrc.
Qed.

Lemma clampNeg_le (x y : Q) : x <= y -> 0 <= y -> clampNeg x <= y.
Proof.
  intros Hxy Hy. unfold clampNeg. destruct (Qltb x 0); assumption.
Qed.

Lemma new_withinQuota (name : string) (cq mq : Q) : withinQuota (Namespace.new name cq mq).
Proof. unfold withinQuota. cbn. repeat split; try lra; auto. Qed.

Lemma allocate_withinQuota (cpu mem : Q) (ns : Namespace.t) :
  0 <= cpu -> 0 <= mem -> withinQuota ns ->
  withinQuota (snd (Namespace.allocateResources cpu mem ns)).
Proof.
  intros Hc Hm (A & B & C & D). unfold Namespace.allocateResources.
  destruct (Namespace.fits cpu mem ns) eqn:E; cbn [snd]; [| repeat split; assumption].
  apply fits_iff in E as (E1 & E2). unfold withinQuota. cbn.
  repeat split; try lra; auto.
Qed.

Lemma deallocate_withinQuota (cpu mem : Q) (ns : Namespace.t) :
  0 <= cpu -> 0 <= mem -> withinQuota ns ->
  withinQuota (Namespace.deallocateResources cpu mem ns).
Proof.
  intros Hc Hm (A & B & C & D). unfold withinQuota. cbn.
  split; [apply clampNeg_nonneg |]. split.
  { intros Hq. apply clampNeg_le; [specialize (B Hq); lra | exact Hq]. }
  split; [apply clampNeg_nonneg |].
  intros Hq. apply clampNeg_le; [specialize (D Hq); lra | exact Hq].
Qed.

Lemma QuotaInv_ext (s s' : OpenShiftSimulator) :
  namespaceStore s' = namespaceStore s -> deploymentStore s' = deploymentStore s ->
  QuotaInv s -> QuotaInv s'.
Proof. intros En Ed [A B]. split; [rewrite Ed | rewrite En]; assumption. Qed.

Lemma QuotaInv_placementOnly (s s' : OpenShiftSimulator) :
  placementOnly s s' -> QuotaInv s -> QuotaInv s'.
Proof.
  intros H. apply placementOnly_fields in H as (En & Ed & _). apply QuotaInv_ext; assumption.
Qed.

Lemma QuotaInv_updNamespace (n : nat) (f : Namespace.t -> Namespace.t)
    (s : OpenShiftSimulator) :
  (forall ns, namespaceStore s !! n = Some ns -> withinQuota ns -> withinQuota (f ns)) ->
  QuotaInv s -> QuotaInv (updNamespace n f s).
Proof.
  intros Hf [A B]. split; [exact A |].
  intros m ns. cbn [namespaceStore updNamespace withNamespaceStore].
  rewrite list_lookup_alter. destruct (decide (n = m)) as [->|Hne]; [| apply B].
  destruct (namespaceStore s !! m) as [ns0|] eqn:E; [| discriminate].
  cbn. intros [= <-]. apply Hf; [reflexivity | apply (B m), E].
Qed.

Lemma QuotaInv_append (dep : Deployment.t) (s s' : OpenShiftSimulator) :
  namespaceStore s' = namespaceStore s ->
  deploymentStore s' = deploymentStore s ++ [dep] ->
  nonnegDeployment dep -> QuotaInv s -> QuotaInv s'.
Proof.
  intros En Ed Hdep [A B]. split; [| rewrite En; exact B].
  intros d dep0. rewrite Ed. intros H.
  apply lookup_app_Some in H as [H|[_ H]]; [exact (A d dep0 H) |].
  apply list_lookup_singleton_Some in H as [_ <-]. exact Hdep.
Qed.

Lemma QuotaInv_updDeployment (d : nat) (dep' : Deployment.t) (s s' : OpenShiftSimulator) :
  namespaceStore s' = namespaceStore s ->
  deploymentStore s' = alter (fun _ => dep') d (deploymentStore s) ->
  nonnegDeployment dep' -> QuotaInv s -> QuotaInv s'.
Proof.
  intros En Ed Hdep [A B]. split; [| rewrite En; exact B].
  intros d0 dep0. rewrite Ed, list_lookup_alter.
  destruct (decide (d = d0)) as [->|Hne]; [| apply A].
  destruct (deploymentStore s !! d0); [| discriminate]. cbn. intros [= <-]. exact Hdep.
Qed.

Lemma createNamespace_quota (name : string) (cq mq : Q) (s : OpenShiftSimulator) :
  QuotaInv s -> QuotaInv (snd (createNamespace name cq mq s)).
Proof.
  intros [A B]. unfold createNamespace.
  destruct (namespaces s !! name); [split; assumption |].
  split; [exact A |]. intros n ns. cbn. intros H.
  apply lookup_app_Some in H as [H|[_ H]]; [exact (B n ns H) |].
  apply list_lookup_singleton_Some in H as [_ <-]. apply new_withinQuota.
Qed.

Lemma addDeployment_quota (name nsName : string) (rc : Z) (cpu mem : Q)
    (s : OpenShiftSimulator) :
  (0 <= rc)%Z -> 0 <= cpu -> 0 <= mem ->
  QuotaInv s -> QuotaInv (snd (addDeployment name nsName rc cpu mem s)).
Proof.
  intros Hrc Hc Hm Hinv. unfold addDeployment.
  destruct (namespaces s !! nsName) as [nsId|]; [| exact Hinv].
  destruct (namespaceStore s !! nsId) as [ns|] eqn:Hns; [| exact Hinv].
  pose proof (fun H => allocate_withinQuota (inject_Z rc * cpu) (inject_Z rc * mem) ns
                (footprint_nonneg _ _ Hrc Hc) (footprint_nonneg _ _ Hrc Hm) H) as Hal.
  destruct (Namespace.allocateResources _ _ ns) as [ok ns'].
  destruct ok; cbn [negb]; [| exact Hinv].
  unfold newDeployment, Deployment.createPods. cbn [snd] in *.
  eapply QuotaInv_placementOnly; [apply allocateDeploymentPods_placementOnly |].
  apply QuotaInv_updNamespace.
  { intros ns0 _ (A & B & C & D). repeat split; assumption. }
  eapply (QuotaInv_append _ (updNamespace nsId (fun _ => ns') s));
    [reflexivity | reflexivity | repeat split; assumption |].
  apply QuotaInv_updNamespace; [| exact Hinv].
  intros ns0 E Hw. apply Hal. congruence.
Qed.

Lemma scaleDeployment_quota (name : string) (n : Z) (s : OpenShiftSimulator) :
  (0 <= n)%Z -> QuotaInv s -> QuotaInv (snd (scaleDeployment name n s)).
Proof.
  intros Hn Hinv. unfold scaleDeployment.
  destruct (findDeployment name s) as [[i d]|]; [| exact Hinv].
  destruct (deploymentStore s !! d) as [dep|] eqn:Hd; [| exact Hinv].
  destruct (proj1 Hinv d dep Hd) as (Hrc & Hc & Hm).
  rewrite (scale_before_test s d dep n _ Hd).
  match goal with |- context [namespaceStore ?x !! _] => set (s3 := x) end.
  assert (H3 : QuotaInv s3).
  { unfold s3.
    eapply (QuotaInv_updDeployment d _
              (updNamespace (Deployment.namespace dep)
                 (Namespace.deallocateResources (Deployment.totalCpu dep)
                    (Deployment.totalMemory dep))
                 (foldl unbindPod s (Deployment.pods dep))));
      [reflexivity | reflexivity | repeat split; assumption |].
    apply QuotaInv_updNamespace.
    - intros ns0 _. apply deallocate_withinQuota; apply footprint_nonneg; assumption.
    - eapply QuotaInv_placementOnly; [apply foldl_unbindPod_placementOnly | exact Hinv]. }
  destruct (namespaceStore s3 !! _) as [ns|] eqn:Hns; [| exact H3].
  pose proof (allocate_withinQuota
                (inject_Z n * Deployment.cpuRequestPerReplica dep)
                (inject_Z n * Deployment.memoryRequestPerReplica dep) ns
                (footprint_nonneg _ _ Hn Hc) (footprint_nonneg _ _ Hn Hm)
                (proj2 H3 _ _ Hns)) as Hal.
  destruct (Namespace.allocateResources _ _ ns) as [ok ns'].
  cbn [snd] in Hal. destruct ok; cbn [negb].
  - cbn [snd]. eapply QuotaInv_placementOnly; [apply allocateDeploymentPods_placementOnly |].
    apply QuotaInv_updNamespace; [intros; exact Hal | exact H3].
  - pose proof (allocate_withinQuota (Deployment.totalCpu dep) (Deployment.totalMemory dep)
                  ns' (footprint_nonneg _ _ Hrc Hc) (footprint_nonneg _ _ Hrc Hm) Hal)
      as Hal'.
    destruct (Namespace.allocateResources _ _ ns') as [ok' ns''].
    cbn [snd] in *. apply QuotaInv_updNamespace; [intros; exact Hal' | exact H3].
Qed.

Lemma deleteDeployment_quota (name : string) (s : OpenShiftSimulator) :
  QuotaInv s -> QuotaInv (snd (deleteDeployment name s)).
Proof.
  intros Hinv. unfold deleteDeployment.
  destruct (findDeployment name s) as [[i d]|]; [| exact Hinv].
  destruct (deploymentStore s !! d) as [dep|] eqn:Hd; [| exact Hinv].
  destruct (proj1 Hinv d dep Hd) as (Hrc & Hc & Hm).
  cbn [snd].
  match goal with |- QuotaInv (withDeployments _ ?x) =>
    apply (QuotaInv_ext x); [reflexivity | reflexivity |] end.
  eapply QuotaInv_placementOnly; [apply foldl_unbindPod_placementOnly |].
  apply QuotaInv_updNamespace.
  { intros ns0 _ (A & B & C & D). repeat split; assumption. }
  apply QuotaInv_updNamespace; [| exact Hinv].
  intros ns0 _. apply deallocate_withinQuota; apply footprint_nonneg; assumption.
Qed.

Lemma wipe_quota (factor : Q) (s : OpenShiftSimulator) : QuotaInv s -> QuotaInv (wipe factor s).
Proof.
  intros Hinv. unfold wipe.
  pose proof (placementOnly_fields _ _
    (clearNodes_placementOnly (workerNodes (withFactor factor s)) (withFactor factor s)))
    as (En & Ed & _).
  eapply QuotaInv_ext; [| | exact Hinv]; [exact En | exact Ed].
Qed.

Lemma populate_quota (factor : Q) (random : nat -> Q) (s : OpenShiftSimulator) :
  (forall k, 0 <= random k /\ random k < 1) ->
  QuotaInv s -> QuotaInv (populate factor random s).
Proof.
  intros Hrandom Hinv. unfold populate.
  apply (foldl_preserves QuotaInv); [| exact Hinv].
  intros s0 i H0. apply (foldl_preserves QuotaInv).
  - intros s1 j H1. apply addDeployment_quota; try apply Qmax_floor_nonneg; [| exact H1].
    match goal with |- (0 <= Qfloor (random ?k * 3) + 1)%Z =>
      pose proof (Qfloor_nonneg (random k * 3)) as Hf; destruct (Hrandom k) end.
    assert (0 <= Qfloor (random (i * Z.to_nat (Z.max 1 (Z.min 10 (Qceiling (factor * 10)))) + j)%nat * 3))%Z
      by (apply Hf; lra).
    lia.
  - apply createNamespace_quota. exact H0.
Qed.

Lemma exec_quota (c : Command) (s : OpenShiftSimulator) :
  validArgs c -> QuotaInv s -> QuotaInv (exec c s).
Proof.
  destruct c; cbn [exec validArgs]; intros Hv Hinv.
  - apply (QuotaInv_ext s); [reflexivity | reflexivity | exact Hinv].
  - unfold setTotalWorkerNodes.
    destruct (targetCount <? _)%Z; [| destruct (targetCount >? _)%Z]; cbn [snd];
      [| | exact Hinv];
      (eapply QuotaInv_placementOnly; [apply reallocateAllPods_placementOnly |]).
    + apply (QuotaInv_ext s); [reflexivity | reflexivity | exact Hinv].
    + rewrite addWorkerNodes_spec.
      apply (QuotaInv_ext s); [reflexivity | reflexivity | exact Hinv].
  - apply createNamespace_quota, Hinv.
  - apply addDeployment_quota; tauto.
  - apply scaleDeployment_quota; assumption.
  - apply deleteDeployment_quota, Hinv.
  - unfold setSimulatedWorkloadFactor.
    destruct (Qltb factor 0 || Qltb 1 factor); [exact Hinv |].
    destruct (Qltb 0 factor); cbn [snd]; [apply populate_quota; [exact Hv |] |];
      apply wipe_quota, Hinv.
Qed.

Lemma run_quota (cmds : list Command) (s : OpenShiftSimulator) :
  Forall validArgs cmds -> QuotaInv s -> QuotaInv (run cmds s).
Proof.
  revert s. induction cmds as [|c cmds IH]; intros s Hv Hinv; [exact Hinv |].
  apply Forall_cons in Hv as [Hc Hv]. cbn [run foldl].
  apply (IH (exec c s) Hv). apply exec_quota; assumption.
Qed.

Lemma constructor_quota : QuotaInv constructor.
Proof. split; intros i x H; cbn in H; rewrite lookup_nil in H; discriminate. Qed.

(** X2: whatever operations are run on a new simulator with arguments that
    are not negative, no counter of a namespace is ever negative, and a
    namespace whose quota is not negative never holds more than its quota. *)
Theorem quota_never_exceeded (cmds : list Command) :
  Forall validArgs cmds ->
  let s := run cmds constructor in
  forall name n ns,
    namespaces s !! name = Some n -> namespaceStore s !! n = Some ns ->
    0 <= Namespace.cpuAllocated ns /\
    (0 <= Namespace.cpuQuota ns -> Namespace.cpuAllocated ns <= Namespace.cpuQuota ns) /\
    0 <= Namespace.memoryAllocated ns /\
    (0 <= Namespace.memoryQuota ns ->
     Namespace.memoryAllocated ns <= Namespace.memoryQuota ns).
Proof.
  intros Hv s name n ns _ Hns.
  exact (proj2 (run_quota cmds constructor Hv constructor_quota) n ns Hns).
Qed.

Lemma quota_never_exceeded_witness :
  let cmds := [CreateNamespace "a" 10 100; AddDeployment "d1" "a" 2 3 40;
               ScaleDeployment "d1" 4; AddDeployment "d2" "a" 1 4 20;
               DeleteDeployment "d1"] in
  Forall validArgs cmds /\
  forall ns,
    namespaceStore (run cmds constructor) !! 0%nat = Some ns ->
    Namespace.cpuAllocated ns <= Namespace.cpuQuota ns.
Proof.
  cbv zeta.
  assert (Hv : Forall validArgs
                 [CreateNamespace "a" 10 100; AddDeployment "d1" "a" 2 3 40;
                  ScaleDeployment "d1" 4; AddDeployment "d2" "a" 1 4 20;
                  DeleteDeployment "d1"]).
  { repeat constructor; cbn; try lia; try lra. }
  split; [exact Hv |]. intros ns Hns.
  destruct (quota_never_exceeded _ Hv "a" 0%nat ns eq_refl Hns) as (_ & H & _).
  apply H. vm_compute in Hns. injection Hns as <-. cbn. lra.
Defined.

(** ** Generated node names are unique *)

Lemma prefix_same_length {A} (l l' : list A) :
  l `prefix_of` l' -> length l' = length l -> l' = l.
Proof.
  intros [k ->] H. rewrite length_app in H. destruct k; [apply app_nil_r |].
  cbn in H. lia.
Qed.

Lemma NameInv_keepsPool (s s' : OpenShiftSimulator) :
  keepsPool s s' -> Frozen s s' -> NameInv s -> NameInv s'.
Proof.
  intros (Hw & Hl & Hc) [Hn _ _ _ _] (A & B & C & D).
  assert (E : map WorkerNode.identity (nodeStore s') = map WorkerNode.identity (nodeStore s)).
  { apply prefix_same_length; [exact Hn |]. rewrite !length_map. exact Hl. }
  split; [congruence |]. split; [| split].
  - intros i nd' H.
    assert (H' : map WorkerNode.identity (nodeStore s) !! i = Some (WorkerNode.identity nd')).
    { rewrite <- E, list_lookup_fmap, H. reflexivity. }
    rewrite list_lookup_fmap in H'. destruct (nodeStore s !! i) as [nd|] eqn:Ei; [| discriminate].
    cbn in H'. injection H' as H'. rewrite <- (B i nd Ei). unfold WorkerNode.identity in H'.
    congruence.
  - rewrite Hw. exact C.
  - exact (poolValid_keepsPool s s' (conj Hw (conj Hl Hc)) D).
Qed.

Lemma NameInv_placementOnly (s s' : OpenShiftSimulator) :
  placementOnly s s' -> NameInv s -> NameInv s'.
Proof.
  intros H. apply NameInv_keepsPool;
    [apply placementOnly_keepsPool | apply placementOnly_Frozen]; exact H.
Qed.

Lemma addWorkerNode_named (name : option string) (cpu memory : option Q)
    (s : OpenShiftSimulator) :
  nameGiven name = None -> NameInv s -> NameInv (snd (addWorkerNode name cpu memory s)).
Proof.
  intros Hname (A & B & C & D). unfold addWorkerNode, NameInv. rewrite Hname.
  cbn [snd default nodeCounter nodeStore workerNodes withWorkerNodes withNodeStore
       withNodeCounter].
  split; [rewrite length_app; cbn; lia |]. split; [| split].
  - intros i nd H. apply lookup_app_Some in H as [H|[Hge H]]; [exact (B i nd H) |].
    apply list_lookup_singleton_Some in H as [Hi <-]. cbn.
    rewrite A. do 2 f_equal. lia.
  - apply NoDup_app. split; [exact C |]. split; [| apply NoDup_singleton].
    intros n Hn Hn'. apply list_elem_of_singleton in Hn'. specialize (D n Hn). lia.
  - apply (addWorkerNode_poolValid name cpu memory s) in D.
    unfold addWorkerNode in D. rewrite Hname in D. exact D.
Qed.

Lemma addWorkerNodes_named (k : nat) (cpu memory : option Q) (s : OpenShiftSimulator) :
  NameInv s -> NameInv (addWorkerNodes k None cpu memory s).
Proof.
  revert s. induction k as [|k IH]; intros s H; [exact H |].
  cbn [addWorkerNodes]. apply IH, addWorkerNode_named; [reflexivity | exact H].
Qed.

Lemma exec_named (c : Command) (s : OpenShiftSimulator) :
  autoNamed c -> NameInv s -> NameInv (exec c s).
Proof.
  destruct c; cbn [exec autoNamed]; intros Hv Hinv.
  - apply addWorkerNode_named; assumption.
  - unfold setTotalWorkerNodes.
    destruct (targetCount <? _)%Z; [| destruct (targetCount >? _)%Z]; cbn [snd];
      [| | exact Hinv];
      (eapply NameInv_placementOnly; [apply reallocateAllPods_placementOnly |]).
    + destruct Hinv as (A & B & C & D). split; [exact A |]. split; [exact B |].
      cbn [workerNodes nodeStore withWorkerNodes]. unfold spliceFrom. split.
      * eapply sublist_NoDup; [exact C | apply sublist_take].
      * intros n Hn. cbn [workerNodes nodeStore withWorkerNodes] in Hn.
        apply elem_of_take in Hn as (i & Hi & _). apply D.
        eapply list_elem_of_lookup_2. exact Hi.
    + apply addWorkerNodes_named, Hinv.
  - exact (NameInv_keepsPool _ _ (createNamespace_keepsPool _ _ _ s)
             (createNamespace_Frozen _ _ _ s) Hinv).
  - exact (NameInv_keepsPool _ _ (addDeployment_keepsPool _ _ _ _ _ s)
             (addDeployment_Frozen _ _ _ _ _ s) Hinv).
  - exact (NameInv_keepsPool _ _ (scaleDeployment_keepsPool _ _ s)
             (scaleDeployment_Frozen _ _ s) Hinv).
  - exact (NameInv_keepsPool _ _ (deleteDeployment_keepsPool _ s)
             (deleteDeployment_Frozen _ s) Hinv).
  - exact (NameInv_keepsPool _ _ (setSimulatedWorkloadFactor_keepsPool _ _ s)
             (exec_Frozen (SetSimulatedWorkloadFactor factor random) s) Hinv).
Qed.

Lemma run_named (cmds : list Command) (s : OpenShiftSimulator) :
  Forall autoNamed cmds -> NameInv s -> NameInv (run cmds s).
Proof.
  revert s. induction cmds as [|c cmds IH]; intros s Hv Hinv; [exact Hinv |].
  apply Forall_cons in Hv as [Hc Hv]. cbn [run foldl].
  apply (IH (exec c s) Hv). apply exec_named; assumption.
Qed.

Lemma constructor_named : NameInv constructor.
Proof.
  apply addWorkerNodes_named. split; [reflexivity |]. split; [| split].
  - intros i nd H. cbn in H. rewrite lookup_nil in H. discriminate.
  - constructor.
  - intros n Hn. inversion Hn.
Qed.

(** X3: on a new simulator, as long as no node is added under a name chosen
    by the caller, the nodes of the pool have pairwise distinct names: the
    node created as number [k] is named [worker-node-k], the counter is the
    number of nodes ever created, and a node removed from the pool never
    gives its name to a later one. *)
Theorem generated_node_names_unique (cmds : list Command) :
  Forall autoNamed cmds ->
  let s := run cmds constructor in
  nodeCounter s = length (nodeStore s) /\
  (forall i n, workerNodes s !! i = Some n ->
     exists nd, nodeStore s !! n = Some nd /\
                WorkerNode.name nd = "worker-node-" +:+ pretty (S n) /\
                (S n <= nodeCounter s)%nat) /\
  (forall i j n m nd nd',
     workerNodes s !! i = Some n -> workerNodes s !! j = Some m ->
     nodeStore s !! n = Some nd -> nodeStore s !! m = Some nd' ->
     WorkerNode.name nd = WorkerNode.name nd' -> i = j).
Proof.
  intros Hv s. destruct (run_named cmds constructor Hv constructor_named) as (A & B & C & D).
  fold s in A, B, C, D. split; [exact A |]. split.
  - intros i n Hi. assert (Hn : (n < length (nodeStore s))%nat).
    { apply D. eapply list_elem_of_lookup_2. exact Hi. }
    destruct (lookup_lt_is_Some_2 _ _ Hn) as [nd Hnd]. exists nd.
    split; [exact Hnd |]. split; [exact (B n nd Hnd) | lia].
  - intros i j n m nd nd' Hi Hj Hn Hm E.
    rewrite (B n nd Hn), (B m nd' Hm) in E.
    apply (inj (String.append "worker-node-")) in E. apply (inj pretty) in E.
    injection E as ->. exact (NoDup_lookup _ _ _ _ C Hi Hj).
Qed.

Lemma generated_node_names_unique_witness :
  let cmds := [SetTotalWorkerNodes 1; AddWorkerNode None (Some 64) None;
               SetTotalWorkerNodes 4; DeleteDeployment "d"] in
  Forall autoNamed cmds /\
  nodeCounter (run cmds constructor) = length (nodeStore (run cmds constructor)).
Proof.
  cbv zeta.
  assert (Hv : Forall autoNamed
                 [SetTotalWorkerNodes 1; AddWorkerNode None (Some 64) None;
                  SetTotalWorkerNodes 4; DeleteDeployment "d"]).
  { repeat constructor. }
  split; [exact Hv |]. exact (proj1 (generated_node_names_unique _ Hv)).
Defined.

(** ** Resizing the pool with a negative target *)



(** ** Reachable states *)

Lemma run_snoc (cmds : list Command) (c : Command) (s : OpenShiftSimulator) :
  run (cmds ++ [c]) s = exec c (run cmds s).
Proof. unfold run. rewrite foldl_app. reflexivity. Qed.

Lemma reachable_constructor : reachable constructor.
Proof. exists []. split; [constructor | reflexivity]. Qed.

Lemma reachable_exec (c : Command) (s : OpenShiftSimulator) :
  validArgs c -> reachable s -> reachable (exec c s).
Proof.
  intros Hc (cmds & Hv & ->). exists (cmds ++ [c]). split.
  - apply Forall_app. split; [exact Hv | repeat constructor; exact Hc].
  - symmetry. apply run_snoc.
Qed.

Lemma reachable_NodeInv (s : OpenShiftSimulator) : reachable s -> NodeInv s.
Proof. intros (cmds & Hv & ->). exact (run_inv cmds constructor Hv constructor_inv). Qed.

Lemma reachable_HostInv (s : OpenShiftSimulator) : reachable s -> HostInv s.
Proof. intros (cmds & Hv & ->). exact (run_host cmds constructor constructor_host). Qed.


Lemma reachable_poolValid (s : OpenShiftSimulator) : reachable s -> poolValid s.
Proof. intros (cmds & Hv & ->). apply run_poolValid. Qed.

Lemma reachable_Structured (s : OpenShiftSimulator) : reachable s -> Structured s.
Proof. intros H. exact (proj1 (reachable_NodeInv s H)). Qed.

(** ** addDeployment: when it is accepted and what it builds *)

Lemma alter_alter_const {A} (f : A -> A) (y : A) (i : nat) (l : list A) :
  alter f i (alter (fun _ => y) i l) = <[i := f y]> l.
Proof.
  revert i. induction l as [|a l IH]; intros [|i]; cbn; try reflexivity.
  f_equal. apply IH.
Qed.

Lemma addDeployment_accepted (name nsName : string) (rc : Z) (cpu mem : Q)
    (s : OpenShiftSimulator) (nsId : nat) (ns : Namespace.t) :
  namespaces s !! nsName = Some nsId -> namespaceStore s !! nsId = Some ns ->
  Namespace.fits (inject_Z rc * cpu) (inject_Z rc * mem) ns = true ->
  addDeployment name nsName rc cpu mem s
  = (Some (length (deploymentStore s)),
     allocateDeploymentPods (length (deploymentStore s))
       (withNewDeployment name nsId ns rc cpu mem s)).
Proof.
  intros Ht Hns Hfit. unfold addDeployment. rewrite Ht, Hns.
  unfold Namespace.allocateResources. rewrite Hfit. cbn [negb].
  unfold newDeployment, Deployment.createPods, withNewDeployment, builtDeployment,
    Deployment.freshPods, updNamespace, withDeployments, withPodStore,
    withDeploymentStore, withNamespaceStore.
  cbn. rewrite alter_alter_const. reflexivity.
Qed.

Lemma addDeployment_Some_inv (name nsName : string) (rc : Z) (cpu mem : Q)
    (s : OpenShiftSimulator) :
  is_Some (fst (addDeployment name nsName rc cpu mem s)) ->
  exists nsId ns,
    namespaces s !! nsName = Some nsId /\ namespaceStore s !! nsId = Some ns /\
    Namespace.fits (inject_Z rc * cpu) (inject_Z rc * mem) ns = true.
Proof.
  unfold addDeployment.
  destruct (namespaces s !! nsName) as [nsId|] eqn:Ht; [| intros [x H]; discriminate].
  destruct (namespaceStore s !! nsId) as [ns|] eqn:Hns; [| intros [x H]; discriminate].
  unfold Namespace.allocateResources.
  destruct (Namespace.fits _ _ ns) eqn:E; cbn [negb]; [| intros [x H]; discriminate].
  intros _. exists nsId, ns. split; [reflexivity |]. split; [exact Hns | exact E].
Qed.

Lemma addDeployment_None_unchanged (name nsName : string) (rc : Z) (cpu mem : Q)
    (s : OpenShiftSimulator) :
  fst (addDeployment name nsName rc cpu mem s) = None ->
  snd (addDeployment name nsName rc cpu mem s) = s.
Proof.
  unfold addDeployment.
  destruct (namespaces s !! nsName) as [nsId|]; [| reflexivity].
  destruct (namespaceStore s !! nsId) as [ns|]; [| reflexivity].
  destruct (Namespace.allocateResources _ _ ns) as [ok ns'].
  destruct ok; cbn [negb]; [| reflexivity].
  unfold newDeployment, Deployment.createPods. cbn. discriminate.
Qed.

Lemma freshPods_lookup (dep : Deployment.t) (k : nat) :
  (k < Z.to_nat (Deployment.replicaCount dep))%nat ->
  Deployment.freshPods dep !! k
  = Some (Pod.new (Deployment.name dep +:+ "-" +:+ pretty k)
                  (Deployment.cpuRequestPerReplica dep)
                  (Deployment.memoryRequestPerReplica dep)).
Proof.
  intros Hk. unfold Deployment.freshPods.
  change (map ?f ?l) with (f <$> l). rewrite list_lookup_fmap, lookup_seq_lt by exact Hk.
  reflexivity.
Qed.

Lemma length_freshPods (dep : Deployment.t) :
  length (Deployment.freshPods dep) = Z.to_nat (Deployment.replicaCount dep).
Proof. unfold Deployment.freshPods. rewrite length_map, length_seq. reflexivity. Qed.


(** ** Names of deployments are not keys *)

Lemma list_find_ext_in {A} (P Q : A -> Prop) `{!forall x, Decision (P x)}
    `{!forall x, Decision (Q x)} (l : list A) :
  (forall x, x ∈ l -> (P x <-> Q x)) -> list_find P l = list_find Q l.
Proof.
  induction l as [|a l IH]; intros Hpq; [reflexivity |]. cbn.
  rewrite (decide_ext (P a) (Q a)) by (apply Hpq; left).
  rewrite IH by (intros x Hx; apply Hpq; right; exact Hx). reflexivity.
Qed.

Lemma addDeployment_lists (name nsName : string) (rc : Z) (cpu mem : Q)
    (s : OpenShiftSimulator) (d : nat) :
  fst (addDeployment name nsName rc cpu mem s) = Some d ->
  let s' := snd (addDeployment name nsName rc cpu mem s) in
  d = length (deploymentStore s) /\
  deployments s' = deployments s ++ [d] /\
  exists nsId, deploymentStore s'
               = deploymentStore s ++ [builtDeployment name nsId rc cpu mem s].
Proof.
  intros Hd. cbv zeta.
  destruct (addDeployment_Some_inv name nsName rc cpu mem s) as (nsId & ns & Ht & Hns & Hfit);
    [rewrite Hd; eexists; reflexivity |].
  rewrite (addDeployment_accepted name nsName rc cpu mem s nsId ns Ht Hns Hfit) in *.
  cbn [fst snd] in *. injection Hd as <-.
  match goal with |- context [allocateDeploymentPods ?d ?x] =>
    pose proof (placementOnly_fields _ _ (allocateDeploymentPods_placementOnly d x))
      as (_ & E2 & _ & _ & E5 & _)
  end.
  rewrite E2, E5. split; [reflexivity |]. split; [reflexivity |]. exists nsId. reflexivity.
Qed.

(** X6: the name of a deployment is not a key.  In a reachable state an
    accepted [addDeployment] under a name that is already listed leaves the
    name resolving (for [scaleDeployment] and [deleteDeployment]) to the
    deployment that was listed first; under a new name, the name resolves to
    the new deployment, at the end of the list.  The resolution of every
    other name is as before. *)
Theorem addDeployment_name_resolution (name nsName : string) (rc : Z) (cpu mem : Q)
    (s : OpenShiftSimulator) (d : nat) :
  reachable s ->
  fst (addDeployment name nsName rc cpu mem s) = Some d ->
  let s' := snd (addDeployment name nsName rc cpu mem s) in
  findDeployment name s'
  = match findDeployment name s with
    | Some found => Some found
    | None => Some (length (deployments s), d)
    end /\
  (forall other, other <> name -> findDeployment other s' = findDeployment other s).
Proof.
  intros Hr Hd. cbv zeta.
  destruct (addDeployment_lists name nsName rc cpu mem s d Hd) as (-> & Hl & nsId & Hst).
  pose proof (st_depsValid s (reachable_Structured s Hr)) as Hvalid.
  set (s' := snd (addDeployment name nsName rc cpu mem s)) in *.
  assert (Hold : forall x, x ∈ deployments s -> nameOf s' x = nameOf s x).
  { intros x Hx. unfold nameOf. rewrite Hst, lookup_app_l by exact (Hvalid x Hx).
    reflexivity. }
  assert (Hnew : nameOf s' (length (deploymentStore s)) = Some name).
  { unfold nameOf. rewrite Hst, lookup_app_r by lia. rewrite Nat.sub_diag. reflexivity. }
  assert (Hext : forall nm, list_find (fun x => nameOf s' x = Some nm) (deployments s)
                            = findDeployment nm s).
  { intros nm. unfold findDeployment. apply list_find_ext_in.
    intros x Hx. rewrite (Hold x Hx). reflexivity. }
  split.
  - unfold findDeployment at 1. rewrite Hl.
    destruct (findDeployment name s) as [[i x]|] eqn:E.
    + apply list_find_app_l. rewrite Hext. exact E.
    + rewrite list_find_app_r by (rewrite Hext; exact E).
      cbn. rewrite decide_True by exact Hnew. cbn. reflexivity.
  - intros other Hne. unfold findDeployment at 1. rewrite Hl.
    destruct (findDeployment other s) as [[i x]|] eqn:E.
    + apply list_find_app_l. rewrite Hext. exact E.
    + rewrite list_find_app_r by (rewrite Hext; exact E).
      cbn. rewrite decide_False; [reflexivity |]. rewrite Hnew. congruence.
Qed.

Lemma addDeployment_name_resolution_witness :
  reachable scenarioDeployed /\
  fst (addDeployment "d1" "a" 1 1 1 scenarioDeployed) = Some 1%nat /\
  findDeployment "d1" (snd (addDeployment "d1" "a" 1 1 1 scenarioDeployed))
  = Some (0%nat, 0%nat).
Proof.
  assert (Hr : reachable scenarioDeployed).
  { exists [CreateNamespace "a" 10 100; AddDeployment "d1" "a" 2 3 40].
    split; [repeat constructor; cbn; try lia; try lra | reflexivity]. }
  split; [exact Hr |]. split; [reflexivity |].
  exact (proj1 (addDeployment_name_resolution "d1" "a" 1 1 1 scenarioDeployed 1 Hr eq_refl)).
Defined.

(** ** deleteDeployment *)

Lemma list_find_delete_first {A} (P : A -> Prop) `{!forall x, Decision (P x)}
    (l : list A) (i : nat) (x : A) :
  list_find P l = Some (i, x) ->
  list_find P (delete i l)
  = prod_map (fun j => (j + i)%nat) id <$> list_find P (drop (S i) l).
Proof.
  intros Hf. apply list_find_Some in Hf as (Hi & _ & Hleast).
  rewrite delete_take_drop.
  assert (Hnone : list_find P (take i l) = None).
  { apply list_find_None, Forall_forall. intros y Hy.
    apply elem_of_take in Hy as (j & Hj & Hlt). exact (Hleast j y Hj Hlt). }
  rewrite (list_find_app_r P _ _ Hnone).
  rewrite length_take_le; [reflexivity |]. apply lookup_lt_Some in Hi. lia.
Qed.

Lemma nameOf_Some (s : OpenShiftSimulator) (d : nat) (name : string) :
  nameOf s d = Some name ->
  exists dep, deploymentStore s !! d = Some dep /\ Deployment.name dep = name.
Proof.
  unfold nameOf. destruct (deploymentStore s !! d) as [dep|]; [| discriminate].
  cbn. intros [= <-]. exists dep. split; reflexivity.
Qed.

Lemma deleteDeployment_found (name : string) (s : OpenShiftSimulator) (i d : nat)
    (dep : Deployment.t) :
  findDeployment name s = Some (i, d) -> deploymentStore s !! d = Some dep ->
  let u := foldl unbindPod s (Deployment.pods dep) in
  deleteDeployment name s
  = (true,
     withDeployments (delete i (deployments s))
       (updNamespace (Deployment.namespace dep)
          (fun ns => Namespace.removeDeployment d
                       (Namespace.deallocateResources (Deployment.totalCpu dep)
                          (Deployment.totalMemory dep) ns))
          u)).
Proof.
  intros Hf Hd. cbv zeta. unfold deleteDeployment. rewrite Hf, Hd.
  rewrite !foldl_unbindPod_updNamespace.
  pose proof (placementOnly_fields _ _
                (foldl_unbindPod_placementOnly (Deployment.pods dep) s))
    as (_ & _ & _ & _ & E & _).
  f_equal. cbn [deployments updNamespace withNamespaceStore].
  unfold updNamespace. cbn [namespaceStore withNamespaceStore].
  rewrite list_alter_alter_eq. destruct (foldl unbindPod s (Deployment.pods dep)).
  cbn in *. rewrite E. reflexivity.
Qed.

(** X7: [deleteDeployment] returns true exactly when a listed deployment
    has the name, and otherwise changes nothing.  In a reachable state it
    removes the first listed deployment of that name from the deployment
    list and from the list of its namespace, gives its footprint back to the
    namespace (clamped at 0), and takes its pods off the nodes; the other
    namespaces, the table and the pool stay.  The name then resolves to the
    next listed deployment that has it. *)
Theorem deleteDeployment_effect (name : string) (s : OpenShiftSimulator) :
  reachable s ->
  let r := deleteDeployment name s in
  (fst r = true <-> exists d, d ∈ deployments s /\ nameOf s d = Some name) /\
  (fst r = false -> snd r = s) /\
  (forall i d, findDeployment name s = Some (i, d) ->
     exists dep,
       deploymentStore s !! d = Some dep /\
       deployments (snd r) = delete i (deployments s) /\
       (d ∉ deployments (snd r)) /\
       (forall ns, namespaceStore s !! Deployment.namespace dep = Some ns ->
          namespaceStore (snd r) !! Deployment.namespace dep
          = Some (Namespace.mk (Namespace.name ns) (Namespace.cpuQuota ns)
                    (Namespace.memoryQuota ns)
                    (WorkerNode.removeFirst d (Namespace.deployments ns))
                    (clampNeg (Namespace.cpuAllocated ns - Deployment.totalCpu dep))
                    (clampNeg (Namespace.memoryAllocated ns
                               - Deployment.totalMemory dep)))) /\
       (forall m, m <> Deployment.namespace dep ->
          namespaceStore (snd r) !! m = namespaceStore s !! m) /\
       namespaces (snd r) = namespaces s /\
       workerNodes (snd r) = workerNodes s /\
       (forall n nd p,
          n ∈ workerNodes (snd r) -> nodeStore (snd r) !! n = Some nd ->
          p ∈ Deployment.pods dep -> p ∉ WorkerNode.pods nd) /\
       findDeployment name (snd r)
       = prod_map (fun j => (j + i)%nat) id
           <$> list_find (fun x => nameOf s x = Some name) (drop (S i) (deployments s))).
Proof.
  intros Hr. cbv zeta. split; [| split].
  - unfold deleteDeployment. split.
    + destruct (findDeployment name s) as [[i d]|] eqn:E; [| discriminate].
      intros _. apply findDeployment_Some in E as (_ & Hin & Hn). exists d. tauto.
    + intros (d & Hin & Hn).
      destruct (list_find_elem_of (fun x => nameOf s x = Some name) _ d Hin Hn)
        as [[i d'] E].
      fold (findDeployment name s) in E. rewrite E.
      apply findDeployment_Some in E as (_ & _ & Hn').
      apply nameOf_Some in Hn' as (dep & -> & _). reflexivity.
  - unfold deleteDeployment.
    destruct (findDeployment name s) as [[i d]|]; [| reflexivity].
    destruct (deploymentStore s !! d); [discriminate | reflexivity].
  - intros i d Hf.
    pose proof (findDeployment_Some name s i d Hf) as (Hi & Hin & Hn).
    destruct (nameOf_Some s d name Hn) as (dep & Hd & _).
    exists dep. split; [exact Hd |].
    assert (Hr' : reachable (snd (deleteDeployment name s))).
    { exact (reachable_exec (DeleteDeployment name) s I Hr). }
    pose proof (reachable_HostInv _ Hr') as (Hhost & _ & _).
    pose proof (reachable_Structured s Hr) as Hst.
    rewrite (deleteDeployment_found name s i d dep Hf Hd) in *. cbn [snd] in *.
    pose proof (foldl_unbindPod_placementOnly (Deployment.pods dep) s) as Hframe.
    set (u := foldl unbindPod s (Deployment.pods dep)) in *.
    pose proof (placementOnly_fields _ _ Hframe) as (E1 & E2 & E3 & E4 & E5 & _).
    destruct (NoDup_delete_lookup (deployments s) i d (st_deps s Hst) Hi) as [_ Hnotin].
    cbn [deployments withDeployments namespaces workerNodes namespaceStore nodeStore
         updNamespace withNamespaceStore] in *.
    rewrite E1, E3, E4.
    split; [reflexivity |]. split; [exact Hnotin |]. split; [| split].
    { intros ns Hns. rewrite list_lookup_alter_eq, Hns. reflexivity. }
    { intros m Hm. apply list_lookup_alter_ne. congruence. }
    split; [reflexivity |]. split; [reflexivity |]. split.
    + intros n nd p Hn' Hnd Hp Hhosted.
      destruct (Hhost n nd p) as ((d' & Hd' & Hp') & _); try assumption.
      { change (n ∈ workerNodes u). rewrite E3. exact Hn'. }
      cbn [deployments withDeployments] in Hd'.
      unfold podsOf in Hp'.
      cbn [deploymentStore withDeployments updNamespace withNamespaceStore] in Hp'.
      rewrite E2 in Hp'.
      destruct (deploymentStore s !! d') as [dep'|] eqn:E; [| inversion Hp'].
      assert (d' = d) as -> by exact (st_disjoint s Hst d' d dep' dep p E Hd Hp' Hp).
      exact (Hnotin Hd').
    + unfold findDeployment at 1. cbn [deployments withDeployments].
      rewrite <- (list_find_delete_first _ _ _ _ Hf).
      apply list_find_ext_in. intros x _. unfold nameOf.
      cbn [deploymentStore withDeployments updNamespace withNamespaceStore].
      rewrite E2. reflexivity.
Qed.

Lemma deleteDeployment_effect_witness :
  reachable scenarioDeployed /\
  deployments (snd (deleteDeployment "d1" scenarioDeployed)) = [].
Proof.
  assert (Hr : reachable scenarioDeployed).
  { exists [CreateNamespace "a" 10 100; AddDeployment "d1" "a" 2 3 40].
    split; [repeat constructor; cbn; try lia; try lra | reflexivity]. }
  split; [exact Hr |].
  destruct (proj2 (proj2 (deleteDeployment_effect "d1" scenarioDeployed Hr))
              0%nat 0%nat eq_refl) as (dep & _ & H & _).
  rewrite H. reflexivity.
Defined.

(** ** scaleDeployment: the accepted case *)

(** With a pool that is not empty, the pods of a deployment end up as
    [placed h] of what they were, for one node [h] of the pool. *)
Lemma allocateDeploymentPods_pods (d : nat) (s : OpenShiftSimulator) :
  poolValid s -> workerNodes s <> [] ->
  exists h, h ∈ workerNodes s /\
    forall p, podStore (allocateDeploymentPods d s) !! p
              = if decide (p ∈ podsOf s d) then placed h <$> podStore s !! p
                else podStore s !! p.
Proof.
  intros Hvalid Hne.
  destruct (stableSort_head (cpuOf (nodeStore s)) (compareNodes (nodeStore s))
              (compareNodes_key (nodeStore s)) (workerNodes s) Hne)
    as (i & h & Hhead & Hi & _).
  assert (Hin : h ∈ workerNodes s) by (eapply list_elem_of_lookup_2; exact Hi).
  exists h. split; [exact Hin |].
  unfold allocateDeploymentPods.
  destruct (stableSort (compareNodes (nodeStore s)) (workerNodes s)) as [|h' rest];
    [discriminate |].
  cbn in Hhead. injection Hhead as ->.
  exact (proj1 (placeIfPending_fold h rest (podsOf s d) s (Hvalid h Hin))).
Qed.

Lemma allocateResources_fits (cpu mem : Q) (ns : Namespace.t) :
  Namespace.fits cpu mem ns = true ->
  Namespace.allocateResources cpu mem ns
  = (true, Namespace.mk (Namespace.name ns) (Namespace.cpuQuota ns)
             (Namespace.memoryQuota ns) (Namespace.deployments ns)
             (Namespace.cpuAllocated ns + cpu) (Namespace.memoryAllocated ns + mem)).
Proof. intros H. unfold Namespace.allocateResources. rewrite H. reflexivity. Qed.

(** X8: [scaleDeployment] on a deployment that is found succeeds exactly
    when the new footprint fits the namespace once the old footprint has
    been released (clamped at 0).  On success the namespace holds the
    released counters plus the new footprint, the deployment has the new
    replica count and that many new pods named [name-k]; with a pool that is
    not empty all of them are Running on one node of the pool, with an empty
    pool all are Pending.  Nothing else changes in the namespaces, the
    deployments, the table, the list and the pool. *)
Theorem scaleDeployment_success (s : OpenShiftSimulator) (name : string)
    (n : Z) (i d : nat) (dep : Deployment.t) (ns : Namespace.t) :
  findDeployment name s = Some (i, d) ->
  deploymentStore s !! d = Some dep ->
  namespaceStore s !! Deployment.namespace dep = Some ns ->
  poolValid s ->
  let released := Namespace.deallocateResources (Deployment.totalCpu dep)
                                                (Deployment.totalMemory dep) ns in
  let r := scaleDeployment name n s in
  fst r = Namespace.fits (inject_Z n * Deployment.cpuRequestPerReplica dep)
                         (inject_Z n * Deployment.memoryRequestPerReplica dep) released /\
  (fst r = true ->
   namespaceStore (snd r) !! Deployment.namespace dep
   = Some (Namespace.mk (Namespace.name ns) (Namespace.cpuQuota ns)
             (Namespace.memoryQuota ns) (Namespace.deployments ns)
             (clampNeg (Namespace.cpuAllocated ns - Deployment.totalCpu dep)
              + inject_Z n * Deployment.cpuRequestPerReplica dep)
             (clampNeg (Namespace.memoryAllocated ns - Deployment.totalMemory dep)
              + inject_Z n * Deployment.memoryRequestPerReplica dep)) /\
   (forall m, m <> Deployment.namespace dep ->
      namespaceStore (snd r) !! m = namespaceStore s !! m) /\
   deploymentStore (snd r) !! d
   = Some (Deployment.mk (Deployment.name dep) (Deployment.namespace dep) n
             (Deployment.cpuRequestPerReplica dep) (Deployment.memoryRequestPerReplica dep)
             (seq (length (podStore s)) (Z.to_nat n))) /\
   (forall d', d' <> d -> deploymentStore (snd r) !! d' = deploymentStore s !! d') /\
   deployments (snd r) = deployments s /\
   namespaces (snd r) = namespaces s /\
   workerNodes (snd r) = workerNodes s /\
   length (podStore (snd r)) = (length (podStore s) + Z.to_nat n)%nat /\
   exists host : option nat,
     (workerNodes s = [] -> host = None) /\
     (forall h, host = Some h -> h ∈ workerNodes s) /\
     (workerNodes s <> [] -> is_Some host) /\
     forall k, (k < Z.to_nat n)%nat ->
       podStore (snd r) !! (length (podStore s) + k)%nat
       = Some (Pod.mk (Deployment.name dep +:+ "-" +:+ pretty k)
                 (Deployment.cpuRequestPerReplica dep)
                 (Deployment.memoryRequestPerReplica dep)
                 (match host with Some _ => Running | None => Pending end) host)).
Proof.
  intros Hfind Hd Hns Hvalid. cbv zeta.
  unfold scaleDeployment. rewrite Hfind, Hd.
  rewrite (scale_before_test s d dep n _ Hd).
  set (u := foldl unbindPod s (Deployment.pods dep)).
  pose proof (foldl_unbindPod_placementOnly (Deployment.pods dep) s) as Hframe.
  fold u in Hframe.
  apply placementOnly_fields in Hframe
    as (Hnss & Hds & Hw & Hnt & Hdl & _ & _ & Hnl & Hpl).
  set (old := Namespace.deallocateResources (Deployment.totalCpu dep)
                                            (Deployment.totalMemory dep)) in *.
  cbn [namespaceStore withPodStore updDeployment withDeploymentStore updNamespace
       withNamespaceStore].
  rewrite list_lookup_alter, decide_True by reflexivity. rewrite Hnss, Hns.
  cbn [fmap option_fmap option_map].
  destruct (Namespace.fits _ _ (old ns)) eqn:Hfit.
  2:{ rewrite (allocateResources_rejected _ _ _ Hfit). cbn [negb].
      destruct (Namespace.allocateResources _ _ (old ns)). cbn [fst].
      split; [reflexivity | discriminate]. }
  rewrite (allocateResources_fits _ _ _ Hfit). cbn [negb fst snd].
  split; [reflexivity |]. intros _.
  match goal with |- context [allocateDeploymentPods d ?x] => set (s4 := x) end.
  pose proof (allocateDeploymentPods_placementOnly d s4) as Hf.
  pose proof (placementOnly_fields _ _ Hf) as (E1 & E2 & E3 & E4 & E5 & _ & _ & _ & E6).
  rewrite E1, E2, E3, E4, E5, E6.
  assert (Hpods4 : podStore s4
                   = podStore u ++ Deployment.freshPods (Deployment.setReplicaCount n dep))
    by reflexivity.
  assert (Hown : podsOf s4 d = seq (length (podStore s)) (Z.to_nat n)).
  { unfold podsOf, s4.
    cbn [deploymentStore withPodStore updDeployment withDeploymentStore updNamespace
         withNamespaceStore].
    rewrite list_lookup_alter_eq, Hds, Hd. cbn. rewrite Hpl. reflexivity. }
  unfold s4 at 1 2 3 4 5 6 7.
  cbn [namespaceStore deploymentStore deployments namespaces workerNodes podStore
       withPodStore updDeployment withDeploymentStore updNamespace withNamespaceStore].
  split.
  { rewrite !list_lookup_alter_eq, Hnss, Hns. reflexivity. }
  split.
  { intros m Hm. rewrite !list_lookup_alter_ne by congruence. rewrite Hnss. reflexivity. }
  split.
  { rewrite list_lookup_alter_eq, Hds, Hd. cbn. rewrite Hpl. reflexivity. }
  split.
  { intros d' Hd'. rewrite list_lookup_alter_ne by congruence. rewrite Hds. reflexivity. }
  split; [exact Hdl |]. split; [exact Hnt |]. split; [exact Hw |]. split.
  { try rewrite Hpods4. rewrite length_app, length_freshPods, Hpl. reflexivity. }
  assert (Hfresh : forall k, (k < Z.to_nat n)%nat ->
            podStore s4 !! (length (podStore s) + k)%nat
            = Some (Pod.new (Deployment.name dep +:+ "-" +:+ pretty k)
                      (Deployment.cpuRequestPerReplica dep)
                      (Deployment.memoryRequestPerReplica dep))).
  { intros k Hk. rewrite Hpods4, lookup_app_r by lia.
    replace (length (podStore s) + k - length (podStore u))%nat with k by lia.
    rewrite freshPods_lookup by exact Hk. reflexivity. }
  destruct (workerNodes s) as [|n0 pool] eqn:Hpool.
  - exists None. split; [reflexivity |]. split; [discriminate |].
    split; [congruence |].
    intros k Hk. rewrite allocateDeploymentPods_empty_pool.
    + exact (Hfresh k Hk).
    + change (workerNodes u = []). rewrite Hw. reflexivity.
  - assert (Hv4 : poolValid s4).
    { intros x Hx. change (x ∈ workerNodes u) in Hx. change (x < length (nodeStore u))%nat.
      rewrite Hnl. apply Hvalid. rewrite Hpool, <- Hw. exact Hx. }
    destruct (allocateDeploymentPods_pods d s4 Hv4) as (h & Hh & Hp).
    { change (workerNodes u <> []). rewrite Hw. discriminate. }
    exists (Some h). split; [discriminate |]. split.
    { intros h' [= <-]. change (h ∈ workerNodes u) in Hh. rewrite Hw in Hh. exact Hh. }
    split; [intros _; eexists; reflexivity |].
    intros k Hk. rewrite Hp, Hown.
    rewrite decide_True by (apply elem_of_seq; lia).
    rewrite (Hfresh k Hk). reflexivity.
Qed.

Lemma scaleDeployment_success_witness :
  fst (scaleDeployment "d1" 1 scenarioDeployed) = true.
Proof.
  assert (Hvalid : poolValid scenarioDeployed).
  { intros n Hn. vm_compute in Hn. vm_compute.
    repeat (apply elem_of_cons in Hn as [->|Hn]; [lia |]). inversion Hn. }
  rewrite (proj1 (scaleDeployment_success scenarioDeployed "d1" 1 0 0
                    (Deployment.mk "d1" 0 2 3 40 [0%nat; 1%nat])
                    (Namespace.mk "a" 10 100 [0%nat] 6 80)
                    eq_refl eq_refl eq_refl Hvalid)).
  reflexivity.
Defined.

(** ** Reallocation after the pool has changed *)

Lemma clearNodes_podStore (l : list nat) (s : OpenShiftSimulator) :
  podStore (foldl (fun s n => updNode n WorkerNode.clear s) s l) = podStore s.
Proof.
  revert s. induction l as [|a l IH]; intros s; cbn [foldl]; [reflexivity |].
  rewrite IH. reflexivity.
Qed.

Lemma allocateDeploymentPods_runningInPool (d : nat) (s : OpenShiftSimulator) :
  poolValid s -> runningInPool s -> runningInPool (allocateDeploymentPods d s).
Proof.
  intros Hvalid Hinv.
  destruct (workerNodes s) as [|n0 pool] eqn:Hpool.
  { rewrite allocateDeploymentPods_empty_pool by exact Hpool. exact Hinv. }
  destruct (allocateDeploymentPods_pods d s Hvalid) as (h & Hh & Hp);
    [rewrite Hpool; discriminate |].
  pose proof (allocateDeploymentPods_placementOnly d s) as Hf.
  pose proof (placementOnly_fields _ _ Hf) as (_ & _ & Hw & _ & Hdl & _).
  intros d' p pod' Hd' Hin Hlk Hrun.
  rewrite Hdl in Hd'. rewrite (podsOf_placementOnly _ _ d' Hf) in Hin. rewrite Hw.
  rewrite Hp in Hlk. destruct (decide (p ∈ podsOf s d)).
  - destruct (podStore s !! p) as [pod|] eqn:E; [| discriminate].
    cbn in Hlk. injection Hlk as <-. unfold placed in *.
    destruct (Pod.isPending pod) eqn:Ep.
    + exists h. split; [reflexivity | exact Hh].
    + exact (Hinv d' p pod Hd' Hin E Hrun).
  - exact (Hinv d' p pod' Hd' Hin Hlk Hrun).
Qed.

Lemma allocateDeploymentPods_keeps_running (d : nat) (s : OpenShiftSimulator)
    (p : nat) (pod : Pod.t) :
  poolValid s -> podStore s !! p = Some pod -> Pod.status pod = Running ->
  podStore (allocateDeploymentPods d s) !! p = Some pod.
Proof.
  intros Hvalid Hlk Hrun.
  destruct (workerNodes s) as [|n0 pool] eqn:Hpool.
  { rewrite allocateDeploymentPods_empty_pool by exact Hpool. exact Hlk. }
  destruct (allocateDeploymentPods_pods d s Hvalid) as (h & Hh & Hp);
    [rewrite Hpool; discriminate |].
  rewrite Hp, Hlk. destruct (decide (p ∈ podsOf s d)); [| reflexivity].
  cbn. unfold placed, Pod.isPending. rewrite Hrun. reflexivity.
Qed.

Lemma allocateDeploymentPods_makes_running (d : nat) (s : OpenShiftSimulator)
    (p : nat) (pod' : Pod.t) :
  poolValid s -> workerNodes s <> [] -> p ∈ podsOf s d ->
  podStore (allocateDeploymentPods d s) !! p = Some pod' -> Pod.status pod' = Running.
Proof.
  intros Hvalid Hne Hin Hlk.
  destruct (allocateDeploymentPods_pods d s Hvalid Hne) as (h & Hh & Hp).
  rewrite Hp, decide_True in Hlk by exact Hin.
  destruct (podStore s !! p) as [pod|]; [| discriminate].
  cbn in Hlk. injection Hlk as <-. apply placed_running.
Qed.

(** The last loop of [reallocateAllPods]. *)
Lemma allocateAll_outcome (ds : list nat) (s : OpenShiftSimulator) :
  poolValid s -> runningInPool s ->
  let s' := foldl (fun s d => allocateDeploymentPods d s) s ds in
  placementOnly s s' /\ runningInPool s' /\
  (workerNodes s = [] -> s' = s) /\
  (workerNodes s <> [] ->
   forall d p pod', d ∈ ds -> p ∈ podsOf s d -> podStore s' !! p = Some pod' ->
                    Pod.status pod' = Running).
Proof.
  revert s. induction ds as [|d ds IH]; intros s Hvalid Hinv; cbv zeta; cbn [foldl].
  { split; [apply placementOnly_refl |]. split; [exact Hinv |]. split; [reflexivity |].
    intros _ d p pod' Hd. inversion Hd. }
  pose proof (allocateDeploymentPods_placementOnly d s) as Hf.
  set (s1 := allocateDeploymentPods d s) in *.
  assert (Hvalid1 : poolValid s1)
    by exact (poolValid_keepsPool _ _ (placementOnly_keepsPool _ _ Hf) Hvalid).
  pose proof (placementOnly_fields _ _ Hf) as (_ & _ & Hw & _).
  destruct (IH s1 Hvalid1 (allocateDeploymentPods_runningInPool d s Hvalid Hinv))
    as (Hf' & Hinv' & Hempty & Hrun).
  split; [exact (placementOnly_trans _ _ _ Hf Hf') |]. split; [exact Hinv' |]. split.
  - intros He. rewrite Hempty by (rewrite Hw; exact He).
    apply allocateDeploymentPods_empty_pool, He.
  - intros Hne d' p pod' Hd' Hin Hlk.
    assert (Hne1 : workerNodes s1 <> []) by (rewrite Hw; exact Hne).
    destruct (decide (d' ∈ ds)) as [Hds|Hds].
    + apply (Hrun Hne1 d' p pod' Hds); [| exact Hlk].
      rewrite (podsOf_placementOnly _ _ d' Hf). exact Hin.
    + apply elem_of_cons in Hd' as [->|Hd']; [| contradiction].
      destruct (podStore s1 !! p) as [pod1|] eqn:E1.
      * assert (Hr1 : Pod.status pod1 = Running)
          by exact (allocateDeploymentPods_makes_running d s p pod1 Hvalid Hne Hin E1).
        assert (Hkeep : forall l s0, poolValid s0 -> podStore s0 !! p = Some pod1 ->
                  podStore (foldl (fun s d => allocateDeploymentPods d s) s0 l) !! p
                  = Some pod1).
        { clear -Hr1. induction l as [|a l IHl]; intros s0 Hv0 H0; [exact H0 |].
          cbn [foldl]. apply IHl.
          - exact (poolValid_keepsPool _ _
                     (placementOnly_keepsPool _ _
                        (allocateDeploymentPods_placementOnly a s0)) Hv0).
          - apply allocateDeploymentPods_keeps_running; assumption. }
        rewrite (Hkeep ds s1 Hvalid1 E1) in Hlk. injection Hlk as <-. exact Hr1.
      * pose proof (placementOnly_pod _ _ p Hf') as Ht. rewrite E1, Hlk in Ht. discriminate.
Qed.

Lemma reallocateAllPods_outcome (s : OpenShiftSimulator) :
  poolValid s ->
  let s' := reallocateAllPods s in
  runningInPool s' /\
  forall d p pod,
    d ∈ deployments s' -> p ∈ podsOf s' d -> podStore s' !! p = Some pod ->
    (workerNodes s = [] -> Pod.status pod = Pending /\ Pod.node pod = None) /\
    (workerNodes s <> [] -> Pod.status pod = Running).
Proof.
  intros Hvalid. cbv zeta. unfold reallocateAllPods.
  set (s1 := foldl (fun s n => updNode n WorkerNode.clear s) s (workerNodes s)).
  pose proof (clearNodes_placementOnly (workerNodes s) s) as Hf1. fold s1 in Hf1.
  rewrite resetAll_flatten.
  set (s2 := foldl (fun s p => updPod p Pod.unbind s) s1 (deployments s1 ≫= podsOf s1)).
  pose proof (resetPods_placementOnly (deployments s1 ≫= podsOf s1) s1) as Hf2.
  fold s2 in Hf2.
  pose proof (placementOnly_trans _ _ _ Hf1 Hf2) as Hf.
  pose proof (placementOnly_fields _ _ Hf) as (_ & _ & Hw & _ & Hdl & _).
  pose proof (placementOnly_fields _ _ Hf2) as (_ & _ & _ & _ & Hdl2 & _).
  assert (Hvalid2 : poolValid s2)
    by exact (poolValid_keepsPool _ _ (placementOnly_keepsPool _ _ Hf) Hvalid).
  assert (Hreset : forall d p pod, d ∈ deployments s2 -> p ∈ podsOf s2 d ->
            podStore s2 !! p = Some pod -> Pod.status pod = Pending /\ Pod.node pod = None).
  { intros d p pod Hd Hin Hlk. rewrite Hdl2 in Hd.
    rewrite (podsOf_placementOnly _ _ d Hf2) in Hin.
    unfold s2 in Hlk. rewrite resetPods_lookup in Hlk.
    rewrite decide_True in Hlk by (apply list_elem_of_bind; eauto).
    destruct (podStore s1 !! p); [| discriminate]. cbn in Hlk. injection Hlk as <-.
    split; reflexivity. }
  assert (Hinv2 : runningInPool s2).
  { intros d p pod Hd Hin Hlk Hrun. destruct (Hreset d p pod Hd Hin Hlk). congruence. }
  destruct (allocateAll_outcome (deployments s2) s2 Hvalid2 Hinv2)
    as (Hf3 & Hinv3 & Hempty & Hrun).
  set (s3 := foldl (fun s d => allocateDeploymentPods d s) s2 (deployments s2)) in *.
  pose proof (placementOnly_fields _ _ Hf3) as (_ & _ & _ & _ & Hdl3 & _).
  split; [exact Hinv3 |].
  intros d p pod Hd Hin Hlk. rewrite Hdl3 in Hd.
  rewrite (podsOf_placementOnly _ _ d Hf3) in Hin. split.
  - intros He. rewrite Hempty in Hlk by (rewrite Hw; exact He).
    exact (Hreset d p pod Hd Hin Hlk).
  - intros Hne. apply (Hrun ltac:(rewrite Hw; exact Hne) d p pod Hd Hin Hlk).
Qed.

(** X9: a call of [setTotalWorkerNodes] that changes the size of the pool
    loses no deployment and no pod, and reschedules every pod of every listed
    deployment from scratch: if the pool is left empty they are all Pending
    and bound to no node, otherwise they are all Running, each on a node of
    the new pool. *)
Theorem resize_reschedules_all_pods (target : Z) (s : OpenShiftSimulator) :
  poolValid s ->
  target <> Z.of_nat (length (workerNodes s)) ->
  let s' := snd (setTotalWorkerNodes target s) in
  deployments s' = deployments s /\
  (forall d, podsOf s' d = podsOf s d) /\
  length (podStore s') = length (podStore s) /\
  forall d p pod,
    d ∈ deployments s' -> p ∈ podsOf s' d -> podStore s' !! p = Some pod ->
    (workerNodes s' = [] -> Pod.status pod = Pending /\ Pod.node pod = None) /\
    (workerNodes s' <> [] ->
     Pod.status pod = Running /\ exists h, Pod.node pod = Some h /\ h ∈ workerNodes s').
Proof.
  intros Hvalid Hne. cbv zeta. unfold setTotalWorkerNodes.
  assert (Hcase : exists s0,
            snd (if (target <? Z.of_nat (length (workerNodes s)))%Z
                 then (true, reallocateAllPods
                               (withWorkerNodes (spliceFrom target (workerNodes s)) s))
                 else if (target >? Z.of_nat (length (workerNodes s)))%Z
                      then (true, reallocateAllPods
                                    (addWorkerNodes
                                       (Z.to_nat (target - Z.of_nat (length (workerNodes s))))
                                       None None None s))
                      else (true, s))
            = reallocateAllPods s0 /\
            poolValid s0 /\ deployments s0 = deployments s /\
            deploymentStore s0 = deploymentStore s /\ podStore s0 = podStore s).
  { destruct (target <? _)%Z eqn:E1; [| destruct (target >? _)%Z eqn:E2].
    - eexists. split; [reflexivity |]. split; [| repeat split].
      intros n Hn. cbn [workerNodes nodeStore withWorkerNodes] in *.
      apply Hvalid. unfold spliceFrom in Hn.
      apply elem_of_take in Hn as (i & Hi & _). eapply list_elem_of_lookup_2. exact Hi.
    - eexists. split; [reflexivity |].
      split; [apply addWorkerNodes_poolValid, Hvalid |].
      rewrite addWorkerNodes_spec. repeat split.
    - apply Z.ltb_ge in E1. rewrite Z.gtb_ltb in E2. apply Z.ltb_ge in E2. lia. }
  destruct Hcase as (s0 & -> & Hvalid0 & Hdl0 & Hds0 & Hps0).
  pose proof (reallocateAllPods_placementOnly s0) as Hf.
  pose proof (placementOnly_fields _ _ Hf) as (_ & Hds & Hw & _ & Hdl & _ & _ & _ & Hpl).
  destruct (reallocateAllPods_outcome s0 Hvalid0) as (Hinv & Hout).
  split; [congruence |]. split.
  { intros d. unfold podsOf. rewrite Hds, Hds0. reflexivity. }
  split; [congruence |].
  intros d p pod Hd Hin Hlk. destruct (Hout d p pod Hd Hin Hlk) as (He & Hrun).
  rewrite Hw. split; [exact He |]. intros Hne0. split; [exact (Hrun Hne0) |].
  destruct (Hinv d p pod Hd Hin Hlk (Hrun Hne0)) as (h & Hh & Hpool).
  exists h. rewrite <- Hw. split; assumption.
Qed.

Lemma resize_reschedules_all_pods_witness :
  poolValid scenarioDeployed /\
  (0 <> Z.of_nat (length (workerNodes scenarioDeployed)))%Z /\
  forall pod,
    podStore (snd (setTotalWorkerNodes 0 scenarioDeployed)) !! 1%nat = Some pod ->
    Pod.status pod = Pending /\ Pod.node pod = None.
Proof.
  assert (Hvalid : poolValid scenarioDeployed).
  { intros n Hn. vm_compute in Hn. vm_compute.
    repeat (apply elem_of_cons in Hn as [->|Hn]; [lia |]). inversion Hn. }
  assert (Hne : (0 <> Z.of_nat (length (workerNodes scenarioDeployed)))%Z)
    by (vm_compute; discriminate).
  split; [exact Hvalid |]. split; [exact Hne |]. intros pod Hlk.
  destruct (resize_reschedules_all_pods 0 scenarioDeployed Hvalid Hne)
    as (_ & _ & _ & H).
  apply (H 0%nat 1%nat pod); try exact Hlk; try reflexivity.
  - vm_compute. left.
  - vm_compute. right. left.
Defined.

(** ** The two copies of setTotalWorkerNodes agree *)

Lemma resetPods_as_store (l : list nat) (s : OpenShiftSimulator) :
  foldl (fun s p => updPod p Pod.unbind s) s l
  = withPodStore (podStore (foldl (fun s p => updPod p Pod.unbind s) s l)) s.
Proof.
  revert s. induction l as [|a l IH]; intros s; cbn [foldl]; [destruct s; reflexivity |].
  rewrite IH at 1. reflexivity.
Qed.

Lemma releasePods_spec (ns : list nat) (s : OpenShiftSimulator) :
  let s' := foldl releasePodsOf s ns in
  s' = withPodStore (podStore s') s /\
  forall p, podStore s' !! p
            = if decide (p ∈ ns ≫= hostedPods s) then Pod.unbind <$> podStore s !! p
              else podStore s !! p.
Proof.
  revert s. induction ns as [|n ns IH]; intros s; cbv zeta; cbn [foldl].
  { split; [destruct s; reflexivity |]. intros p. rewrite decide_False; [reflexivity |].
    cbn. apply not_elem_of_nil. }
  assert (E1 : releasePodsOf s n
               = foldl (fun s p => updPod p Pod.unbind s) s (hostedPods s n)).
  { unfold releasePodsOf, hostedPods. destruct (nodeStore s !! n); reflexivity. }
  set (s1 := releasePodsOf s n) in *.
  assert (Hs1 : s1 = withPodStore (podStore s1) s)
    by (rewrite E1; apply resetPods_as_store).
  assert (Hhost : forall m, hostedPods s1 m = hostedPods s m).
  { intros m. unfold hostedPods. rewrite Hs1. reflexivity. }
  destruct (IH s1) as (Hs' & Hp). split.
  - rewrite Hs' at 1. rewrite Hs1 at 2. reflexivity.
  - intros p. rewrite Hp.
    replace (ns ≫= hostedPods s1) with (ns ≫= hostedPods s)
      by (apply list_bind_ext; [intros m; symmetry; apply Hhost | reflexivity]).
    rewrite E1, resetPods_lookup. cbn [mbind list_bind].
    destruct (decide (p ∈ ns ≫= hostedPods s)) as [Hin|Hin];
      destruct (decide (p ∈ hostedPods s n)) as [Hin'|Hin'].
    + rewrite decide_True by (apply elem_of_app; right; exact Hin).
      destruct (podStore s !! p); reflexivity.
    + rewrite decide_True by (apply elem_of_app; right; exact Hin). reflexivity.
    + rewrite decide_True by (apply elem_of_app; left; exact Hin'). reflexivity.
    + rewrite decide_False; [reflexivity |].
      intros H. apply elem_of_app in H as [?|?]; contradiction.
Qed.

Lemma clearNodes_withPodStore (st : list Pod.t) (l : list nat) (s : OpenShiftSimulator) :
  foldl (fun s n => updNode n WorkerNode.clear s) (withPodStore st s) l
  = withPodStore st (foldl (fun s n => updNode n WorkerNode.clear s) s l).
Proof.
  revert s. induction l as [|a l IH]; intros s; cbn [foldl]; [reflexivity |].
  rewrite <- IH. reflexivity.
Qed.

(** Marking pods of listed deployments Pending beforehand does not change
    what [reallocateAllPods] produces. *)
Lemma reallocateAllPods_after_release (P : list nat) (st : list Pod.t)
    (s : OpenShiftSimulator) :
  (forall p, st !! p = if decide (p ∈ P) then Pod.unbind <$> podStore s !! p
                       else podStore s !! p) ->
  (forall p, p ∈ P -> p ∈ deployments s ≫= podsOf s) ->
  reallocateAllPods (withPodStore st s) = reallocateAllPods s.
Proof.
  intros Hst Hsub. unfold reallocateAllPods.
  cbn [workerNodes withPodStore]. rewrite clearNodes_withPodStore.
  set (c := foldl (fun s n => updNode n WorkerNode.clear s) s (workerNodes s)).
  pose proof (clearNodes_placementOnly (workerNodes s) s) as Hf. fold c in Hf.
  pose proof (placementOnly_fields _ _ Hf) as (_ & Hds & _ & _ & Hdl & _).
  assert (Hpc : podStore c = podStore s) by apply clearNodes_podStore.
  rewrite !resetAll_flatten.
  assert (HL : deployments (withPodStore st c) ≫= podsOf (withPodStore st c)
               = deployments c ≫= podsOf c) by reflexivity.
  rewrite HL. set (L := deployments c ≫= podsOf c).
  assert (HLs : L = deployments s ≫= podsOf s).
  { unfold L. rewrite Hdl. apply list_bind_ext; [| reflexivity].
    intros d. apply podsOf_placementOnly, Hf. }
  assert (E : foldl (fun s p => updPod p Pod.unbind s) (withPodStore st c) L
              = foldl (fun s p => updPod p Pod.unbind s) c L).
  { rewrite (resetPods_as_store L (withPodStore st c)), (resetPods_as_store L c).
    replace (podStore (foldl (fun s p => updPod p Pod.unbind s) (withPodStore st c) L))
      with (podStore (foldl (fun s p => updPod p Pod.unbind s) c L)); [reflexivity |].
    apply list_eq. intros p. rewrite !resetPods_lookup.
    cbn [podStore withPodStore]. rewrite Hst, Hpc.
    destruct (decide (p ∈ L)) as [HinL|HninL].
    - destruct (decide (p ∈ P)); [| reflexivity].
      destruct (podStore s !! p); reflexivity.
    - rewrite decide_False; [reflexivity |].
      intros HinP. apply HninL. rewrite HLs. apply Hsub, HinP. }
  rewrite E. reflexivity.
Qed.

(** X10: the two copies of the class in [simulator.js] differ in
    [setTotalWorkerNodes]: the server copy marks the pods of the removed
    nodes Pending before it reallocates.  In every reachable state the two
    give the same result and the same state. *)
Theorem setTotalWorkerNodes_copies_agree (target : Z) (s : OpenShiftSimulator) :
  reachable s ->
  setTotalWorkerNodesServer target s = setTotalWorkerNodes target s.
Proof.
  intros Hr. unfold setTotalWorkerNodesServer, setTotalWorkerNodes.
  destruct (target <? _)%Z; [| reflexivity].
  f_equal.
  set (s1 := withWorkerNodes (spliceFrom target (workerNodes s)) s).
  destruct (releasePods_spec (spliceRemoved target (workerNodes s)) s1) as (Hs' & Hp).
  rewrite Hs'. apply (reallocateAllPods_after_release _ _ s1 Hp).
  intros p Hin. apply list_elem_of_bind in Hin as (n & Hp' & Hn).
  pose proof (reachable_HostInv s Hr) as (Hhost & _ & _).
  unfold hostedPods in Hp'. cbn [nodeStore s1 withWorkerNodes] in Hp'.
  change (nodeStore s1) with (nodeStore s) in Hp'.
  destruct (nodeStore s !! n) as [nd|] eqn:End; [| inversion Hp'].
  assert (Hpool : n ∈ workerNodes s).
  { unfold spliceRemoved in Hn. eapply elem_of_sublist; [exact Hn | apply sublist_drop]. }
  destruct (Hhost n nd p Hpool End Hp') as ((d & Hd & Hpd) & _).
  apply list_elem_of_bind. exists d. split; assumption.
Qed.

Lemma setTotalWorkerNodes_copies_agree_witness :
  reachable scenarioDeployed /\
  workerNodes (snd (setTotalWorkerNodesServer 0 scenarioDeployed)) = [].
Proof.
  assert (Hr : reachable scenarioDeployed).
  { exists [CreateNamespace "a" 10 100; AddDeployment "d1" "a" 2 3 40].
    split; [repeat constructor; cbn; try lia; try lra | reflexivity]. }
  split; [exact Hr |].
  rewrite (setTotalWorkerNodes_copies_agree 0 scenarioDeployed Hr). reflexivity.
Defined.

(** ** The pods of a deployment: status, number and requests *)

Lemma Structured_ownedPods (s : OpenShiftSimulator) : Structured s -> ownedPods s.
Proof. intros H. split; [exact (st_depPods s H) | exact (st_disjoint s H)]. Qed.

Lemma PodInv_ext (s s' : OpenShiftSimulator) :
  podStore s' = podStore s -> deploymentStore s' = deploymentStore s ->
  deployments s' = deployments s ->
  (forall n, n ∈ workerNodes s -> n ∈ workerNodes s') ->
  PodInv s -> PodInv s'.
Proof.
  intros Hp Hd Hl Hw (P1 & P2 & P3 & P4).
  unfold PodInv, runningInPool, uniformStatus, sizedDeployments, requestsMatch, podsOf.
  rewrite Hp, Hd, Hl. split; [| split; [| split]]; try assumption.
  intros d p pod H1 H2 H3 H4. destruct (P1 d p pod H1 H2 H3 H4) as (h & Hh & Hin).
  exists h. split; [exact Hh | exact (Hw h Hin)].
Qed.

Lemma PodInv_fewer (l : list nat) (s : OpenShiftSimulator) :
  (forall d, d ∈ l -> d ∈ deployments s) -> PodInv s -> PodInv (withDeployments l s).
Proof.
  intros Hsub (P1 & P2 & P3 & P4). split; [| split; [| split]]; try assumption.
  - intros d p pod Hd. apply (P1 d p pod), Hsub, Hd.
  - intros d dep Hd. apply (P2 d dep), Hsub, Hd.
Qed.

Lemma placementOnly_requests (s s' : OpenShiftSimulator) (p : nat) (pod' : Pod.t) :
  placementOnly s s' -> podStore s' !! p = Some pod' ->
  exists pod, podStore s !! p = Some pod /\
              Pod.cpuRequest pod' = Pod.cpuRequest pod /\
              Pod.memoryRequest pod' = Pod.memoryRequest pod.
Proof.
  intros Hf Hlk. pose proof (placementOnly_pod _ _ p Hf) as Ht. rewrite Hlk in Ht.
  destruct (podStore s !! p) as [pod|]; [| discriminate].
  cbn in Ht. unfold Pod.template in Ht. exists pod. split; [reflexivity |].
  split; congruence.
Qed.

Lemma allocateDeploymentPods_podinv (d : nat) (s : OpenShiftSimulator) :
  poolValid s -> ownedPods s -> PodInv s -> PodInv (allocateDeploymentPods d s).
Proof.
  intros Hvalid [_ Hdisj] Hinv.
  destruct (workerNodes s) as [|n0 pool] eqn:Hpool.
  { rewrite allocateDeploymentPods_empty_pool by exact Hpool. exact Hinv. }
  assert (Hne : workerNodes s <> []) by (rewrite Hpool; discriminate).
  clear Hpool n0 pool.
  destruct Hinv as (P1 & P2 & P3 & P4).
  destruct (allocateDeploymentPods_pods d s Hvalid Hne) as (h & Hh & Hp).
  pose proof (allocateDeploymentPods_placementOnly d s) as Hf.
  pose proof (placementOnly_fields _ _ Hf) as (_ & Hds & Hw & _ & Hdl & _).
  split; [exact (allocateDeploymentPods_runningInPool d s Hvalid P1) |].
  split; [| split].
  - intros d' dep' Hd' Hlk'. rewrite Hdl in Hd'. rewrite Hds in Hlk'.
    destruct (decide (d' = d)) as [->|Hne'].
    + left. intros p pod' Hin Hlk.
      apply (allocateDeploymentPods_makes_running d s p pod' Hvalid Hne); [| exact Hlk].
      unfold podsOf. rewrite Hlk'. exact Hin.
    + assert (Hout : forall p, p ∈ Deployment.pods dep' -> p ∉ podsOf s d).
      { intros p Hin Hin'. unfold podsOf in Hin'.
        destruct (deploymentStore s !! d) as [dep|] eqn:E; [| inversion Hin'].
        exact (Hne' (Hdisj d' d dep' dep p Hlk' E Hin Hin')). }
      destruct (P2 d' dep' Hd' Hlk') as [HR|HP]; [left | right];
        intros p pod' Hin Hlk; rewrite Hp, decide_False in Hlk by exact (Hout p Hin).
      * exact (HR p pod' Hin Hlk).
      * exact (HP p pod' Hin Hlk).
  - intros d' dep' Hlk'. rewrite Hds in Hlk'. exact (P3 d' dep' Hlk').
  - intros d' dep' p pod' Hlk' Hin Hlk. rewrite Hds in Hlk'.
    destruct (placementOnly_requests _ _ p pod' Hf Hlk) as (pod & Hpod & -> & ->).
    exact (P4 d' dep' p pod Hlk' Hin Hpod).
Qed.

Lemma ownedPods_placementOnly (s s' : OpenShiftSimulator) :
  placementOnly s s' -> ownedPods s -> ownedPods s'.
Proof.
  intros Hf [A B].
  pose proof (placementOnly_fields _ _ Hf) as (_ & Hds & _ & _ & _ & _ & _ & _ & Hpl).
  unfold ownedPods. rewrite Hds, Hpl. split; assumption.
Qed.

Lemma resetAll_podinv (s : OpenShiftSimulator) :
  sizedDeployments s -> requestsMatch s ->
  PodInv (foldl (fun s p => updPod p Pod.unbind s) s (deployments s ≫= podsOf s)).
Proof.
  intros P3 P4.
  pose proof (resetPods_placementOnly (deployments s ≫= podsOf s) s) as Hf.
  set (s2 := foldl (fun s p => updPod p Pod.unbind s) s (deployments s ≫= podsOf s)) in *.
  pose proof (placementOnly_fields _ _ Hf) as (_ & Hds & _ & _ & Hdl & _).
  assert (Hreset : forall d p pod, d ∈ deployments s -> p ∈ podsOf s d ->
            podStore s2 !! p = Some pod -> Pod.status pod = Pending).
  { intros d p pod Hd Hin Hlk. unfold s2 in Hlk. rewrite resetPods_lookup in Hlk.
    rewrite decide_True in Hlk by (apply list_elem_of_bind; eauto).
    destruct (podStore s !! p); [| discriminate]. cbn in Hlk. injection Hlk as <-.
    reflexivity. }
  split; [| split; [| split]].
  - intros d p pod Hd Hin Hlk Hrun. rewrite Hdl in Hd.
    rewrite (podsOf_placementOnly _ _ d Hf) in Hin.
    rewrite (Hreset d p pod Hd Hin Hlk) in Hrun. discriminate.
  - intros d dep Hd Hlk'. rewrite Hdl in Hd. rewrite Hds in Hlk'. right.
    intros p pod Hin Hlk. apply (Hreset d p pod Hd); [| exact Hlk].
    unfold podsOf. rewrite Hlk'. exact Hin.
  - intros d dep Hlk'. rewrite Hds in Hlk'. exact (P3 d dep Hlk').
  - intros d dep p pod' Hlk' Hin Hlk. rewrite Hds in Hlk'.
    destruct (placementOnly_requests _ _ p pod' Hf Hlk) as (pod & Hpod & -> & ->).
    exact (P4 d dep p pod Hlk' Hin Hpod).
Qed.

Lemma reallocateAllPods_podinv (s : OpenShiftSimulator) :
  poolValid s -> ownedPods s -> sizedDeployments s -> requestsMatch s ->
  PodInv (reallocateAllPods s).
Proof.
  intros Hvalid Hown P3 P4. unfold reallocateAllPods.
  set (s1 := foldl (fun s n => updNode n WorkerNode.clear s) s (workerNodes s)).
  pose proof (clearNodes_placementOnly (workerNodes s) s) as Hf1. fold s1 in Hf1.
  pose proof (placementOnly_fields _ _ Hf1) as (_ & Hds1 & _).
  assert (Hp1 : podStore s1 = podStore s) by apply clearNodes_podStore.
  rewrite resetAll_flatten.
  assert (P31 : sizedDeployments s1) by (unfold sizedDeployments; rewrite Hds1; exact P3).
  assert (P41 : requestsMatch s1)
    by (unfold requestsMatch; rewrite Hds1, Hp1; exact P4).
  pose proof (resetAll_podinv s1 P31 P41) as Hinv2.
  pose proof (resetPods_placementOnly (deployments s1 ≫= podsOf s1) s1) as Hf2.
  set (s2 := foldl (fun s p => updPod p Pod.unbind s) s1 (deployments s1 ≫= podsOf s1)) in *.
  pose proof (placementOnly_trans _ _ _ Hf1 Hf2) as Hf.
  apply (foldl_preserves (fun x => poolValid x /\ ownedPods x /\ PodInv x)).
  - intros x d (Hv & Ho & Hi).
    pose proof (allocateDeploymentPods_placementOnly d x) as Hfx.
    split; [exact (poolValid_keepsPool _ _ (placementOnly_keepsPool _ _ Hfx) Hv) |].
    split; [exact (ownedPods_placementOnly _ _ Hfx Ho) |].
    apply allocateDeploymentPods_podinv; assumption.
  - split; [exact (poolValid_keepsPool _ _ (placementOnly_keepsPool _ _ Hf) Hvalid) |].
    split; [exact (ownedPods_placementOnly _ _ Hf Hown) | exact Hinv2].
Qed.

Lemma freshPods_elem (dep : Deployment.t) (pod : Pod.t) :
  pod ∈ Deployment.freshPods dep ->
  Pod.status pod = Pending /\ Pod.node pod = None /\
  Pod.cpuRequest pod = Deployment.cpuRequestPerReplica dep /\
  Pod.memoryRequest pod = Deployment.memoryRequestPerReplica dep.
Proof.
  unfold Deployment.freshPods. intros H. apply list_elem_of_fmap in H as (i & -> & _).
  repeat split.
Qed.

(** [s'] is [s] after deployment [d] has received freshly created pods. *)
Lemma fresh_podinv (s s' : OpenShiftSimulator) (d : nat) (dep' : Deployment.t) :
  ownedPods s -> PodInv s ->
  podStore s' = podStore s ++ Deployment.freshPods dep' ->
  Deployment.pods dep'
  = seq (length (podStore s)) (Z.to_nat (Deployment.replicaCount dep')) ->
  deploymentStore s' !! d = Some dep' ->
  (forall d', d' <> d -> deploymentStore s' !! d' = deploymentStore s !! d') ->
  (forall d', d' ∈ deployments s' -> d' <> d -> d' ∈ deployments s) ->
  (forall n, n ∈ workerNodes s -> n ∈ workerNodes s') ->
  PodInv s' /\ ownedPods s'.
Proof.
  intros [Hval Hdisj] (P1 & P2 & P3 & P4) Hps Hpods Hd Hother Hold Hw.
  assert (Hkeep : forall p, (p < length (podStore s))%nat ->
                            podStore s' !! p = podStore s !! p)
    by (intros p Hp; rewrite Hps; apply lookup_app_l; exact Hp).
  assert (Hnew : forall p pod, (length (podStore s) <= p)%nat ->
            podStore s' !! p = Some pod ->
            Pod.status pod = Pending /\ Pod.node pod = None /\
            Pod.cpuRequest pod = Deployment.cpuRequestPerReplica dep' /\
            Pod.memoryRequest pod = Deployment.memoryRequestPerReplica dep').
  { intros p pod Hp Hlk. rewrite Hps, lookup_app_r in Hlk by exact Hp.
    apply freshPods_elem. eapply list_elem_of_lookup_2. exact Hlk. }
  assert (Hmine : forall p, p ∈ Deployment.pods dep' -> (length (podStore s) <= p)%nat).
  { intros p Hp. rewrite Hpods in Hp. apply elem_of_seq in Hp. lia. }
  assert (Hlen : length (podStore s') = (length (podStore s)
                  + Z.to_nat (Deployment.replicaCount dep'))%nat).
  { rewrite Hps, length_app, length_freshPods. reflexivity. }
  split; [split; [| split; [| split]] | split].
  - intros d' p pod Hd' Hin Hlk Hrun. unfold podsOf in Hin.
    destruct (decide (d' = d)) as [->|Hne].
    + rewrite Hd in Hin. destruct (Hnew p pod (Hmine p Hin) Hlk) as (Hs & _). congruence.
    + rewrite Hother in Hin by exact Hne.
      destruct (deploymentStore s !! d') as [dep0|] eqn:E; [| inversion Hin].
      rewrite Hkeep in Hlk by exact (Hval d' dep0 p E Hin).
      destruct (P1 d' p pod) as (h & Hh & Hpool); try assumption.
      * apply Hold; assumption.
      * unfold podsOf. rewrite E. exact Hin.
      * exists h. split; [exact Hh | exact (Hw h Hpool)].
  - intros d' dep0 Hd' Hlk'. destruct (decide (d' = d)) as [->|Hne].
    + assert (dep0 = dep') as -> by congruence. right. intros p pod Hin Hlk.
      exact (proj1 (Hnew p pod (Hmine p Hin) Hlk)).
    + rewrite Hother in Hlk' by exact Hne.
      destruct (P2 d' dep0 (Hold d' Hd' Hne) Hlk') as [HR|HP]; [left | right];
        intros p pod Hin Hlk; rewrite Hkeep in Hlk by exact (Hval d' dep0 p Hlk' Hin).
      * exact (HR p pod Hin Hlk).
      * exact (HP p pod Hin Hlk).
  - intros d' dep0 Hlk'. destruct (decide (d' = d)) as [->|Hne].
    + assert (dep0 = dep') as -> by congruence. rewrite Hpods. apply length_seq.
    + rewrite Hother in Hlk' by exact Hne. exact (P3 d' dep0 Hlk').
  - intros d' dep0 p pod Hlk' Hin Hlk. destruct (decide (d' = d)) as [->|Hne].
    + assert (dep0 = dep') as -> by congruence.
      destruct (Hnew p pod (Hmine p Hin) Hlk) as (_ & _ & Hc & Hm). split; assumption.
    + rewrite Hother in Hlk' by exact Hne.
      rewrite Hkeep in Hlk by exact (Hval d' dep0 p Hlk' Hin).
      exact (P4 d' dep0 p pod Hlk' Hin Hlk).
  - intros d' dep0 p Hlk' Hin. destruct (decide (d' = d)) as [->|Hne].
    + assert (dep0 = dep') as -> by congruence. rewrite Hpods in Hin.
      apply elem_of_seq in Hin. lia.
    + rewrite Hother in Hlk' by exact Hne. pose proof (Hval d' dep0 p Hlk' Hin). lia.
  - intros d1 d2 dep1 dep2 p H1 H2 Hp1 Hp2.
    destruct (decide (d1 = d2)) as [|Hne12]; [assumption | exfalso].
    destruct (decide (d1 = d)) as [->|Hne1]; [| destruct (decide (d2 = d)) as [->|Hne2]].
    + assert (dep1 = dep') as -> by congruence. rewrite Hother in H2 by congruence.
      pose proof (Hmine p Hp1). pose proof (Hval d2 dep2 p H2 Hp2). lia.
    + assert (dep2 = dep') as -> by congruence. rewrite Hother in H1 by congruence.
      pose proof (Hmine p Hp2). pose proof (Hval d1 dep1 p H1 Hp1). lia.
    + rewrite Hother in H1, H2 by assumption.
      exact (Hne12 (Hdisj d1 d2 dep1 dep2 p H1 H2 Hp1 Hp2)).
Qed.

Lemma foldl_unbindPod_podStore (l : list nat) (s : OpenShiftSimulator) :
  podStore (foldl unbindPod s l) = podStore s.
Proof.
  revert s. induction l as [|a l IH]; intros s; cbn [foldl]; [reflexivity |].
  rewrite IH. unfold unbindPod. destruct (podStore s !! a) as [pod|]; [| reflexivity].
  destruct (Pod.node pod); reflexivity.
Qed.

Lemma createNamespace_podinv (name : string) (cq mq : Q) (s : OpenShiftSimulator) :
  PodInv s -> PodInv (snd (createNamespace name cq mq s)).
Proof.
  intros Hinv. unfold createNamespace. destruct (namespaces s !! name); [exact Hinv |].
  apply (PodInv_ext s); try reflexivity; [auto | exact Hinv].
Qed.

Lemma addDeployment_podinv (name nsName : string) (rc : Z) (cpu mem : Q)
    (s : OpenShiftSimulator) :
  Structured s -> poolValid s -> PodInv s ->
  PodInv (snd (addDeployment name nsName rc cpu mem s)).
Proof.
  intros Hst Hvalid Hinv.
  destruct (fst (addDeployment name nsName rc cpu mem s)) as [d|] eqn:Hd.
  2:{ rewrite addDeployment_None_unchanged by exact Hd. exact Hinv. }
  destruct (addDeployment_Some_inv name nsName rc cpu mem s) as (nsId & ns & Ht & Hns & Hfit);
    [rewrite Hd; eexists; reflexivity |].
  rewrite (addDeployment_accepted name nsName rc cpu mem s nsId ns Ht Hns Hfit).
  cbn [snd]. set (s4 := withNewDeployment name nsId ns rc cpu mem s).
  destruct (fresh_podinv s s4 (length (deploymentStore s))
              (builtDeployment name nsId rc cpu mem s)
              (Structured_ownedPods s Hst) Hinv) as (Hinv4 & Hown4).
  - reflexivity.
  - reflexivity.
  - unfold s4, withNewDeployment. cbn [deploymentStore].
    rewrite lookup_app_r by reflexivity. rewrite Nat.sub_diag. reflexivity.
  - intros d' Hne. unfold s4, withNewDeployment. cbn [deploymentStore].
    destruct (decide (d' < length (deploymentStore s))%nat) as [Hlt|Hge].
    + apply lookup_app_l. exact Hlt.
    + rewrite !lookup_ge_None_2; [reflexivity | lia |]. rewrite length_app. cbn. lia.
  - intros d' Hd' Hne. unfold s4, withNewDeployment in Hd'. cbn [deployments] in Hd'.
    apply elem_of_app in Hd' as [Hd'|Hd']; [exact Hd' |].
    apply list_elem_of_singleton in Hd'. congruence.
  - auto.
  - apply allocateDeploymentPods_podinv; [| exact Hown4 | exact Hinv4].
    exact Hvalid.
Qed.

Lemma scaleDeployment_podinv (name : string) (n : Z) (s : OpenShiftSimulator) :
  Structured s -> poolValid s -> PodInv s -> PodInv (snd (scaleDeployment name n s)).
Proof.
  intros Hst Hvalid Hinv. unfold scaleDeployment.
  destruct (findDeployment name s) as [[i d]|] eqn:Hfind; [| exact Hinv].
  destruct (deploymentStore s !! d) as [dep|] eqn:Hd; [| exact Hinv].
  rewrite (scale_before_test s d dep n _ Hd).
  pose proof (foldl_unbindPod_placementOnly (Deployment.pods dep) s) as Hframe.
  pose proof (foldl_unbindPod_podStore (Deployment.pods dep) s) as Hpu.
  set (u := foldl unbindPod s (Deployment.pods dep)) in *.
  pose proof (placementOnly_fields _ _ Hframe) as (_ & Hds & Hw & _ & Hdl & _).
  match goal with |- context [withPodStore ?st ?s0] => set (s3 := withPodStore st s0) end.
  assert (Hvalid3 : poolValid s3)
    by exact (poolValid_keepsPool _ _ (placementOnly_keepsPool _ _ Hframe) Hvalid).
  destruct (fresh_podinv s s3 d
              (fst (Deployment.createPods (Deployment.setReplicaCount n dep) (podStore u)))
              (Structured_ownedPods s Hst) Hinv) as (Hinv3 & Hown3).
  - unfold s3. cbn [podStore withPodStore]. rewrite Hpu. reflexivity.
  - cbn. rewrite Hpu. reflexivity.
  - unfold s3, updDeployment.
    cbn [deploymentStore withPodStore withDeploymentStore updNamespace withNamespaceStore].
    rewrite list_lookup_alter_eq, Hds, Hd. reflexivity.
  - intros d' Hne. unfold s3, updDeployment.
    cbn [deploymentStore withPodStore withDeploymentStore updNamespace withNamespaceStore].
    rewrite list_lookup_alter_ne by congruence. rewrite Hds. reflexivity.
  - intros d' Hd' _. change (d' ∈ deployments u) in Hd'. rewrite Hdl in Hd'. exact Hd'.
  - intros x Hx. change (x ∈ workerNodes u). rewrite Hw. exact Hx.
  - destruct (namespaceStore s3 !! Deployment.namespace dep) as [ns|]; [| exact Hinv3].
    destruct (Namespace.allocateResources _ _ ns) as [ok ns'].
    destruct ok; cbn [negb].
    + cbn [snd]. apply allocateDeploymentPods_podinv.
      * exact Hvalid3.
      * exact Hown3.
      * apply (PodInv_ext s3); try reflexivity; [auto | exact Hinv3].
    + destruct (Namespace.allocateResources _ _ ns') as [ok' ns''].
      cbn [snd]. apply (PodInv_ext s3); try reflexivity; [auto | exact Hinv3].
Qed.

Lemma deleteDeployment_podinv (name : string) (s : OpenShiftSimulator) :
  PodInv s -> PodInv (snd (deleteDeployment name s)).
Proof.
  intros Hinv.
  destruct (findDeployment name s) as [[i d]|] eqn:Hfind.
  2:{ unfold deleteDeployment. rewrite Hfind. exact Hinv. }
  destruct (deploymentStore s !! d) as [dep|] eqn:Hd.
  2:{ unfold deleteDeployment. rewrite Hfind, Hd. exact Hinv. }
  rewrite (deleteDeployment_found name s i d dep Hfind Hd). cbn [snd].
  pose proof (foldl_unbindPod_placementOnly (Deployment.pods dep) s) as Hframe.
  pose proof (foldl_unbindPod_podStore (Deployment.pods dep) s) as Hpu.
  set (u := foldl unbindPod s (Deployment.pods dep)) in *.
  pose proof (placementOnly_fields _ _ Hframe) as (_ & Hds & Hw & _ & Hdl & _).
  apply PodInv_fewer.
  - intros d' Hd'. change (d' ∈ deployments u). rewrite Hdl.
    eapply list_elem_of_delete_inv. exact Hd'.
  - apply (PodInv_ext s); try assumption; try reflexivity.
    intros x Hx. change (x ∈ workerNodes u). rewrite Hw. exact Hx.
Qed.

Lemma wipe_podinv (factor : Q) (s : OpenShiftSimulator) : PodInv s -> PodInv (wipe factor s).
Proof.
  intros Hinv. unfold wipe.
  pose proof (clearNodes_placementOnly (workerNodes (withFactor factor s))
                (withFactor factor s)) as Hf.
  pose proof (clearNodes_podStore (workerNodes (withFactor factor s))
                (withFactor factor s)) as Hp.
  set (c := foldl _ (withFactor factor s) _) in *.
  pose proof (placementOnly_fields _ _ Hf) as (_ & Hds & Hw & _ & Hdl & _).
  apply PodInv_fewer; [intros d Hd; inversion Hd |].
  apply (PodInv_ext s); try assumption.
  intros x Hx. change (x ∈ workerNodes c). rewrite Hw. exact Hx.
Qed.

Lemma wipe_keepsPool (factor : Q) (s : OpenShiftSimulator) : keepsPool s (wipe factor s).
Proof.
  unfold wipe.
  exact (placementOnly_keepsPool _ _
           (clearNodes_placementOnly (workerNodes (withFactor factor s))
                                     (withFactor factor s))).
Qed.

Lemma populate_podinv (factor : Q) (random : nat -> Q) (s : OpenShiftSimulator) :
  NodeInv s -> poolValid s -> PodInv s -> PodInv (populate factor random s).
Proof.
  intros Hn Hv Hp.
  cut (NodeInv (populate factor random s) /\ poolValid (populate factor random s)
       /\ PodInv (populate factor random s)); [tauto |].
  unfold populate.
  apply (foldl_preserves (fun x => NodeInv x /\ poolValid x /\ PodInv x)); [| tauto].
  intros s0 i (Hn0 & Hv0 & Hp0).
  apply (foldl_preserves (fun x => NodeInv x /\ poolValid x /\ PodInv x)).
  - intros s1 j (Hn1 & Hv1 & Hp1). split; [| split].
    + apply addDeployment_inv; try apply Qmax_floor_nonneg. exact Hn1.
    + exact (poolValid_keepsPool _ _ (addDeployment_keepsPool _ _ _ _ _ s1) Hv1).
    + apply addDeployment_podinv; [exact (proj1 Hn1) | exact Hv1 | exact Hp1].
  - split; [| split].
    + apply createNamespace_inv, Hn0.
    + exact (poolValid_keepsPool _ _ (createNamespace_keepsPool _ _ _ s0) Hv0).
    + apply createNamespace_podinv, Hp0.
Qed.

Lemma exec_podinv (c : Command) (s : OpenShiftSimulator) :
  NodeInv s -> poolValid s -> PodInv s -> PodInv (exec c s).
Proof.
  intros Hn Hv Hp. pose proof (proj1 Hn) as Hst. destruct c; cbn [exec].
  - apply (PodInv_ext s); try reflexivity; [| exact Hp].
    intros x Hx. cbn. apply elem_of_app. left. exact Hx.
  - unfold setTotalWorkerNodes.
    pose proof Hp as (_ & _ & P3 & P4).
    destruct (targetCount <? _)%Z; [| destruct (targetCount >? _)%Z]; cbn [snd].
    + apply reallocateAllPods_podinv; try assumption.
      * intros x Hx. cbn [workerNodes nodeStore withWorkerNodes] in *.
        apply Hv. unfold spliceFrom in Hx.
        apply elem_of_take in Hx as (i & Hi & _). eapply list_elem_of_lookup_2. exact Hi.
      * exact (Structured_ownedPods s Hst).
    + rewrite addWorkerNodes_spec. apply reallocateAllPods_podinv; try assumption.
      * rewrite <- addWorkerNodes_spec. apply addWorkerNodes_poolValid, Hv.
      * exact (Structured_ownedPods s Hst).
    + exact Hp.
  - apply createNamespace_podinv, Hp.
  - apply addDeployment_podinv; assumption.
  - apply scaleDeployment_podinv; assumption.
  - apply deleteDeployment_podinv, Hp.
  - unfold setSimulatedWorkloadFactor.
    destruct (Qltb factor 0 || Qltb 1 factor); [exact Hp |].
    destruct (Qltb 0 factor); cbn [snd]; [| apply wipe_podinv, Hp].
    apply populate_podinv; [apply wipe_inv, Hst | | apply wipe_podinv, Hp].
    exact (poolValid_keepsPool _ _ (wipe_keepsPool factor s) Hv).
Qed.

Lemma constructor_podinv : PodInv constructor.
Proof.
  split; [| split; [| split]].
  - intros d p pod Hd. inversion Hd.
  - intros d dep Hd. inversion Hd.
  - intros d dep H. cbn in H. rewrite lookup_nil in H. discriminate.
  - intros d dep p pod H. cbn in H. rewrite lookup_nil in H. discriminate.
Qed.

Lemma run_podinv (cmds : list Command) (s : OpenShiftSimulator) :
  Forall validArgs cmds -> NodeInv s -> poolValid s -> PodInv s -> PodInv (run cmds s).
Proof.
  revert s. induction cmds as [|c cmds IH]; intros s Hv Hn Hp Hi; [exact Hi |].
  apply Forall_cons in Hv as [Hc Hv]. cbn [run foldl].
  apply (IH (exec c s) Hv).
  - apply exec_inv; assumption.
  - apply exec_poolValid, Hp.
  - apply exec_podinv; assumption.
Qed.

Lemma reachable_PodInv (s : OpenShiftSimulator) : reachable s -> PodInv s.
Proof.
  intros (cmds & Hv & ->).
  apply run_podinv; [exact Hv | apply constructor_inv | | apply constructor_podinv].
  apply (run_poolValid []).
Qed.

(** ** What the status report shows *)

Lemma Frozen_refsValid (s s' : OpenShiftSimulator) :
  Frozen s s' -> namespaceRefsValid s -> namespaceRefsValid s'.
Proof.
  intros [_ B C _ E] Hv d dep' Hlk.
  destruct (decide (length (deploymentStore s) <= d)%nat) as [Hge|Hlt];
    [exact (E d dep' Hge Hlk) |].
  destruct (lookup_lt_is_Some_2 (deploymentStore s) d) as [dep Hdep]; [lia |].
  destruct (prefix_lookup_view _ _ _ _ _ C Hdep) as (x & Hx & Hid).
  assert (x = dep') as -> by congruence.
  pose proof (Hv d dep Hdep) as Hvalid.
  apply prefix_length in B. rewrite !length_map in B.
  unfold deploymentIdentity in Hid.
  assert (Deployment.namespace dep' = Deployment.namespace dep) as -> by congruence.
  lia.
Qed.

Lemma reachable_refsValid (s : OpenShiftSimulator) : reachable s -> namespaceRefsValid s.
Proof.
  intros (cmds & _ & ->). apply (Frozen_refsValid constructor); [apply run_Frozen |].
  intros d dep H. cbn in H. rewrite lookup_nil in H. discriminate.
Qed.

Lemma podView_inv (s : OpenShiftSimulator) (p : nat) (v : PodDict.t) :
  (pod ← podStore s !! p; PodDict.toDict s pod) = Some v ->
  exists pod,
    podStore s !! p = Some pod /\
    PodDict.name v = Pod.name pod /\
    PodDict.status v = Pod.status pod /\
    PodDict.cpu_request v = Pod.cpuRequest pod /\
    PodDict.memory_request v = Pod.memoryRequest pod /\
    match Pod.node pod with
    | Some n => exists nd, nodeStore s !! n = Some nd /\ PodDict.node v = WorkerNode.name nd
    | None => PodDict.node v = "N/A"
    end.
Proof.
  destruct (podStore s !! p) as [pod|]; [| discriminate]. cbn.
  unfold PodDict.toDict. intros H. exists pod. split; [reflexivity |].
  destruct (Pod.node pod) as [n|].
  - destruct (nodeStore s !! n) as [nd|]; [| discriminate]. cbn in H.
    injection H as <-. cbn. repeat split. exists nd. split; reflexivity.
  - injection H as <-. cbn. repeat split.
Qed.

Lemma filter_all {A} (P : A -> Prop) `{!forall x, Decision (P x)} (l : list A) :
  (forall x, x ∈ l -> P x) -> filter P l = l.
Proof.
  induction l as [|a l IH]; intros Hall; [reflexivity |].
  rewrite filter_cons_True by (apply Hall; left).
  f_equal. apply IH. intros x Hx. apply Hall. right. exact Hx.
Qed.

Lemma filter_none {A} (P : A -> Prop) `{!forall x, Decision (P x)} (l : list A) :
  (forall x, x ∈ l -> ~ P x) -> filter P l = [].
Proof.
  induction l as [|a l IH]; intros Hall; [reflexivity |].
  rewrite filter_cons_False by (apply Hall; left).
  apply IH. intros x Hx. apply Hall. right. exact Hx.
Qed.

Lemma deploymentDict_spec (s : OpenShiftSimulator) (d : nat) (dep : Deployment.t) :
  reachable s ->
  d ∈ deployments s -> deploymentStore s !! d = Some dep ->
  exists v,
    DeploymentDict.toDict s dep = Some v /\
    DeploymentDict.name v = Deployment.name dep /\
    length (DeploymentDict.pods v) = Z.to_nat (DeploymentDict.replica_count v) /\
    Forall (fun pv =>
              PodDict.cpu_request pv = DeploymentDict.cpu_request_per_replica v /\
              PodDict.memory_request pv = DeploymentDict.memory_request_per_replica v)
           (DeploymentDict.pods v) /\
    ((DeploymentDict.running_pods v = length (DeploymentDict.pods v) /\
      Forall (fun pv => PodDict.status pv = Running) (DeploymentDict.pods v)) \/
     (DeploymentDict.running_pods v = 0%nat /\
      Forall (fun pv => PodDict.status pv = Pending /\ PodDict.node pv = "N/A")
             (DeploymentDict.pods v))).
Proof.
  intros Hr Hd Hdep.
  pose proof (reachable_Structured s Hr) as Hst.
  pose proof (reachable_HostInv s Hr) as (_ & _ & Hpend).
  pose proof (reachable_PodInv s Hr) as (P1 & P2 & P3 & P4).
  pose proof (reachable_poolValid s Hr) as Hvalid.
  destruct (lookup_lt_is_Some_2 (namespaceStore s) (Deployment.namespace dep))
    as [ns Hns]; [exact (reachable_refsValid s Hr d dep Hdep) |].
  assert (Hlk : forall p, p ∈ Deployment.pods dep -> exists pod, podStore s !! p = Some pod).
  { intros p Hp. apply lookup_lt_is_Some_2. exact (st_depPods s Hst d dep p Hdep Hp). }
  assert (Htotal : is_Some (PodDict.ofList s (Deployment.pods dep))).
  { apply mapM_is_Some_2, Forall_forall. intros p Hp. destruct (Hlk p Hp) as [pod Hpod].
    cbn. rewrite Hpod. cbn. unfold PodDict.toDict.
    destruct (Pod.node pod) as [n|] eqn:En; [| eexists; reflexivity].
    destruct (Pod.status pod) eqn:Es.
    { rewrite (Hpend p pod Hpod Es) in En. discriminate. }
    destruct (P1 d p pod Hd) as (h & Hh & Hpool); try assumption.
    { unfold podsOf. rewrite Hdep. exact Hp. }
    assert (h = n) as -> by congruence.
    destruct (lookup_lt_is_Some_2 _ _ (Hvalid n Hpool)) as [nd ->]. eexists. reflexivity. }
  destruct Htotal as [vs Hvs]. pose proof (mapM_Some_1 _ _ _ Hvs) as Hall.
  unfold DeploymentDict.toDict. rewrite Hns. cbn. rewrite Hvs. cbn.
  eexists. split; [reflexivity |]. cbn. split; [reflexivity |].
  split; [rewrite <- (Forall2_length _ _ _ Hall); exact (P3 d dep Hdep) |]. split.
  { eapply Forall2_Forall_r; [exact Hall |]. apply Forall_forall.
    intros p Hp pv Hpv. apply podView_inv in Hpv as (pod & Hpod & _ & _ & -> & -> & _).
    exact (P4 d dep p pod Hdep Hp Hpod). }
  destruct (P2 d dep Hd Hdep) as [HR|HP]; [left | right].
  - split.
    + rewrite filter_all; [exact (Forall2_length _ _ _ Hall) |].
      intros p Hp. destruct (Hlk p Hp) as [pod Hpod]. unfold isRunning. rewrite Hpod.
      unfold Pod.isPending. rewrite (HR p pod Hp Hpod). reflexivity.
    + eapply Forall2_Forall_r; [exact Hall |]. apply Forall_forall.
      intros p Hp pv Hpv. apply podView_inv in Hpv as (pod & Hpod & _ & -> & _).
      exact (HR p pod Hp Hpod).
  - split.
    + rewrite filter_none; [reflexivity |].
      intros p Hp. destruct (Hlk p Hp) as [pod Hpod]. unfold isRunning. rewrite Hpod.
      unfold Pod.isPending. rewrite (HP p pod Hp Hpod). discriminate.
    + eapply Forall2_Forall_r; [exact Hall |]. apply Forall_forall.
      intros p Hp pv Hpv. apply podView_inv in Hpv as (pod & Hpod & _ & -> & _ & _ & Hnode).
      pose proof (HP p pod Hp Hpod) as Hs. split; [exact Hs |].
      rewrite (Hpend p pod Hpod Hs) in Hnode. exact Hnode.
Qed.

(** X11: in a reachable state [toDict] succeeds on every listed deployment,
    and what it reports is consistent: as many pods as [replica_count], each
    with the per-replica requests of the deployment, and the pods are all
    Running ([running_pods] is their number) or all Pending on no node
    ([running_pods] is 0). *)
Theorem deployment_view (s : OpenShiftSimulator) (d : nat) (dep : Deployment.t) :
  reachable s ->
  d ∈ deployments s -> deploymentStore s !! d = Some dep ->
  exists v,
    DeploymentDict.toDict s dep = Some v /\
    DeploymentDict.name v = Deployment.name dep /\
    length (DeploymentDict.pods v) = Z.to_nat (DeploymentDict.replica_count v) /\
    Forall (fun pv =>
              PodDict.cpu_request pv = DeploymentDict.cpu_request_per_replica v /\
              PodDict.memory_request pv = DeploymentDict.memory_request_per_replica v)
           (DeploymentDict.pods v) /\
    ((DeploymentDict.running_pods v = length (DeploymentDict.pods v) /\
      Forall (fun pv => PodDict.status pv = Running) (DeploymentDict.pods v)) \/
     (DeploymentDict.running_pods v = 0%nat /\
      Forall (fun pv => PodDict.status pv = Pending /\ PodDict.node pv = "N/A")
             (DeploymentDict.pods v))).
Proof. exact (deploymentDict_spec s d dep). Qed.

Lemma deployment_view_witness :
  reachable scenarioRejected /\
  exists v,
    DeploymentDict.toDict scenarioRejected (Deployment.mk "d1" 0 4 3 40 [2; 3; 4; 5]%nat)
    = Some v /\
    DeploymentDict.running_pods v = 0%nat.
Proof.
  assert (Hr : reachable scenarioRejected).
  { exists [CreateNamespace "a" 10 100; AddDeployment "d1" "a" 2 3 40;
            ScaleDeployment "d1" 4].
    split; [repeat constructor; cbn; try lia; try lra | reflexivity]. }
  split; [exact Hr |].
  destruct (deployment_view scenarioRejected 0 _ Hr
              ltac:(vm_compute; left) eq_refl)
    as (v & Hv & _). exists v. split; [exact Hv |].
  vm_compute in Hv. injection Hv as <-. reflexivity.
Defined.






(** ** The cluster summary against the nodes and the deployments *)













(** ** The generated workload reaches its target *)


Lemma replicaCount_range (r : Q) :
  0 <= r -> r < 1 -> (1 <= Qfloor (r * 3) + 1 <= 3)%Z.
Proof.
  intros H0 H1. pose proof (Qfloor_nonneg (r * 3) ltac:(lra)) as Hlo.
  pose proof (Qfloor_le (r * 3)) as Hle.
  assert (Hlt : inject_Z (Qfloor (r * 3)) < inject_Z 3)
    by (change (inject_Z 3) with 3; lra).
  rewrite <- Zlt_Qlt in Hlt. lia.
Qed.








Lemma sumNodes_ext (f : WorkerNode.t -> Q) (s s' : OpenShiftSimulator) :
  workerNodes s' = workerNodes s ->
  (forall n, n ∈ workerNodes s -> f <$> nodeStore s' !! n = f <$> nodeStore s !! n) ->
  sumNodes f s' = sumNodes f s.
Proof.
  intros Hw Hn. unfold sumNodes. rewrite Hw.
  assert (H : forall l acc,
            (forall n, n ∈ l -> f <$> nodeStore s' !! n = f <$> nodeStore s !! n) ->
            foldl (fun sum n => match nodeStore s' !! n with
                                | Some nd => sum + f nd
                                | None => sum
                                end) acc l
            = foldl (fun sum n => match nodeStore s !! n with
                                  | Some nd => sum + f nd
                                  | None => sum
                                  end) acc l).
  { induction l as [|a l IH]; intros acc Hl; [reflexivity |].
    cbn [foldl]. pose proof (Hl a (list_elem_of_here a l)) as Ha.
    destruct (nodeStore s' !! a) as [nd'|], (nodeStore s !! a) as [nd|];
      cbn in Ha; try discriminate.
    - injection Ha as ->. apply IH. intros n Hin. apply Hl. right. exact Hin.
    - apply IH. intros n Hin. apply Hl. right. exact Hin. }
  apply H, Hn.
Qed.

Lemma wipe_allocatable (factor : Q) (s : OpenShiftSimulator) :
  sumNodes WorkerNode.allocatableCpu (wipe factor s) = sumNodes WorkerNode.allocatableCpu s /\
  sumNodes WorkerNode.allocatableMemory (wipe factor s)
  = sumNodes WorkerNode.allocatableMemory s.
Proof.
  assert (Hw : workerNodes (wipe factor s) = workerNodes s)
    by exact (proj1 (wipe_keepsPool factor s)).
  assert (Hn : forall n, n ∈ workerNodes s ->
            nodeStore (wipe factor s) !! n = WorkerNode.clear <$> nodeStore s !! n).
  { intros n Hin. unfold wipe. cbn [nodeStore withDeployments withNamespaces].
    rewrite clearNodes_lookup. rewrite decide_True by exact Hin. reflexivity. }
  split; apply sumNodes_ext; try exact Hw; intros n Hin; rewrite (Hn n Hin);
    destruct (nodeStore s !! n); reflexivity.
Qed.



(** ** The generated workload on a pool without allocatable CPU *)

Lemma foldl_fixed {S X} (f : S -> X -> S) (l : list X) (s : S) :
  (forall a, f s a = s) -> foldl f s l = s.
Proof.
  intros H. induction l as [|a l IH]; [reflexivity |].
  cbn [foldl]. rewrite H. exact IH.
Qed.

Lemma foldl_ext_inv {S X} (Inv : S -> Prop) (f g : S -> X -> S) (l : list X) (s : S) :
  Inv s -> (forall x a, Inv x -> f x a = g x a /\ Inv (g x a)) ->
  foldl f s l = foldl g s l.
Proof.
  intros Hs Hstep. revert s Hs. induction l as [|a l IH]; intros s Hs; [reflexivity |].
  cbn [foldl]. destruct (Hstep s a Hs) as [-> Hi]. apply IH, Hi.
Qed.

Lemma addDeployment_zeroQuota (x : OpenShiftSimulator) (name nsName : string)
    (rc : Z) (c m : Q) :
  zeroQuota x -> 0 < inject_Z rc * c ->
  addDeployment name nsName rc c m x = (None, x).
Proof.
  intros Hz Hpos.
  destruct (namespaces x !! nsName) as [n|] eqn:Ht;
    [| unfold addDeployment; rewrite Ht; reflexivity].
  destruct (namespaceStore x !! n) as [ns|] eqn:Hs;
    [| unfold addDeployment; rewrite Ht, Hs; reflexivity].
  apply (addDeployment_rejected x name nsName rc c m n ns Ht Hs).
  destruct (Hz nsName n ns Ht Hs) as [Hq Ha].
  destruct (Namespace.fits (inject_Z rc * c) (inject_Z rc * m) ns) eqn:F; [| reflexivity].
  apply fits_iff in F. destruct F as [F _]. rewrite Hq in F. lra.
Qed.

Lemma createNamespace_zeroQuota (x : OpenShiftSimulator) (name : string) (qc qm : Q) :
  qc == 0 -> zeroQuota x -> zeroQuota (snd (createNamespace name qc qm x)).
Proof.
  intros Hq Hz. unfold createNamespace.
  destruct (namespaces x !! name) eqn:Ht; cbn [snd]; [exact Hz |].
  intros name' n ns. cbn [namespaces namespaceStore withNamespaces withNamespaceStore].
  intros Hn Hs. apply lookup_app_Some in Hs as [Hs | [_ Hs]].
  - destruct (decide (name = name')) as [<-|Hne].
    + rewrite lookup_insert_eq in Hn. injection Hn as <-.
      apply lookup_lt_Some in Hs. lia.
    + rewrite lookup_insert_ne in Hn by exact Hne. exact (Hz name' n ns Hn Hs).
  - apply list_lookup_singleton_Some in Hs as [_ <-]. cbn. split; [exact Hq | lra].
Qed.

Lemma populate_zeroQuota (factor : Q) (random : nat -> Q) (w : OpenShiftSimulator) :
  (forall k, 0 <= random k /\ random k < 1) ->
  sumNodes WorkerNode.allocatableCpu w == 0 ->
  zeroQuota w ->
  populate factor random w
  = foldl (fun x (i : nat) =>
             snd (createNamespace ("sim-ns-" +:+ pretty i)
                    (sumNodes WorkerNode.allocatableCpu w
                     / inject_Z (Z.max 1 (Z.min 10 (Qceiling (factor * 10)))) * 1.2)
                    (sumNodes WorkerNode.allocatableMemory w
                     / inject_Z (Z.max 1 (Z.min 10 (Qceiling (factor * 10)))) * 1.2) x))
          w (seq 0 (Z.to_nat (Z.max 1 (Z.min 10 (Qceiling (factor * 10)))))).
Proof.
  intros Hrandom Ht Hz. unfold populate. cbv zeta.
  set (N := Z.max 1 (Z.min 10 (Qceiling (factor * 10)))).
  assert (HNq : 1 <= inject_Z N)
    by (change 1 with (inject_Z 1); rewrite <- Zle_Qle; unfold N; lia).
  assert (Hq : sumNodes WorkerNode.allocatableCpu w / inject_Z N * 1.2 == 0).
  { rewrite Ht. field. lra. }
  apply (foldl_ext_inv zeroQuota); [exact Hz |].
  intros x i Hx.
  pose proof (createNamespace_zeroQuota x ("sim-ns-" +:+ pretty i) _
                (sumNodes WorkerNode.allocatableMemory w / inject_Z N * 1.2) Hq Hx) as Hy.
  split; [| exact Hy].
  apply foldl_fixed. intros j.
  rewrite addDeployment_zeroQuota; [reflexivity | exact Hy |].
  destruct (Hrandom (i * Z.to_nat N + j)%nat) as [H0 H1].
  pose proof (replicaCount_range _ H0 H1) as Hrc.
  set (rc := (Qfloor (random (i * Z.to_nat N + j)%nat * 3) + 1)%Z) in *.
  assert (H1q : 1 <= inject_Z rc)
    by (change 1 with (inject_Z 1); rewrite <- Zle_Qle; lia).
  match goal with |- 0 < _ * Qmax 0.01 ?a => pose proof (Q.le_max_l 0.01 a) end.
  nra.
Qed.

(** X15: on a pool whose allocatable CPU adds up to zero (an empty pool, for
    one), [setSimulatedWorkloadFactor] with a factor in (0, 1] still reports
    success, but every generated deployment is rejected, because the floor
    of 0.01 CPU per replica is more than the quota of zero: the call only
    creates the namespaces [sim-ns-0 ..], and leaves no deployment, no new
    deployment object and no new pod. *)
Theorem workloadFactor_without_capacity (factor : Q) (random : nat -> Q)
    (s : OpenShiftSimulator) :
  (forall k, 0 <= random k /\ random k < 1) -> 0 < factor -> factor <= 1 ->
  let t := ClusterSummary.total_allocatable_cpu (getClusterSummary s) in
  let tm := ClusterSummary.total_allocatable_memory (getClusterSummary s) in
  let N := Z.max 1 (Z.min 10 (Qceiling (factor * 10))) in
  t == 0 ->
  let r := setSimulatedWorkloadFactor factor random s in
  fst r = true /\
  snd r = foldl (fun x (i : nat) =>
                   snd (createNamespace ("sim-ns-" +:+ pretty i)
                          (t / inject_Z N * 1.2) (tm / inject_Z N * 1.2) x))
                (wipe factor s) (seq 0 (Z.to_nat N)) /\
  deployments (snd r) = [] /\
  deploymentStore (snd r) = deploymentStore s /\
  podStore (snd r) = podStore s.
Proof.
  intros Hrandom Hf0 Hf1 t tm N Ht. cbv zeta.
  unfold setSimulatedWorkloadFactor.
  assert (E1 : Qltb factor 0 || Qltb 1 factor = false).
  { apply orb_false_iff. split; apply Qltb_false; lra. }
  assert (E2 : Qltb 0 factor = true) by (apply Qltb_true; exact Hf0).
  rewrite E1, E2. cbn [fst snd]. split; [reflexivity |].
  destruct (wipe_allocatable factor s) as [Et Etm].
  assert (Hz : zeroQuota (wipe factor s)).
  { intros name n ns Hn. unfold wipe in Hn. cbn in Hn.
    rewrite lookup_empty in Hn. discriminate. }
  rewrite (populate_zeroQuota factor random (wipe factor s) Hrandom);
    [| rewrite Et; exact Ht | exact Hz].
  rewrite Et, Etm. fold N.
  split; [reflexivity |].
  apply (foldl_preserves
           (fun x => deployments x = [] /\ deploymentStore x = deploymentStore s /\
                     podStore x = podStore s)).
  - intros x i H. unfold createNamespace.
    destruct (namespaces x !! ("sim-ns-" +:+ pretty i)); exact H.
  - unfold wipe. cbn [deployments deploymentStore podStore withDeployments withNamespaces].
    split; [reflexivity |].
    split; apply (foldl_preserves (fun x => _ x = _ s));
      solve [ intros; assumption | reflexivity ].
Qed.

Lemma workloadFactor_without_capacity_witness :
  deployments (snd (setSimulatedWorkloadFactor 0.5 (fun _ => 0.5)
                      (snd (setTotalWorkerNodes 0 constructor)))) = [].
Proof.
  refine (proj1 (proj2 (proj2 (workloadFactor_without_capacity 0.5 (fun _ => 0.5)
                          (snd (setTotalWorkerNodes 0 constructor)) _ _ _ _)))).
  - intros k. split; lra.
  - lra.
  - lra.
  - vm_compute. reflexivity.
Defined.

(** ** Adding a deployment and deleting it again *)





















(** ** Scaling down *)




